(** * NeuraNotes hybrid retrieval: a shallow embedding and its properties

    The development follows three source files of the repository:

    - the Vite search library ([hybridSearchVite], the file that defines
      [generateQueryEmbedding], [performFTSSearch], [performDocumentSearch],
      [performVectorSearch], [performSupabaseHybridSearch], [mergeAndScore]
      and the cascade [hybridSearch]);
    - [src/lib/hybridSearch.js], the API-backed library with [weightedSearch];
    - the React hook [useHybridSearch] ([performSearch], [debouncedSearch],
      [searchNow], [clearSearch]).

    Scores and weights are exact rationals ([Qc], canonical fractions with
    Leibniz equality): no rounding, no NaN, no infinities. The weight
    normalisation of [weightedSearch], where rounding decides what is
    passed on, is written over an arbitrary arithmetic and also run on
    binary64 floats, which are JavaScript's numbers.
    Asynchronous code is modelled by explicit state passing: the external
    services are an environment record of replies, every call to one of them
    is logged, and the hook is a transition system whose steps are the
    run-to-completion segments of the event loop. *)

From Stdlib Require Import List String Ascii Bool Arith ZArith Lia.
From Stdlib Require Import QArith Qcanon Sorted Permutation PrimFloat.
From Stdlib Require DecimalString.
Import ListNotations.

Set Implicit Arguments.

(* ------------------------------------------------------------------ *)
(** ** JavaScript values used by the search code *)

Module JS.

(** Numbers. *)
Abbreviation num := Qc.

Definition of_nat (n : nat) : num := Q2Qc (inject_Z (Z.of_nat n)).

Definition ltb (x y : num) : bool :=
  match (x ?= y)%Qc with Lt => true | _ => false end.

Definition is_zero (x : num) : bool :=
  match (x ?= 0)%Qc with Eq => true | _ => false end.

(** [Math.max(a, b)]. *)
Definition Math_max (a b : num) : num := if ltb a b then b else a.

(** [x || d] where [x] is a possibly absent number: [undefined] and [0] are
    falsy. *)
Definition or_num (x : option num) (d : num) : num :=
  match x with
  | Some v => if is_zero v then d else v
  | None => d
  end.

(** Identifiers as the stores return them: uuid strings, or numbers as in
    the scenarios; a [Map] compares keys with SameValueZero, which never
    identifies a number with a string. *)
Inductive ident : Type :=
| IdNum (n : Z)
| IdStr (s : string).

Definition ident_eqb (a b : ident) : bool :=
  match a, b with
  | IdNum x, IdNum y => Z.eqb x y
  | IdStr x, IdStr y => String.eqb x y
  | _, _ => false
  end.

(** A [Map]: insertion ordered; [set] on a present key replaces the value
    and keeps the key's position, [set] on a new key appends. *)
Section JsMap.
Variable V : Type.

Definition jsmap := list (ident * V).

Fixpoint map_has (k : ident) (m : jsmap) : bool :=
  match m with
  | [] => false
  | (k', _) :: m' => if ident_eqb k k' then true else map_has k m'
  end.

Fixpoint map_get (k : ident) (m : jsmap) : option V :=
  match m with
  | [] => None
  | (k', v) :: m' => if ident_eqb k k' then Some v else map_get k m'
  end.

Fixpoint map_set (k : ident) (v : V) (m : jsmap) : jsmap :=
  match m with
  | [] => [(k, v)]
  | (k', v') :: m' =>
      if ident_eqb k k' then (k', v) :: m' else (k', v') :: map_set k v m'
  end.

(** Mutation of the object stored under [k] (the object is shared between
    the map and whoever fetched it with [get]). *)
Fixpoint map_mutate (k : ident) (f : V -> V) (m : jsmap) : jsmap :=
  match m with
  | [] => []
  | (k', v') :: m' =>
      if ident_eqb k k' then (k', f v') :: m' else (k', v') :: map_mutate k f m'
  end.

Definition map_values (m : jsmap) : list V := List.map snd m.

Definition map_keys (m : jsmap) : list ident := List.map fst m.

End JsMap.

(** [Array.prototype.sort(cmp)]: stable; [cmp a b > 0] puts [b] first.
    An element is inserted in front of the part of the array that follows
    it, so that it stays ahead of the elements it ties with. *)
Section Sort.
Variable A : Type.
Variable cmp : A -> A -> num.

Fixpoint sort_insert (x : A) (l : list A) : list A :=
  match l with
  | [] => [x]
  | y :: l' => if ltb 0 (cmp x y) then y :: sort_insert x l' else x :: y :: l'
  end.

Fixpoint sort (l : list A) : list A :=
  match l with
  | [] => []
  | x :: l' => sort_insert x (sort l')
  end.

End Sort.

(** [String.prototype.trim] and [toLowerCase] on the ASCII range. *)
Definition is_space (c : ascii) : bool :=
  let n := nat_of_ascii c in
  (n =? 32)%nat || ((9 <=? n)%nat && (n <=? 13)%nat).

Fixpoint trim_start (s : string) : string :=
  match s with
  | String c s' => if is_space c then trim_start s' else s
  | EmptyString => EmptyString
  end.

Fixpoint trim_end (s : string) : string :=
  match s with
  | EmptyString => EmptyString
  | String c s' =>
      match trim_end s' with
      | EmptyString => if is_space c then EmptyString else String c EmptyString
      | t => String c t
      end
  end.

Definition trim (s : string) : string := trim_end (trim_start s).

Definition lower_ascii (c : ascii) : ascii :=
  let n := nat_of_ascii c in
  if ((65 <=? n)%nat && (n <=? 90)%nat)%bool then ascii_of_nat (n + 32) else c.

Fixpoint toLowerCase (s : string) : string :=
  match s with
  | EmptyString => EmptyString
  | String c s' => String (lower_ascii c) (toLowerCase s')
  end.

(** [s.includes(t)]. *)
Fixpoint includes (s t : string) : bool :=
  if String.prefix t s then true
  else match s with
       | EmptyString => false
       | String _ s' => includes s' t
       end.

End JS.

(* ------------------------------------------------------------------ *)
(** ** The Vite search library *)

Module Vite.
Import JS.
Local Open Scope Qc_scope.

(** Rows as the stores return them: the full-text query selects
    [id, document_id, chunk]; the similarity functions add [similarity]. *)
Record row : Type := {
  r_id : ident;
  r_document_id : ident;
  r_chunk : string;
  r_similarity : option num
}.

(** Result objects: a row spread ([...result]) plus the three scores. *)
Record result : Type := {
  id : ident;
  document_id : ident;
  chunk : string;
  similarity : option num;
  fts_score : num;
  vector_score : num;
  hybrid_score : num
}.

(** [Math.max(0, 1 - (index / length))]. *)
Definition rank_score (index len : nat) : num :=
  Math_max 0 (1 - of_nat index / of_nat len).

(** The object [{...result, fts_score, vector_score: 0, hybrid_score}]. *)
Definition fts_entry (r : row) (ftsScore hybrid : num) : result :=
  {| id := r_id r; document_id := r_document_id r; chunk := r_chunk r;
     similarity := r_similarity r;
     fts_score := ftsScore; vector_score := 0; hybrid_score := hybrid |}.

(** First loop of [mergeAndScore]: [ftsResults.forEach((result, index) => ...)]. *)
Fixpoint seed_fts (ftsWeight : num) (len index : nat) (ftsResults : list row)
    (resultMap : jsmap result) : jsmap result :=
  match ftsResults with
  | [] => resultMap
  | r :: rest =>
      let ftsScore := rank_score index len in
      seed_fts ftsWeight len (S index) rest
        (map_set (r_id r) (fts_entry r ftsScore (ftsWeight * ftsScore)) resultMap)
  end.

(** Body of the second loop, for one vector result. *)
Definition merge_vector (ftsWeight vectorWeight : num)
    (resultMap : jsmap result) (r : row) : jsmap result :=
  let vectorScore := or_num (r_similarity r) 0 in
  if map_has (r_id r) resultMap then
    map_mutate (r_id r)
      (fun existing =>
         {| id := id existing; document_id := document_id existing;
            chunk := chunk existing; similarity := similarity existing;
            fts_score := fts_score existing;
            vector_score := vectorScore;
            hybrid_score := ftsWeight * fts_score existing + vectorWeight * vectorScore |})
      resultMap
  else
    map_set (r_id r)
      {| id := r_id r; document_id := r_document_id r; chunk := r_chunk r;
         similarity := None;
         fts_score := 0; vector_score := vectorScore;
         hybrid_score := vectorWeight * vectorScore |}
      resultMap.

(** The map just before [Array.from(resultMap.values())]. *)
Definition merged_map (ftsResults vectorResults : list row)
    (ftsWeight vectorWeight : num) : jsmap result :=
  fold_left (merge_vector ftsWeight vectorWeight) vectorResults
    (seed_fts ftsWeight (List.length ftsResults) 0 ftsResults []).

(** The comparator [(a, b) => b.hybrid_score - a.hybrid_score]. The handler
    in [api/hybrid-search.js] defines [mergeAndScore] with the same text. *)
Definition by_hybrid_desc (a b : result) : num := hybrid_score b - hybrid_score a.

Definition mergeAndScore (ftsResults vectorResults : list row)
    (ftsWeight vectorWeight : num) : list result :=
  sort by_hybrid_desc
    (map_values (merged_map ftsResults vectorResults ftsWeight vectorWeight)).

(** *** The cascade and its collaborators

    Every request to an external service is recorded, in order. *)
(** What [data[0].embedding] of an embeddings response evaluates to: the
    vector, or [undefined] when the first item has no such field. It is
    handed on to the similarity functions as it is. *)
Definition embedding_value : Type := option (list num).

Inductive call : Type :=
| CallEmbedding (input : string)
| CallFTS (queryText : string) (scope : option ident) (lim : nat)
| CallDocuments (scope : option ident) (lim : nat)
| CallVector (queryEmbedding : embedding_value) (scope : option ident) (lim : nat)
| CallHybridRpc (functionName : string) (lim : nat).

(** A computation logs calls and either returns or throws an [Error] with
    a message. *)
Inductive completion (A : Type) : Type :=
| Returned (a : A)
| Thrown (message : string).
Arguments Returned {A} a.
Arguments Thrown {A} message.

Definition M (A : Type) : Type := list call -> completion A * list call.

Definition ret {A} (a : A) : M A := fun log => (Returned a, log).
Definition throw {A} (message : string) : M A := fun log => (Thrown message, log).
Definition request (c : call) : M unit := fun log => (Returned tt, log ++ [c]).

Definition bind {A B} (m : M A) (k : A -> M B) : M B :=
  fun log =>
    match m log with
    | (Returned a, log') => k a log'
    | (Thrown e, log') => (Thrown e, log')
    end.

Definition try_catch {A} (m : M A) (handler : string -> M A) : M A :=
  fun log =>
    match m log with
    | (Returned a, log') => (Returned a, log')
    | (Thrown e, log') => handler e log'
    end.

Notation "x <- m ;; k" := (bind m (fun x => k))
  (at level 61, m at next level, right associativity).
Notation "m ;;; k" := (bind m (fun _ => k))
  (at level 61, right associativity).

(** What a Supabase query resolves to: [{ data, error }]. *)
Inductive reply (A : Type) : Type :=
| Data (rows : list A)
| NoData
| Failed (message : string).
Arguments Data {A} rows.
Arguments NoData {A}.
Arguments Failed {A} message.

(** [if (error) throw error; return data || []]. *)
Definition unwrap {A} (r : reply A) : M (list A) :=
  match r with
  | Data rows => ret rows
  | NoData => ret []
  | Failed message => throw message
  end.

(** What reading [data.data[0].embedding] off the body of a response does:
    it throws (the body is no JSON, or [data.data] is missing or empty), or
    it evaluates to the field of the first item. *)
Inductive embedding_field : Type :=
| Unreadable (message : string)
| Field (embedding : embedding_value).

(** What [fetch] to the embeddings endpoint resolves to. *)
Inductive fetch_result : Type :=
| FetchRejected (message : string)
| FetchResponse (ok : bool) (statusText : string)
    (errorMessage : option string) (data : embedding_field).

(** Tiptap nodes and the shapes a document body takes. *)
#[warnings="-register-all"]
Inductive node : Type :=
| Node (type : string) (text : string) (content : list node).

Inductive body : Type :=
| BodyNull
| BodyString (s : string)
| BodyObject (type : string) (original_content : option string) (content : list node).

Record document : Type := {
  doc_id : ident;
  doc_title : string;
  doc_content : body
}.

(** Rows of the SQL hybrid functions. *)
Record hybrid_row : Type := {
  h_id : ident;
  h_document_id : ident;
  h_chunk : string;
  h_hybrid_score : num;
  h_fts_score : option num;
  h_vector_score : option num
}.

Record env : Type := {
  OPENAI_API_KEY : option string;
  embeddings_endpoint : string -> fetch_result;
  embeddings_table : string -> option ident -> nat -> reply row;
  documents_table : option ident -> nat -> reply document;
  match_chunks : embedding_value -> option ident -> nat -> reply row;
  hybrid_function : embedding_value -> string -> option ident -> nat -> reply hybrid_row
}.

Definition nonempty (s : string) : bool :=
  match s with EmptyString => false | _ => true end.

(** Truthiness of a [documentId]: [null], [0] and the empty string are falsy. *)
Definition scope_of (documentId : option ident) : option ident :=
  match documentId with
  | Some (IdNum 0%Z) => None
  | Some (IdStr EmptyString) => None
  | other => other
  end.

Definition generateQueryEmbedding (e : env) (query : string) : M embedding_value :=
  match OPENAI_API_KEY e with
  | Some key =>
      if nonempty key then
        try_catch
          (request (CallEmbedding (trim query)) ;;;
           match embeddings_endpoint e (trim query) with
           | FetchRejected message => throw message
           | FetchResponse ok statusText errorMessage data =>
               if ok then
                 match data with
                 | Field embedding => ret embedding
                 | Unreadable message => throw message
                 end
               else
                 throw ("OpenAI API error: " ++
                        match errorMessage with
                        | Some m => if nonempty m then m else statusText
                        | None => statusText
                        end)%string
           end)
          (fun message =>
             throw ("Failed to generate query embedding: " ++ message)%string)
      else throw "OpenAI API key not configured. Set VITE_OPENAI_API_KEY in your .env file."%string
  | None => throw "OpenAI API key not configured. Set VITE_OPENAI_API_KEY in your .env file."%string
  end.

Definition performFTSSearch (e : env) (queryText : string)
    (documentId : option ident) (lim : nat) : M (list row) :=
  try_catch
    (request (CallFTS queryText (scope_of documentId) lim) ;;;
     unwrap (embeddings_table e queryText (scope_of documentId) lim))
    (fun _ => ret []).

(** [extractText] accumulates into [textContent]. *)
Fixpoint extractText (n : node) (textContent : string) : string :=
  match n with
  | Node type text content =>
      if String.eqb type "text" then (textContent ++ text ++ " ")%string
      else fold_left (fun acc child => extractText child acc) content textContent
  end.

Definition document_text (c : body) : option string :=
  match c with
  | BodyNull => None
  | BodyString s => if nonempty s then Some s else None
  | BodyObject type original_content content =>
      Some
        (match original_content with
         | Some oc =>
             if (String.eqb type "uploaded_file" && nonempty oc)%bool then oc
             else fold_left (fun acc child => extractText child acc) content EmptyString
         | None => fold_left (fun acc child => extractText child acc) content EmptyString
         end)
  end.

(** The filter callback of [performDocumentSearch]. *)
Definition document_matches (queryText : string) (doc : document) : bool :=
  let searchLower := toLowerCase queryText in
  if includes (toLowerCase (doc_title doc)) searchLower then true
  else match document_text (doc_content doc) with
       | Some textContent => includes (toLowerCase textContent) searchLower
       | None => false
       end.

Definition document_row (doc : document) : row :=
  {| r_id := doc_id doc; r_document_id := doc_id doc;
     r_chunk := doc_title doc; r_similarity := None |}.

Definition performDocumentSearch (e : env) (queryText : string)
    (documentId : option ident) (lim : nat) : M (list row) :=
  try_catch
    (request (CallDocuments (scope_of documentId) lim) ;;;
     data <- unwrap (documents_table e (scope_of documentId) lim) ;;
     ret (List.map document_row (List.filter (document_matches queryText) data)))
    (fun _ => ret []).

Definition performVectorSearch (e : env) (queryEmbedding : embedding_value)
    (documentId : option ident) (lim : nat) : M (list row) :=
  try_catch
    (request (CallVector queryEmbedding (scope_of documentId) lim) ;;;
     unwrap (match_chunks e queryEmbedding (scope_of documentId) lim))
    (fun _ => ret []).

(** The options object; an absent field is [None] and takes the default of
    the destructuring pattern. *)
Record options_of (N : Type) : Type := {
  documentId : option ident;
  limit : option nat;
  ftsWeight : option N;
  vectorWeight : option N;
  useSupabaseFunction : option bool;
  fallbackToFTSOnly : option bool
}.

Definition options : Type := options_of num.

Definition no_options : options :=
  {| documentId := None; limit := None; ftsWeight := None; vectorWeight := None;
     useSupabaseFunction := None; fallbackToFTSOnly := None |}.

Definition or_default {A} (x : option A) (d : A) : A :=
  match x with Some v => v | None => d end.

Definition hybrid_result (r : hybrid_row) : result :=
  {| id := h_id r; document_id := h_document_id r; chunk := h_chunk r;
     similarity := None;
     hybrid_score := h_hybrid_score r;
     fts_score := or_num (h_fts_score r) 0;
     vector_score := or_num (h_vector_score r) (or_num (Some (h_hybrid_score r)) 0) |}.

Definition performSupabaseHybridSearch (e : env) (queryEmbedding : embedding_value)
    (queryText : string) (opts : options) : M (list result) :=
  let lim := or_default (limit opts) 10%nat in
  let functionName :=
    match scope_of (documentId opts) with
    | Some _ => "hybrid_search_document"%string
    | None => "simple_hybrid_search"%string
    end in
  try_catch
    (request (CallHybridRpc functionName lim) ;;;
     data <- unwrap (hybrid_function e queryEmbedding queryText
                        (scope_of (documentId opts)) lim) ;;
     ret (List.map hybrid_result data))
    (fun error => throw error).

(** The object a search resolves to. [error] is present on failure only,
    [method] on success only. *)
Record outcome : Type := {
  success : bool;
  error : option string;
  query : string;
  results : list result;
  total : nat;
  method : option string
}.

(** [ftsResults.map((result, index) => ...)] of the embedding-failure path. *)
Fixpoint format_fallback (len index : nat) (ftsResults : list row) : list result :=
  match ftsResults with
  | [] => []
  | r :: rest =>
      fts_entry r (rank_score index len) (rank_score index len)
        :: format_fallback len (S index) rest
  end.

(** The [catch (embeddingError)] block. *)
Definition embedding_fallback (e : env) (q : string) (opts : options)
    (embeddingError : string) : M outcome :=
  let lim := or_default (limit opts) 10%nat in
  if negb (or_default (fallbackToFTSOnly opts) true) then throw embeddingError
  else
    ftsResults <- performFTSSearch e q (documentId opts) lim ;;
    ftsResults <- (if (List.length ftsResults =? 0)%nat
                   then performDocumentSearch e q (documentId opts) lim
                   else ret ftsResults) ;;
    let formattedResults := format_fallback (List.length ftsResults) 0 ftsResults in
    ret {| success := true; error := None; query := q;
           results := formattedResults;
           total := List.length formattedResults;
           method := Some (if (0 <? List.length ftsResults)%nat
                           then "document_search_fallback"
                           else "no_results_found")%string |}.

(** The JavaScript merging branch. *)
Definition javascript_merge (e : env) (q : string) (opts : options)
    (queryEmbedding : embedding_value) : M (list result) :=
  let lim := or_default (limit opts) 10%nat in
  ftsResults <- performFTSSearch e q (documentId opts) (lim * 2) ;;
  ftsResults <- (if (List.length ftsResults =? 0)%nat
                 then performDocumentSearch e q (documentId opts) (lim * 2)
                 else ret ftsResults) ;;
  vectorResults <- performVectorSearch e queryEmbedding (documentId opts) (lim * 2) ;;
  let mergedResults :=
    mergeAndScore ftsResults vectorResults
      (or_default (ftsWeight opts) (Q2Qc (1 # 2)))
      (or_default (vectorWeight opts) (Q2Qc (1 # 2))) in
  ret (firstn lim mergedResults).

(** The body of the outer [try]. The options are destructured with [const];
    the handler of a failed SQL hybrid search assigns to
    [useSupabaseFunction], and an assignment to a constant binding throws a
    [TypeError], which leaves through the outer [catch]. The merging branch
    is therefore entered only when the caller passed
    [useSupabaseFunction: false]. *)
Definition hybridSearch_try (e : env) (q : string) (opts : options) : M outcome :=
  let lim := or_default (limit opts) 10%nat in
  if (String.length (trim q) =? 0)%nat then
    ret {| success := true; error := None; query := EmptyString; results := [];
           total := 0; method := Some "empty_query"%string |}
  else
    embedded <- try_catch
                  (queryEmbedding <- generateQueryEmbedding e q ;; ret (inl queryEmbedding))
                  (fun embeddingError =>
                     o <- embedding_fallback e q opts embeddingError ;; ret (inr o)) ;;
    match embedded with
    | inr o => ret o
    | inl queryEmbedding =>
        if or_default (useSupabaseFunction opts) true then
          found <- try_catch
                     (performSupabaseHybridSearch e queryEmbedding q opts)
                     (fun _ => throw "Assignment to constant variable."%string) ;;
          let found := firstn lim found in
          ret {| success := true; error := None; query := q; results := found;
                 total := List.length found;
                 method := Some "supabase_function"%string |}
        else
          found <- javascript_merge e q opts queryEmbedding ;;
          ret {| success := true; error := None; query := q; results := found;
                 total := List.length found;
                 method := Some "javascript_merge"%string |}
    end.

(** [hybridSearch] with its outer [catch]: the outcome and the requests it
    issued. *)
Definition hybridSearch (e : env) (q : string) (opts : options) : outcome * list call :=
  match hybridSearch_try e q opts [] with
  | (Returned o, log) => (o, log)
  | (Thrown message, log) =>
      ({| success := false; error := Some message; query := q; results := [];
          total := 0; method := None |}, log)
  end.

End Vite.

(* ------------------------------------------------------------------ *)
(** ** The API-backed library ([src/lib/hybridSearch.js]) *)

Module Lib.
Import JS.
Import Vite.
Local Open Scope Qc_scope.

(** The JSON body posted to [/api/hybrid-search]. *)
Record request_body : Type := {
  b_query : string;
  b_documentId : option ident;
  b_limit : nat;
  b_ftsWeight : num;
  b_vectorWeight : num;
  b_useSupabaseFunction : bool
}.

(** The JSON a response carries. *)
Record response_json : Type := {
  j_success : bool;
  j_error : option string;
  j_query : string;
  j_results : list result;
  j_total : nat;
  j_method : option string
}.

Inductive api_result : Type :=
| ApiRejected (message : string)
| ApiResponse (ok : bool) (status : string) (json : response_json).

Definition api := request_body -> api_result.

(** [m || d] on a possibly absent string. *)
Definition or_string (m : option string) (d : string) : string :=
  match m with
  | Some s => if nonempty s then s else d
  | None => d
  end.

Definition failure (message : string) : outcome :=
  {| success := false; error := Some message; query := EmptyString;
     results := []; total := 0; method := None |}.

Definition request_of (q : string) (opts : options) : request_body :=
  {| b_query := trim q;
     b_documentId := documentId opts;
     b_limit := or_default (limit opts) 10%nat;
     b_ftsWeight := or_default (ftsWeight opts) (Q2Qc (1 # 2));
     b_vectorWeight := or_default (vectorWeight opts) (Q2Qc (1 # 2));
     b_useSupabaseFunction := or_default (useSupabaseFunction opts) true |}.

Definition hybridSearch (server : api) (q : string) (opts : options) : outcome :=
  match server (request_of q opts) with
  | ApiRejected message => failure message
  | ApiResponse ok status json =>
      if negb ok then
        failure (or_string (j_error json) ("HTTP error! status: " ++ status))
      else if negb (j_success json) then
        failure (or_string (j_error json) "Search failed")
      else
        {| success := true; error := None; query := j_query json;
           results := j_results json; total := j_total json;
           method := j_method json |}
  end.

(** [weightedSearch] up to its call of [hybridSearch], over any arithmetic:
    [add] and [div] are [+] and [/], [positive x] is [x > 0] and [half] is
    the literal [0.5]. *)
Section Weighted.
Variable N : Type.
Variables add div : N -> N -> N.
Variable positive : N -> bool.
Variable half : N.

(** [{ ...options, ftsWeight: normalizedFTS, vectorWeight: normalizedVector }]. *)
Definition with_weights (opts : options_of N) (fts vector : N) : options_of N :=
  {| documentId := documentId opts; limit := limit opts;
     ftsWeight := Some fts; vectorWeight := Some vector;
     useSupabaseFunction := useSupabaseFunction opts;
     fallbackToFTSOnly := fallbackToFTSOnly opts |}.

(** The arguments [weightedSearch] passes to [hybridSearch]. *)
Definition weightedSearch_call_in (q : string) (ftsW vectorW : N)
    (opts : options_of N) : string * options_of N :=
  let totalWeight := add ftsW vectorW in
  let normalizedFTS := if positive totalWeight then div ftsW totalWeight else half in
  let normalizedVector := if positive totalWeight then div vectorW totalWeight else half in
  (q, with_weights opts normalizedFTS normalizedVector).

End Weighted.

(** In exact arithmetic. *)
Definition weightedSearch_call (q : string) (ftsW vectorW : num) (opts : options)
    : string * options :=
  weightedSearch_call_in Qcplus Qcdiv (ltb 0) (Q2Qc (1 # 2)) q ftsW vectorW opts.

(** On IEEE binary64, the numbers JavaScript computes with. *)
Definition weightedSearch_call_binary64 (q : string) (ftsW vectorW : float)
    (opts : options_of float) : string * options_of float :=
  weightedSearch_call_in PrimFloat.add PrimFloat.div (PrimFloat.ltb 0%float)
    0.5%float q ftsW vectorW opts.

Definition weightedSearch (server : api) (q : string) (ftsW vectorW : num)
    (opts : options) : outcome :=
  let '(q', opts') := weightedSearch_call q ftsW vectorW opts in
  hybridSearch server q' opts'.

Definition keywordSearch (server : api) (q : string) (opts : options) : outcome :=
  weightedSearch server q (Q2Qc (8 # 10)) (Q2Qc (2 # 10)) opts.

Definition semanticSearch (server : api) (q : string) (opts : options) : outcome :=
  weightedSearch server q (Q2Qc (2 # 10)) (Q2Qc (8 # 10)) opts.

(** Display records of [formatSearchResults]. *)
Record formatted : Type := {
  f_id : ident;
  f_documentId : ident;
  f_text : string;
  f_score : num;
  f_ftsScore : num;
  f_vectorScore : num;
  f_preview : string
}.

Definition formatSearchResult (r : result) : formatted :=
  {| f_id := id r; f_documentId := document_id r; f_text := chunk r;
     f_score := or_num (Some (hybrid_score r)) (or_num (similarity r) 0);
     f_ftsScore := or_num (Some (fts_score r)) 0;
     f_vectorScore := or_num (Some (vector_score r)) (or_num (similarity r) 0);
     f_preview := if (200 <? String.length (chunk r))%nat
                  then (substring 0 200 (chunk r) ++ "...")%string
                  else chunk r |}.

Definition formatSearchResults (rs : list result) : list formatted :=
  List.map formatSearchResult rs.

End Lib.

(* ------------------------------------------------------------------ *)
(** ** The search hook ([useHybridSearch]) *)

Module Hook.
Import JS.
Import Vite.
Import Lib.

(** The hook's options, after their defaults. *)
Record config : Type := {
  debounceMs : nat;
  defaultLimit : nat;
  defaultFtsWeight : num;
  defaultVectorWeight : num
}.

Definition default_config : config :=
  {| debounceMs := 300; defaultLimit := 10;
     defaultFtsWeight := Q2Qc (1 # 2); defaultVectorWeight := Q2Qc (1 # 2) |}.

Record stats : Type := {
  st_total : nat;
  st_method : option string;
  st_duration : nat
}.

Definition no_stats : stats := {| st_total := 0; st_method := None; st_duration := 0 |}.

(** A [performSearch] call suspended at [await hybridSearch(...)]: what its
    continuation closes over. The abort controller is not among it, the
    continuation reads the shared ref. *)
Record attempt : Type := {
  a_query : string;
  a_params : options;
  a_startTime : nat
}.

(** A timeout set by [debouncedSearch] and not yet fired or cleared. *)
Record timeout : Type := {
  t_due : nat;
  t_query : string;
  t_options : options
}.

(** React state, the two refs, the abort controllers allocated so far (their
    [signal.aborted] flags), the suspended calls, and the clock. [executed]
    and [issued] record the [performSearch] and [hybridSearch] calls made. *)
Record hook : Type := {
  isSearching : bool;
  searchResults : list formatted;
  searchQuery : string;
  searchError : option string;
  searchStats : stats;
  debounceTimeoutRef : option timeout;
  searchAbortControllerRef : option nat;
  controllers : list bool;
  suspended : list attempt;
  now : nat;
  executed : list (string * options);
  issued : list (string * options)
}.

Definition initial : hook :=
  {| isSearching := false; searchResults := []; searchQuery := EmptyString;
     searchError := None; searchStats := no_stats;
     debounceTimeoutRef := None; searchAbortControllerRef := None;
     controllers := []; suspended := []; now := 0; executed := []; issued := [] |}.

(** [controller.abort()]. *)
Fixpoint abort (c : nat) (cs : list bool) : list bool :=
  match cs, c with
  | [], _ => []
  | _ :: cs', O => true :: cs'
  | b :: cs', S c' => b :: abort c' cs'
  end.

Definition abort_current (h : hook) : list bool :=
  match searchAbortControllerRef h with
  | Some c => abort c (controllers h)
  | None => controllers h
  end.

(** [{ limit, ftsWeight, vectorWeight, ...searchOptions }]. *)
Definition searchParams (cfg : config) (searchOptions : options) : options :=
  {| documentId := documentId searchOptions;
     limit := Some (or_default (limit searchOptions) (defaultLimit cfg));
     ftsWeight := Some (or_default (ftsWeight searchOptions) (defaultFtsWeight cfg));
     vectorWeight := Some (or_default (vectorWeight searchOptions) (defaultVectorWeight cfg));
     useSupabaseFunction := useSupabaseFunction searchOptions;
     fallbackToFTSOnly := fallbackToFTSOnly searchOptions |}.

(** [performSearch] up to its [await]. *)
Definition performSearch (cfg : config) (q : string) (searchOptions : options)
    (h : hook) : hook :=
  if (String.length (trim q) =? 0)%nat then
    {| isSearching := isSearching h; searchResults := []; searchQuery := searchQuery h;
       searchError := searchError h; searchStats := no_stats;
       debounceTimeoutRef := debounceTimeoutRef h;
       searchAbortControllerRef := searchAbortControllerRef h;
       controllers := controllers h; suspended := suspended h; now := now h;
       executed := executed h ++ [(q, searchOptions)]; issued := issued h |}
  else
    let aborted := abort_current h in
    {| isSearching := true; searchResults := searchResults h;
       searchQuery := searchQuery h; searchError := None;
       searchStats := searchStats h;
       debounceTimeoutRef := debounceTimeoutRef h;
       searchAbortControllerRef := Some (List.length aborted);
       controllers := aborted ++ [false];
       suspended := suspended h ++
                    [{| a_query := q; a_params := searchParams cfg searchOptions;
                        a_startTime := now h |}];
       now := now h;
       executed := executed h ++ [(q, searchOptions)];
       issued := issued h ++ [(q, searchParams cfg searchOptions)] |}.

(** [searchAbortControllerRef.current?.signal.aborted]. *)
Definition current_aborted (h : hook) : bool :=
  match searchAbortControllerRef h with
  | Some c => nth c (controllers h) false
  | None => false
  end.

(** [performSearch] from the point where [hybridSearch] resolved with
    [res], the [finally] block included. *)
Definition resume (a : attempt) (res : outcome) (h : hook) : hook :=
  let published :=
    if current_aborted h then
      (searchResults h, searchQuery h, searchError h, searchStats h)
    else if success res then
      (formatSearchResults (results res), a_query a, searchError h,
       {| st_total := total res; st_method := method res;
          st_duration := now h - a_startTime a |})
    else
      ([], searchQuery h, Some (or_string (error res) "Search failed"), no_stats) in
  let '(res', q', err', st') := published in
  {| isSearching := false; searchResults := res'; searchQuery := q';
     searchError := err'; searchStats := st';
     debounceTimeoutRef := debounceTimeoutRef h;
     searchAbortControllerRef := None;
     controllers := controllers h; suspended := suspended h; now := now h;
     executed := executed h; issued := issued h |}.

Fixpoint remove_nth {A} (i : nat) (l : list A) : list A :=
  match l, i with
  | [], _ => []
  | _ :: l', O => l'
  | x :: l', S i' => x :: remove_nth i' l'
  end.

Definition set_timeout (t : option timeout) (h : hook) : hook :=
  {| isSearching := isSearching h; searchResults := searchResults h;
     searchQuery := searchQuery h; searchError := searchError h;
     searchStats := searchStats h;
     debounceTimeoutRef := t;
     searchAbortControllerRef := searchAbortControllerRef h;
     controllers := controllers h; suspended := suspended h; now := now h;
     executed := executed h; issued := issued h |}.

Definition set_now (t : nat) (h : hook) : hook :=
  {| isSearching := isSearching h; searchResults := searchResults h;
     searchQuery := searchQuery h; searchError := searchError h;
     searchStats := searchStats h;
     debounceTimeoutRef := debounceTimeoutRef h;
     searchAbortControllerRef := searchAbortControllerRef h;
     controllers := controllers h; suspended := suspended h; now := t;
     executed := executed h; issued := issued h |}.

(** [debouncedSearch], exported as [search]. *)
Definition debouncedSearch (cfg : config) (q : string) (searchOptions : options)
    (h : hook) : hook :=
  set_timeout
    (Some {| t_due := now h + debounceMs cfg; t_query := q; t_options := searchOptions |})
    h.

Definition searchNow (cfg : config) (q : string) (searchOptions : options)
    (h : hook) : hook :=
  performSearch cfg q searchOptions (set_timeout None h).

Definition searchKeywords (cfg : config) (q : string) (searchOptions : options)
    (h : hook) : hook :=
  searchNow cfg q
    (with_weights searchOptions (Q2Qc (8 # 10)) (Q2Qc (2 # 10))) h.

Definition searchSemantic (cfg : config) (q : string) (searchOptions : options)
    (h : hook) : hook :=
  searchNow cfg q
    (with_weights searchOptions (Q2Qc (2 # 10)) (Q2Qc (8 # 10))) h.

Definition clearSearch (h : hook) : hook :=
  {| isSearching := false; searchResults := []; searchQuery := EmptyString;
     searchError := None; searchStats := no_stats;
     debounceTimeoutRef := None;
     searchAbortControllerRef := searchAbortControllerRef h;
     controllers := abort_current h; suspended := suspended h; now := now h;
     executed := executed h; issued := issued h |}.

(** [cleanup]: aborts and clears the timeout, publishes nothing. *)
Definition cleanup (h : hook) : hook :=
  {| isSearching := isSearching h; searchResults := searchResults h;
     searchQuery := searchQuery h; searchError := searchError h;
     searchStats := searchStats h;
     debounceTimeoutRef := None;
     searchAbortControllerRef := searchAbortControllerRef h;
     controllers := abort_current h; suspended := suspended h; now := now h;
     executed := executed h; issued := issued h |}.

(** [searchDocument] and [searchGlobal]; in [limit || 5] a limit of 0 is
    falsy. *)
Definition searchDocument (cfg : config) (q : string) (doc : ident)
    (searchOptions : options) (h : hook) : hook :=
  searchNow cfg q
    {| documentId := Some doc;
       limit := Some match limit searchOptions with
                     | Some (S n) => S n
                     | _ => 5%nat
                     end;
       ftsWeight := ftsWeight searchOptions;
       vectorWeight := vectorWeight searchOptions;
       useSupabaseFunction := useSupabaseFunction searchOptions;
       fallbackToFTSOnly := fallbackToFTSOnly searchOptions |} h.

Definition searchGlobal (cfg : config) (q : string) (searchOptions : options)
    (h : hook) : hook :=
  searchNow cfg q
    {| documentId := None; limit := limit searchOptions;
       ftsWeight := ftsWeight searchOptions;
       vectorWeight := vectorWeight searchOptions;
       useSupabaseFunction := useSupabaseFunction searchOptions;
       fallbackToFTSOnly := fallbackToFTSOnly searchOptions |} h.

(** Time passes: the clock advances by [ms], and a timeout that falls due
    on the way runs its callback at its due time. *)
Definition elapse (cfg : config) (ms : nat) (h : hook) : hook :=
  match debounceTimeoutRef h with
  | Some t =>
      if (t_due t <=? now h + ms)%nat then
        set_now (now h + ms)
          (performSearch cfg (t_query t) (t_options t)
             (set_now (Nat.max (now h) (t_due t)) (set_timeout None h)))
      else set_now (now h + ms) h
  | None => set_now (now h + ms) h
  end.

(** What can happen to the hook, one event-loop turn at a time. *)
Inductive event : Type :=
| Submit (q : string) (searchOptions : options)
| SubmitNow (q : string) (searchOptions : options)
| Clear
| Cleanup
| Elapse (ms : nat)
| Resolve (i : nat) (res : outcome).

Definition step (cfg : config) (h : hook) (ev : event) : hook :=
  match ev with
  | Submit q o => debouncedSearch cfg q o h
  | SubmitNow q o => searchNow cfg q o h
  | Clear => clearSearch h
  | Cleanup => cleanup h
  | Elapse ms => elapse cfg ms h
  | Resolve i res =>
      match nth_error (suspended h) i with
      | Some a =>
          resume a res
            {| isSearching := isSearching h; searchResults := searchResults h;
               searchQuery := searchQuery h; searchError := searchError h;
               searchStats := searchStats h;
               debounceTimeoutRef := debounceTimeoutRef h;
               searchAbortControllerRef := searchAbortControllerRef h;
               controllers := controllers h;
               suspended := remove_nth i (suspended h); now := now h;
               executed := executed h; issued := issued h |}
      | None => h
      end
  end.

Definition run (cfg : config) (h : hook) (evs : list event) : hook :=
  fold_left (step cfg) evs h.

End Hook.

(* ------------------------------------------------------------------ *)
(** ** Vocabulary of the statements *)

Module Spec.
Import JS.
Import Vite.
Local Open Scope Qc_scope.

(** [m] stands at 0-based position [r] of [l] and no later row has its id. *)
Definition last_with_id (l : list row) (r : nat) (m : row) : Prop :=
  nth_error l r = Some m /\
  forall r' m', (r < r')%nat -> nth_error l r' = Some m' -> r_id m' <> r_id m.

(** The last row of [l] with id [i], and its position counted from [index]. *)
Fixpoint last_fts (i : ident) (index : nat) (l : list row) : option (nat * row) :=
  match l with
  | [] => None
  | r :: rest =>
      match last_fts i (S index) rest with
      | Some found => Some found
      | None => if ident_eqb i (r_id r) then Some (index, r) else None
      end
  end.

Definition last_vec (i : ident) (l : list row) : option row :=
  option_map snd (last_fts i 0 l).

(** The rows a store reply amounts to: an error counts as no rows. *)
Definition rows_of {A} (r : reply A) : list A :=
  match r with Data rows => rows | _ => [] end.

(** What the three executors hand back for a search with options [o]. *)
Definition lexical_rows (e : env) (q : string) (o : options) (lim : nat) : list row :=
  rows_of (embeddings_table e q (scope_of (documentId o)) lim).

Definition document_rows (e : env) (q : string) (o : options) (lim : nat) : list row :=
  List.map document_row
    (List.filter (document_matches q)
       (rows_of (documents_table e (scope_of (documentId o)) lim))).

Definition vector_rows (e : env) (v : embedding_value) (o : options) (lim : nat) : list row :=
  rows_of (match_chunks e v (scope_of (documentId o)) lim).

(** In a run with request log [log]: the lexical executor was asked and
    returned at least one row; it was asked and returned none; the vector
    executor was asked and returned at least one row; the document
    fallback was asked. *)
Definition lexical_found (e : env) (log : list call) : Prop :=
  exists q s l, In (CallFTS q s l) log /\ rows_of (embeddings_table e q s l) <> [].

Definition lexical_empty (e : env) (log : list call) : Prop :=
  exists q s l, In (CallFTS q s l) log /\ rows_of (embeddings_table e q s l) = [].

Definition vector_found (e : env) (log : list call) : Prop :=
  exists v s l, In (CallVector v s l) log /\ rows_of (match_chunks e v s l) <> [].

Definition documents_invoked (log : list call) : Prop :=
  exists s l, In (CallDocuments s l) log.


(** Outcomes, by shape. *)
Definition found_outcome (q m : string) (rs : list result) : outcome :=
  {| success := true; error := None; query := q; results := rs;
     total := List.length rs; method := Some m |}.

Definition error_outcome (q message : string) : outcome :=
  {| success := false; error := Some message; query := q; results := [];
     total := 0; method := None |}.

Definition fallback_outcome (q : string) (found : list row) : outcome :=
  found_outcome q
    (if (0 <? List.length found)%nat then "document_search_fallback"
     else "no_results_found")
    (format_fallback (List.length found) 0 found).

Definition hybrid_function_name (o : options) : string :=
  match scope_of (documentId o) with
  | Some _ => "hybrid_search_document"
  | None => "simple_hybrid_search"
  end.

(** [hybridSearch] path by path, without the plumbing: the outcome and the
    requests, given what the collaborators answer. *)
Definition cascade (e : env) (q : string) (o : options) : outcome * list call :=
  let lim := or_default (limit o) 10%nat in
  let scope := scope_of (documentId o) in
  if (String.length (trim q) =? 0)%nat then
    (found_outcome EmptyString "empty_query" [], [])
  else
    match generateQueryEmbedding e q [] with
    | (Thrown message, log) =>
        if or_default (fallbackToFTSOnly o) true then
          if (List.length (lexical_rows e q o lim) =? 0)%nat then
            (fallback_outcome q (document_rows e q o lim),
             log ++ [CallFTS q scope lim; CallDocuments scope lim])
          else
            (fallback_outcome q (lexical_rows e q o lim), log ++ [CallFTS q scope lim])
        else (error_outcome q message, log)
    | (Returned v, log) =>
        if or_default (useSupabaseFunction o) true then
          match hybrid_function e v q scope lim with
          | Failed _ =>
              (error_outcome q "Assignment to constant variable.",
               log ++ [CallHybridRpc (hybrid_function_name o) lim])
          | answer =>
              (found_outcome q "supabase_function"
                 (firstn lim (List.map hybrid_result (rows_of answer))),
               log ++ [CallHybridRpc (hybrid_function_name o) lim])
          end
        else
          let wl := or_default (ftsWeight o) (Q2Qc (1 # 2)) in
          let wv := or_default (vectorWeight o) (Q2Qc (1 # 2)) in
          if (List.length (lexical_rows e q o (lim * 2)) =? 0)%nat then
            (found_outcome q "javascript_merge"
               (firstn lim (mergeAndScore (document_rows e q o (lim * 2))
                              (vector_rows e v o (lim * 2)) wl wv)),
             log ++ [CallFTS q scope (lim * 2); CallDocuments scope (lim * 2);
                     CallVector v scope (lim * 2)])
          else
            (found_outcome q "javascript_merge"
               (firstn lim (mergeAndScore (lexical_rows e q o (lim * 2))
                              (vector_rows e v o (lim * 2)) wl wv)),
             log ++ [CallFTS q scope (lim * 2); CallVector v scope (lim * 2)])
    end.

(** A world whose collaborators answer every request the same way. *)
Definition world (key : option string) (embedding : fetch_result)
    (lexical : reply row) (documents : reply document) (vector : reply row)
    (hybrid : reply hybrid_row) : env :=
  {| OPENAI_API_KEY := key;
     embeddings_endpoint := fun _ => embedding;
     embeddings_table := fun _ _ _ => lexical;
     documents_table := fun _ _ => documents;
     match_chunks := fun _ _ _ => vector;
     hybrid_function := fun _ _ _ _ => hybrid |}.

Definition embedded : fetch_result :=
  FetchResponse true "OK" None (Field (Some [Q2Qc (1 # 10); Q2Qc (2 # 10)])).

Definition passage (i : Z) (text : string) (sim : option num) : row :=
  {| r_id := IdNum i; r_document_id := IdStr "doc"; r_chunk := text;
     r_similarity := sim |}.

Definition titled (i title : string) : document :=
  {| doc_id := IdStr i; doc_title := title; doc_content := BodyNull |}.

Definition only_merge : options :=
  {| documentId := None; limit := None; ftsWeight := None; vectorWeight := None;
     useSupabaseFunction := Some false; fallbackToFTSOnly := None |}.

Definition no_fallback : options :=
  {| documentId := None; limit := None; ftsWeight := None; vectorWeight := None;
     useSupabaseFunction := None; fallbackToFTSOnly := Some false |}.

(** No option set, for a search over binary64 weights. *)
Definition no_options_binary64 : options_of float :=
  {| documentId := None; limit := None; ftsWeight := None; vectorWeight := None;
     useSupabaseFunction := None; fallbackToFTSOnly := None |}.



(** Descending order of hybrid scores. *)
Definition hybrid_desc (a b : result) : Prop := hybrid_score b <= hybrid_score a.

(** Scenario A: one lexical match, two vector matches, weights 0.5 and 0.5. *)
Definition scenarioA_lexical : list row :=
  [ {| r_id := IdNum 1; r_document_id := IdStr "doc"; r_chunk := "AI is...";
       r_similarity := None |} ].

Definition scenarioA_vector : list row :=
  [ {| r_id := IdNum 1; r_document_id := IdStr "doc"; r_chunk := "AI is...";
       r_similarity := Some (Q2Qc (9 # 10)) |};
    {| r_id := IdNum 2; r_document_id := IdStr "doc"; r_chunk := "Machine learning";
       r_similarity := Some (Q2Qc (6 # 10)) |} ].

End Spec.

(* ------------------------------------------------------------------ *)
(** ** Vocabulary of the statements about the hook *)

Module HookSpec.
Import JS.
Import Vite.
Import Lib.
Import Hook.

(** A burst of [search] calls: the first one, then each further call after
    a gap in milliseconds. *)
Definition burst (first : string * options) (rest : list (nat * (string * options)))
    : list event :=
  Submit (fst first) (snd first)
    :: flat_map (fun c => [Elapse (fst c); Submit (fst (snd c)) (snd (snd c))]) rest.

Definition last_call (first : string * options) (rest : list (nat * (string * options)))
    : string * options :=
  last (List.map snd rest) first.

(** What the server answers to searches A and B. *)
Definition answer (q text : string) (i : Z) : outcome :=
  {| success := true; error := None; query := q;
     results := [ {| id := IdNum i; document_id := IdStr "doc"; chunk := text;
                     similarity := None; fts_score := Q2Qc 1; vector_score := Q2Qc 0;
                     hybrid_score := Q2Qc (1 # 2) |} ];
     total := 1; method := Some "javascript_merge"%string |}.

End HookSpec.

(* ------------------------------------------------------------------ *)
(** ** Vocabulary of the further statements *)

Module MoreSpec.
Import JS.
Import Vite.
Local Open Scope Qc_scope.

(** The results whose hybrid score is [s]. *)
Definition scored (s : num) (e : result) : bool :=
  match hybrid_score e ?= s with Eq => true | _ => false end.

(** The ids of a list at their first occurrence, in order: the order in
    which a [Map] first sees them. *)
Definition add_key (ks : list ident) (k : ident) : list ident :=
  if existsb (ident_eqb k) ks then ks else ks ++ [k].

Definition first_seen (l : list ident) : list ident := fold_left add_key l [].

(** Descending order of similarity, as the similarity functions return
    their rows. *)
Definition similarity_desc (a b : row) : Prop :=
  or_num (r_similarity b) 0 <= or_num (r_similarity a) 0.

End MoreSpec.

(* ------------------------------------------------------------------ *)
(** ** The wrappers of the Vite library *)

Module Wrappers.
Import JS.
Import Vite.
Local Open Scope Qc_scope.

(** [options.limit || d]: an absent limit and a limit of 0 are falsy. *)
Definition limit_or (l : option nat) (d : nat) : nat :=
  match l with
  | Some (S n) => S n
  | _ => d
  end.

(** [{ ...options, documentId, limit: options.limit || 5 }]. *)
Definition searchDocument (e : env) (q : string) (doc : option ident)
    (opts : options) : outcome * list call :=
  hybridSearch e q
    {| documentId := doc; limit := Some (limit_or (limit opts) 5);
       ftsWeight := ftsWeight opts; vectorWeight := vectorWeight opts;
       useSupabaseFunction := useSupabaseFunction opts;
       fallbackToFTSOnly := fallbackToFTSOnly opts |}.

(** [{ ...options, documentId: null, limit: options.limit || 10 }]. *)
Definition globalSearch (e : env) (q : string) (opts : options) : outcome * list call :=
  hybridSearch e q
    {| documentId := None; limit := Some (limit_or (limit opts) 10);
       ftsWeight := ftsWeight opts; vectorWeight := vectorWeight opts;
       useSupabaseFunction := useSupabaseFunction opts;
       fallbackToFTSOnly := fallbackToFTSOnly opts |}.

(** [{ ...options, ftsWeight: 0.8, vectorWeight: 0.2 }]. *)
Definition keywordSearch (e : env) (q : string) (opts : options) : outcome * list call :=
  hybridSearch e q
    {| documentId := documentId opts; limit := limit opts;
       ftsWeight := Some (Q2Qc (8 # 10)); vectorWeight := Some (Q2Qc (2 # 10));
       useSupabaseFunction := useSupabaseFunction opts;
       fallbackToFTSOnly := fallbackToFTSOnly opts |}.

(** [{ ...options, ftsWeight: 0.2, vectorWeight: 0.8 }]. *)
Definition semanticSearch (e : env) (q : string) (opts : options) : outcome * list call :=
  hybridSearch e q
    {| documentId := documentId opts; limit := limit opts;
       ftsWeight := Some (Q2Qc (2 # 10)); vectorWeight := Some (Q2Qc (8 # 10));
       useSupabaseFunction := useSupabaseFunction opts;
       fallbackToFTSOnly := fallbackToFTSOnly opts |}.

End Wrappers.

(* ------------------------------------------------------------------ *)
(** ** The API route ([api/hybrid-search.js]) *)

Module Api.
Import JS.
Import Vite.
Import Lib.
Local Open Scope Qc_scope.

(** The services behind the route: the OpenAI client, the full-text query
    on [embeddings], and the two kinds of [supabase.rpc].
    [embeddings_create] is what
    [(await openai.embeddings.create(..)).data[0].embedding] does: it
    throws (the client rejects, or [data] is empty) or evaluates to the
    field of the first item. The rows of the SQL hybrid functions are
    handed on untouched; they are given the shape of the result objects. *)
Record services : Type := {
  embeddings_create : string -> completion embedding_value;
  textSearch : string -> nat -> reply row;
  rpc_match_chunks : embedding_value -> nat -> reply row;
  rpc_hybrid : string -> embedding_value -> string -> option ident -> nat -> reply result
}.

(** Whatever the client throws, the message is replaced. *)
Definition generateQueryEmbedding (s : services) (query : string) : M embedding_value :=
  try_catch
    (request (CallEmbedding (trim query)) ;;;
     match embeddings_create s (trim query) with
     | Returned v => ret v
     | Thrown message => throw message
     end)
    (fun _ => throw "Failed to generate query embedding"%string).

(** The route's executors take no document: the stores are asked without
    scope. *)
Definition performFTSSearch (s : services) (queryText : string) (lim : nat)
    : M (list row) :=
  try_catch
    (request (CallFTS queryText None lim) ;;; unwrap (textSearch s queryText lim))
    (fun _ => ret []).

Definition performVectorSearch (s : services) (queryEmbedding : embedding_value) (lim : nat)
    : M (list row) :=
  try_catch
    (request (CallVector queryEmbedding None lim) ;;;
     unwrap (rpc_match_chunks s queryEmbedding lim))
    (fun _ => ret []).

(** The fields of [req.body]. A [query] that is not a string (absent,
    [null], a number, ...) is [None]; an absent field of the others is
    [None] and takes the default of the destructuring pattern. *)
Record body : Type := {
  req_query : option string;
  req_documentId : option ident;
  req_limit : option nat;
  req_ftsWeight : option num;
  req_vectorWeight : option num;
  req_useSupabaseFunction : option bool
}.

(** [req.body]: an object with the fields above (any other value that can
    be destructured has none of them), [null], or [undefined]. *)
Inductive body_value : Type :=
| Parsed (fields : body)
| NullBody
| UndefinedBody.

Record http_request : Type := {
  req_method : string;
  req_body : body_value
}.

(** The JSON of a response: [{ error, message }] or the search outcome. *)
Inductive payload : Type :=
| ErrorBody (error : string) (message : option string)
| SearchBody (query : string) (results : list result) (total : nat) (method : string).

Record response : Type := {
  status : nat;
  json : payload
}.

(** [ftsResults.filter(r => r.document_id === documentId)], when
    [documentId] is truthy. *)
Definition of_document (documentId : option ident) (rows : list row) : list row :=
  match scope_of documentId with
  | Some d => List.filter (fun r => ident_eqb (r_document_id r) d) rows
  | None => rows
  end.

(** The body of the handler's [try]. *)
Definition handler_try (s : services) (b : body) : M response :=
  let documentId := req_documentId b in
  let lim := or_default (req_limit b) 10%nat in
  let ftsWeight := or_default (req_ftsWeight b) (Q2Qc (1 # 2)) in
  let vectorWeight := or_default (req_vectorWeight b) (Q2Qc (1 # 2)) in
  let useSupabaseFunction := or_default (req_useSupabaseFunction b) false in
  match req_query b with
  | None =>
      ret {| status := 400;
             json := ErrorBody "Query is required and must be a non-empty string" None |}
  | Some query =>
      if (String.length (trim query) =? 0)%nat then
        ret {| status := 400;
               json := ErrorBody "Query is required and must be a non-empty string" None |}
      else if (1000 <? String.length query)%nat then
        ret {| status := 400;
               json := ErrorBody "Query must be less than 1000 characters" None |}
      else
        queryEmbedding <- generateQueryEmbedding s query ;;
        results <-
          (if useSupabaseFunction then
             let functionName :=
               match scope_of documentId with
               | Some _ => "hybrid_search_document"%string
               | None => "simple_hybrid_search"%string
               end in
             request (CallHybridRpc functionName lim) ;;;
             unwrap (rpc_hybrid s functionName queryEmbedding query
                       (scope_of documentId) lim)
           else
             ftsResults <- performFTSSearch s query (lim * 2) ;;
             vectorResults <- performVectorSearch s queryEmbedding (lim * 2) ;;
             let filteredFTS := of_document documentId ftsResults in
             let filteredVector := of_document documentId vectorResults in
             let mergedResults :=
               mergeAndScore filteredFTS filteredVector ftsWeight vectorWeight in
             ret (firstn lim mergedResults)) ;;
        ret {| status := 200;
               json := SearchBody query results (List.length results)
                         (if useSupabaseFunction then "sql_function"
                          else "javascript_merge") |}
  end.

(** The destructuring [const { query, ... } = req.body], the first
    statement of the [try]: it throws a [TypeError] when there is no body. *)
Definition destructure (b : body_value) : M body :=
  match b with
  | Parsed fields => ret fields
  | NullBody =>
      throw "Cannot destructure property 'query' of 'req.body' as it is null."%string
  | UndefinedBody =>
      throw "Cannot destructure property 'query' of 'req.body' as it is undefined."%string
  end.

(** The handler: the response it sends and the requests it issued. *)
Definition handler (s : services) (req : http_request) : response * list call :=
  if negb (String.eqb (req_method req) "POST") then
    ({| status := 405; json := ErrorBody "Method not allowed" None |}, [])
  else
    match (fields <- destructure (req_body req) ;; handler_try s fields) [] with
    | (Returned r, log) => (r, log)
    | (Thrown message, log) =>
        ({| status := 500; json := ErrorBody "Internal server error" (Some message) |},
         log)
    end.

(** *** The library in front of the route

    [fetch('/api/hybrid-search', { method: 'POST', body: JSON.stringify(..) })]
    followed by [response.json()]. *)
Definition post (b : request_body) : http_request :=
  {| req_method := "POST";
     req_body := Parsed {| req_query := Some (b_query b);
                         req_documentId := b_documentId b;
                         req_limit := Some (b_limit b);
                         req_ftsWeight := Some (b_ftsWeight b);
                         req_vectorWeight := Some (b_vectorWeight b);
                         req_useSupabaseFunction := Some (b_useSupabaseFunction b) |} |}.

Definition status_text (n : nat) : string :=
  DecimalString.NilEmpty.string_of_uint (Nat.to_uint n).

(** What the library reads of a response body: fields the body lacks are
    [undefined]. *)
Definition json_of (p : payload) : response_json :=
  match p with
  | ErrorBody error _ =>
      {| j_success := false; j_error := Some error; j_query := EmptyString;
         j_results := []; j_total := 0; j_method := None |}
  | SearchBody query results total method =>
      {| j_success := true; j_error := None; j_query := query;
         j_results := results; j_total := total; j_method := Some method |}
  end.

(** [response.ok]: a status in the range 200-299. *)
Definition fetch_route (s : services) : api :=
  fun b =>
    let r := fst (handler s (post b)) in
    ApiResponse ((200 <=? status r)%nat && (status r <=? 299)%nat)
      (status_text (status r)) (json_of (json r)).

End Api.

(* ------------------------------------------------------------------ *)
(** ** Vocabulary of the further statements *)

Module DocSpec.
Import JS.
Import Vite.

(** [t] is the text of a text node of the tree, at any depth the
    extraction reaches. *)
Inductive has_text (t : string) : node -> Prop :=
| text_here type content :
    String.eqb type "text" = true -> has_text t (Node type t content)
| text_below type text content child :
    String.eqb type "text" = false -> In child content -> has_text t child ->
    has_text t (Node type text content).

(** [s] contains [q], letter case apart. *)
Definition contains (s q : string) : Prop :=
  includes (toLowerCase s) (toLowerCase q) = true.

(** The document shows the query in its title, in its string body, in the
    original content of an uploaded file, or in one text node of its
    Tiptap body. *)
Definition mentions (q : string) (doc : document) : Prop :=
  contains (doc_title doc) q \/
  match doc_content doc with
  | BodyNull => False
  | BodyString s => contains s q
  | BodyObject type original_content content =>
      match original_content with
      | Some oc =>
          if (String.eqb type "uploaded_file" && nonempty oc)%bool then contains oc q
          else exists child t, In child content /\ has_text t child /\ contains t q
      | None => exists child t, In child content /\ has_text t child /\ contains t q
      end
  end.

End DocSpec.

Module CallSpec.
Import JS.
Import Vite.

(** The request is made for scope [s] and asks for at most [n] rows. *)
Definition within (s : option ident) (n : nat) (c : call) : Prop :=
  match c with
  | CallEmbedding _ => True
  | CallFTS _ s' lim => s' = s /\ (lim <= n)%nat
  | CallDocuments s' lim => s' = s /\ (lim <= n)%nat
  | CallVector _ s' lim => s' = s /\ (lim <= n)%nat
  | CallHybridRpc name lim =>
      name = match s with
             | Some _ => "hybrid_search_document"%string
             | None => "simple_hybrid_search"%string
             end /\ (lim <= n)%nat
  end.

End CallSpec.

Module ApiSpec.
Import JS.
Import Vite.

(** Services that answer every request the same way. *)
Definition backend (embedding : completion embedding_value) (lexical vector : reply row)
    (sql : reply result) : Api.services :=
  {| Api.embeddings_create := fun _ => embedding;
     Api.textSearch := fun _ _ => lexical;
     Api.rpc_match_chunks := fun _ _ => vector;
     Api.rpc_hybrid := fun _ _ _ _ _ => sql |}.

(** A POST of [{ query, documentId, useSupabaseFunction }]. *)
Definition search_request (q : string) (doc : option ident)
    (sql : option bool) : Api.http_request :=
  {| Api.req_method := "POST";
     Api.req_body := Api.Parsed {| Api.req_query := Some q; Api.req_documentId := doc;
                             Api.req_limit := None; Api.req_ftsWeight := None;
                             Api.req_vectorWeight := None;
                             Api.req_useSupabaseFunction := sql |} |}.

(** A chunk of document [doc]. *)
Definition chunk_of (i : Z) (doc text : string) (sim : option num) : row :=
  {| r_id := IdNum i; r_document_id := IdStr doc; r_chunk := text;
     r_similarity := sim |}.

End ApiSpec.

(* ------------------------------------------------------------------ *)
(** ** The search page ([SearchPage]) *)

Module Page.
Import JS.
Import Vite.

Record stats : Type := {
  s_total : nat;
  s_method : option string;
  s_duration : nat;
  s_mode : string
}.

(** The state of the page a search reads and writes; [p_selectedDocument]
    is [selectedDocument?.id]. *)
Record page : Type := {
  p_selectedDocument : option ident;
  p_query : string;
  p_results : list result;
  p_isSearching : bool;
  p_error : string;
  p_searchStats : option stats;
  p_searchMode : string
}.

(** [{ limit: 10, documentId: selectedDocument?.id || null }]. *)
Definition searchOptions (p : page) : options :=
  {| documentId := scope_of (p_selectedDocument p); limit := Some 10%nat;
     ftsWeight := None; vectorWeight := None;
     useSupabaseFunction := None; fallbackToFTSOnly := None |}.

(** [handleSearch(searchFunction, mode)] from the click to the state after
    the search resolved, [duration] ms later, no other event in between:
    the state, and the requests the search made. *)
Definition handleSearch
    (searchFunction : env -> string -> options -> outcome * list call)
    (mode : string) (e : env) (duration : nat) (p : page) : page * list call :=
  if (String.length (trim (p_query p)) =? 0)%nat then (p, [])
  else
    let (result, log) := searchFunction e (p_query p) (searchOptions p) in
    (if success result then
       {| p_selectedDocument := p_selectedDocument p; p_query := p_query p;
          p_results := results result; p_isSearching := false;
          p_error := EmptyString;
          p_searchStats := Some {| s_total := total result; s_method := method result;
                                   s_duration := duration; s_mode := mode |};
          p_searchMode := p_searchMode p |}
     else
       {| p_selectedDocument := p_selectedDocument p; p_query := p_query p;
          p_results := []; p_isSearching := false;
          p_error := Lib.or_string (error result) "Search failed";
          p_searchStats := p_searchStats p;
          p_searchMode := p_searchMode p |},
     log).

(** The [switch (searchMode)] of [performSearch]. *)
Definition performSearch (e : env) (duration : nat) (p : page) : page * list call :=
  if String.eqb (p_searchMode p) "keyword" then
    handleSearch Wrappers.keywordSearch "keyword" e duration p
  else if String.eqb (p_searchMode p) "semantic" then
    handleSearch Wrappers.semanticSearch "semantic" e duration p
  else
    handleSearch hybridSearch "hybrid" e duration p.

(** [handleDocumentSelect(doc)]. *)
Definition handleDocumentSelect (doc : ident) (p : page) : page :=
  {| p_selectedDocument := Some doc; p_query := p_query p;
     p_results := []; p_isSearching := p_isSearching p;
     p_error := EmptyString; p_searchStats := None;
     p_searchMode := p_searchMode p |}.

(** The page with another search mode. *)
Definition in_mode (mode : string) (p : page) : page :=
  {| p_selectedDocument := p_selectedDocument p; p_query := p_query p;
     p_results := p_results p; p_isSearching := p_isSearching p;
     p_error := p_error p; p_searchStats := p_searchStats p;
     p_searchMode := mode |}.

End Page.

(* ------------------------------------------------------------------ *)
(** ** The auto-save hook ([useAutoSave]) *)

Module AutoSave.
Import JS.
Import Vite.

(** ['idle' | 'saving' | 'saved' | 'error']. *)
Inductive status : Type := StatusIdle | StatusSaving | StatusSaved | StatusError.

(** The hook's arguments: whether there is an editor, and the document. *)
Record props : Type := {
  as_editor : bool;
  as_documentId : option ident
}.

(** A pending timeout: when it falls due and its rank among the timeouts
    set so far (timeouts due at the same time fire in the order they were
    set). *)
Record timer : Type := {
  due : nat;
  seq : nat
}.

(** The status, the two timeout refs (a ref is [Some] while its timeout is
    pending), the saves awaiting the store's reply, the contents sent to
    the store so far, the clock, and whether the editor listener is
    attached. The content is the editor's JSON document. *)
Record saver : Type := {
  saveStatus : status;
  debounceTimeoutRef : option (timer * node);
  statusTimeoutRef : option timer;
  timers_set : nat;
  in_flight : list node;
  sent : list node;
  clock : nat;
  listening : bool
}.

(** [editor && documentId]. *)
Definition ready (p : props) : bool :=
  as_editor p && match scope_of (as_documentId p) with Some _ => true | None => false end.

(** After mount: the effect has attached the listener if it could. *)
Definition initial (p : props) : saver :=
  {| saveStatus := StatusIdle; debounceTimeoutRef := None; statusTimeoutRef := None;
     timers_set := 0; in_flight := []; sent := []; clock := 0; listening := ready p |}.

(** [saveToSupabase] up to its [await]. *)
Definition saveToSupabase (p : props) (content : node) (s : saver) : saver :=
  match scope_of (as_documentId p) with
  | None => s
  | Some _ =>
      {| saveStatus := StatusSaving;
         debounceTimeoutRef := debounceTimeoutRef s;
         statusTimeoutRef := statusTimeoutRef s;
         timers_set := timers_set s;
         in_flight := in_flight s ++ [content];
         sent := sent s ++ [content];
         clock := clock s; listening := listening s |}
  end.

(** [saveToSupabase] from the store's reply on: both branches set the
    status and replace the status timeout by one due in 2 seconds. *)
Definition settle (ok : bool) (s : saver) : saver :=
  {| saveStatus := if ok then StatusSaved else StatusError;
     debounceTimeoutRef := debounceTimeoutRef s;
     statusTimeoutRef := Some {| due := clock s + 2000; seq := timers_set s |};
     timers_set := S (timers_set s);
     in_flight := in_flight s; sent := sent s;
     clock := clock s; listening := listening s |}.

Definition set_debounce (t : option (timer * node)) (s : saver) : saver :=
  {| saveStatus := saveStatus s; debounceTimeoutRef := t;
     statusTimeoutRef := statusTimeoutRef s; timers_set := timers_set s;
     in_flight := in_flight s; sent := sent s;
     clock := clock s; listening := listening s |}.

Definition set_clock (t : nat) (s : saver) : saver :=
  {| saveStatus := saveStatus s; debounceTimeoutRef := debounceTimeoutRef s;
     statusTimeoutRef := statusTimeoutRef s; timers_set := timers_set s;
     in_flight := in_flight s; sent := sent s;
     clock := t; listening := listening s |}.

(** [debouncedSave]: the pending timeout is replaced by one due in 2
    seconds. *)
Definition debouncedSave (content : node) (s : saver) : saver :=
  {| saveStatus := saveStatus s;
     debounceTimeoutRef := Some ({| due := clock s + 2000; seq := timers_set s |}, content);
     statusTimeoutRef := statusTimeoutRef s;
     timers_set := S (timers_set s);
     in_flight := in_flight s; sent := sent s;
     clock := clock s; listening := listening s |}.

(** The editor emits [update] while its JSON is [content]. *)
Definition handleUpdate (content : node) (s : saver) : saver :=
  if listening s then debouncedSave content s else s.

(** [saveNow], the editor's JSON being [content]. *)
Definition saveNow (p : props) (content : node) (s : saver) : saver :=
  if ready p then saveToSupabase p content (set_debounce None s) else s.

(** The effect's cleanup. *)
Definition unmount (s : saver) : saver :=
  {| saveStatus := saveStatus s; debounceTimeoutRef := None;
     statusTimeoutRef := None; timers_set := timers_set s;
     in_flight := in_flight s; sent := sent s;
     clock := clock s; listening := false |}.

(** The debounce timeout fires: its callback saves the content it closed
    over. *)
Definition fire_debounce (p : props) (s : saver) : saver :=
  match debounceTimeoutRef s with
  | Some (_, content) => saveToSupabase p content (set_debounce None s)
  | None => s
  end.

(** The status timeout fires. *)
Definition fire_status (s : saver) : saver :=
  {| saveStatus := StatusIdle; debounceTimeoutRef := debounceTimeoutRef s;
     statusTimeoutRef := None; timers_set := timers_set s;
     in_flight := in_flight s; sent := sent s;
     clock := clock s; listening := listening s |}.

Definition falls_due (target : nat) (t : timer) : bool := (due t <=? target)%nat.

Definition before (a b : timer) : bool :=
  (due a <? due b)%nat || ((due a =? due b)%nat && (seq a <? seq b)%nat).

(** Time passes: the timeouts that fall due on the way fire, the earlier
    one first. *)
Definition elapse (p : props) (ms : nat) (s : saver) : saver :=
  let target := (clock s + ms)%nat in
  let fired :=
    match debounceTimeoutRef s, statusTimeoutRef s with
    | Some (d, _), Some t =>
        match falls_due target d, falls_due target t with
        | true, true =>
            if before d t then fire_status (fire_debounce p s)
            else fire_debounce p (fire_status s)
        | true, false => fire_debounce p s
        | false, true => fire_status s
        | false, false => s
        end
    | Some (d, _), None => if falls_due target d then fire_debounce p s else s
    | None, Some t => if falls_due target t then fire_status s else s
    | None, None => s
    end in
  set_clock target fired.

Inductive event : Type :=
| Update (content : node)
| SaveNow (content : node)
| Elapse (ms : nat)
| Reply (i : nat) (ok : bool)
| Unmount.

Definition step (p : props) (s : saver) (ev : event) : saver :=
  match ev with
  | Update content => handleUpdate content s
  | SaveNow content => saveNow p content s
  | Elapse ms => elapse p ms s
  | Reply i ok =>
      match nth_error (in_flight s) i with
      | Some _ =>
          settle ok
            {| saveStatus := saveStatus s; debounceTimeoutRef := debounceTimeoutRef s;
               statusTimeoutRef := statusTimeoutRef s; timers_set := timers_set s;
               in_flight := Hook.remove_nth i (in_flight s); sent := sent s;
               clock := clock s; listening := listening s |}
      | None => s
      end
  | Unmount => unmount s
  end.

Definition run (p : props) (s : saver) (evs : list event) : saver :=
  fold_left (step p) evs s.

(** A burst of editor updates: the first one, then each further update
    after a gap in milliseconds. *)
Definition burst (first : node) (rest : list (nat * node)) : list event :=
  Update first :: flat_map (fun c => [Elapse (fst c); Update (snd c)]) rest.

Definition last_content (first : node) (rest : list (nat * node)) : node :=
  last (List.map snd rest) first.

(** A document of one paragraph. *)
Definition draft (text : string) : node :=
  Node "doc" "" [Node "paragraph" "" [Node "text" text []]].

End AutoSave.

(* ------------------------------------------------------------------ *)
(** * Properties *)

(** ** Numbers, identifiers, maps and sorting *)

Module JSFacts.
Import JS.
Local Open Scope Qc_scope.

Lemma ident_eqb_eq (a b : ident) : ident_eqb a b = true <-> a = b.
Proof.
  destruct a as [x|x], b as [y|y]; simpl; split; intro H;
    try discriminate; try (inversion H; subst).
  - apply Z.eqb_eq in H. now subst.
  - apply Z.eqb_refl.
  - apply String.eqb_eq in H. now subst.
  - apply String.eqb_refl.
Qed.

Lemma ident_eqb_refl (a : ident) : ident_eqb a a = true.
Proof. now apply ident_eqb_eq. Qed.

Lemma ident_eqb_neq (a b : ident) : ident_eqb a b = false <-> a <> b.
Proof.
  split.
  - intros H E. apply ident_eqb_eq in E. congruence.
  - intro H. destruct (ident_eqb a b) eqn:E; [|reflexivity].
    apply ident_eqb_eq in E. contradiction.
Qed.

Lemma ident_eq_dec (a b : ident) : {a = b} + {a <> b}.
Proof.
  destruct (ident_eqb a b) eqn:E.
  - left. now apply ident_eqb_eq.
  - right. now apply ident_eqb_neq.
Qed.

Lemma ltb_lt (x y : num) : ltb x y = true <-> x < y.
Proof.
  unfold ltb. rewrite (Qclt_alt x y).
  destruct (x ?= y); split; congruence.
Qed.

Lemma ltb_ge (x y : num) : ltb x y = false <-> y <= x.
Proof.
  split; intro H.
  - apply Qcnot_lt_le. intro L. apply ltb_lt in L. congruence.
  - destruct (ltb x y) eqn:E; [|reflexivity].
    apply ltb_lt in E. apply Qcle_not_lt in H. contradiction.
Qed.

Lemma is_zero_eq (x : num) : is_zero x = true <-> x = 0.
Proof.
  unfold is_zero. rewrite (Qceq_alt x 0).
  destruct (x ?= 0); split; congruence.
Qed.

(** [similarity || 0] is the similarity when there is one. *)
Lemma or_num_some (s : num) : or_num (Some s) 0 = s.
Proof.
  unfold or_num. destruct (is_zero s) eqn:E; [|reflexivity].
  apply is_zero_eq in E. now subst.
Qed.

Section MapFacts.
Variable V : Type.
Implicit Types (m : jsmap V) (k i : ident).

Lemma map_has_keys k m : map_has k m = true <-> In k (map_keys m).
Proof.
  induction m as [|[k' v'] m IH]; simpl.
  - split; [discriminate | tauto].
  - destruct (ident_eqb k k') eqn:E.
    + apply ident_eqb_eq in E. subst. tauto.
    + apply ident_eqb_neq in E. rewrite IH. split; [tauto|].
      intros [H|H]; [congruence | assumption].
Qed.

Lemma map_has_get k m :
  map_has k m = match map_get k m with Some _ => true | None => false end.
Proof.
  induction m as [|[k' v'] m IH]; simpl; [reflexivity|].
  now destruct (ident_eqb k k').
Qed.

Lemma map_get_set i k v m :
  map_get i (map_set k v m) = if ident_eqb i k then Some v else map_get i m.
Proof.
  induction m as [|[k' v'] m IH]; simpl; [reflexivity|].
  destruct (ident_eqb k k') eqn:E; simpl.
  - apply ident_eqb_eq in E. subst. now destruct (ident_eqb i k').
  - rewrite IH. destruct (ident_eqb i k') eqn:E'; [|reflexivity].
    apply ident_eqb_eq in E'. subst.
    destruct (ident_eqb k' k) eqn:E''; [|reflexivity].
    apply ident_eqb_eq in E''. subst. rewrite ident_eqb_refl in E. discriminate.
Qed.

Lemma map_get_mutate i k f m :
  map_get i (map_mutate k f m)
  = if ident_eqb i k then option_map f (map_get i m) else map_get i m.
Proof.
  induction m as [|[k' v'] m IH]; simpl.
  - now destruct (ident_eqb i k).
  - destruct (ident_eqb k k') eqn:E; simpl.
    + apply ident_eqb_eq in E. subst. now destruct (ident_eqb i k').
    + rewrite IH. destruct (ident_eqb i k') eqn:E'; [|reflexivity].
      apply ident_eqb_eq in E'. subst.
      destruct (ident_eqb k' k) eqn:E''; [|reflexivity].
      apply ident_eqb_eq in E''. subst. rewrite ident_eqb_refl in E. discriminate.
Qed.

Lemma map_keys_set k v m :
  map_keys (map_set k v m) = if map_has k m then map_keys m else map_keys m ++ [k].
Proof.
  induction m as [|[k' v'] m IH]; simpl; [reflexivity|].
  destruct (ident_eqb k k') eqn:E; simpl; [reflexivity|].
  unfold map_keys in *. rewrite IH. now destruct (map_has k m).
Qed.

Lemma map_keys_mutate k f m : map_keys (map_mutate k f m) = map_keys m.
Proof.
  induction m as [|[k' v'] m IH]; simpl; [reflexivity|].
  destruct (ident_eqb k k'); simpl; [reflexivity|].
  unfold map_keys in *. now rewrite IH.
Qed.

Lemma map_get_In k v m : map_get k m = Some v -> In (k, v) m.
Proof.
  induction m as [|[k' v'] m IH]; simpl; [discriminate|].
  destruct (ident_eqb k k') eqn:E.
  - apply ident_eqb_eq in E. subst. intros [= ->]. now left.
  - intro H. right. now apply IH.
Qed.

Lemma In_map_get k v m : NoDup (map_keys m) -> In (k, v) m -> map_get k m = Some v.
Proof.
  induction m as [|[k' v'] m IH]; simpl; [tauto|].
  intros ND [H|H].
  - inversion H; subst. now rewrite ident_eqb_refl.
  - inversion ND as [|? ? Hnotin ND']; subst.
    destruct (ident_eqb k k') eqn:E.
    + apply ident_eqb_eq in E. subst. exfalso. apply Hnotin.
      change k' with (fst (k', v)). now apply in_map.
    + now apply IH.
Qed.

End MapFacts.

Section SortFacts.
Variable A : Type.
Variable cmp : A -> A -> num.

Lemma sort_insert_perm (x : A) (l : list A) : Permutation (sort_insert cmp x l) (x :: l).
Proof.
  induction l as [|y l IH]; simpl; [reflexivity|].
  destruct (ltb 0 (cmp x y)); [|reflexivity].
  rewrite IH. apply perm_swap.
Qed.

Lemma sort_perm (l : list A) : Permutation (sort cmp l) l.
Proof.
  induction l as [|x l IH]; simpl; [reflexivity|].
  rewrite sort_insert_perm. now constructor.
Qed.

End SortFacts.

End JSFacts.

(** ** Score fusion *)

Module FusionFacts.
Import JS.
Import Vite.
Import Spec.
Import JSFacts.
Local Open Scope Qc_scope.

Lemma last_fts_snoc i index l v :
  last_fts i index (l ++ [v])
  = if ident_eqb i (r_id v) then Some (index + List.length l, v)%nat
    else last_fts i index l.
Proof.
  revert index. induction l as [|x l IH]; intro index; simpl.
  - rewrite Nat.add_0_r. reflexivity.
  - rewrite IH. destruct (ident_eqb i (r_id v)).
    + f_equal. f_equal. lia.
    + reflexivity.
Qed.

Lemma last_fts_none i index l :
  last_fts i index l = None <-> ~ In i (List.map r_id l).
Proof.
  revert index. induction l as [|x l IH]; intro index; simpl.
  - tauto.
  - destruct (last_fts i (S index) l) eqn:E.
    + split; [discriminate|]. intro H. exfalso. apply H. right.
      destruct (in_dec ident_eq_dec i (List.map r_id l)) as [Hin|Hin]; [assumption|].
      apply (IH (S index)) in Hin. congruence.
    + apply IH in E. destruct (ident_eqb i (r_id x)) eqn:E'.
      * apply ident_eqb_eq in E'. split; [discriminate|]. intro H. exfalso. apply H. now left.
      * apply ident_eqb_neq in E'. split; [|reflexivity].
        intros _ [H|H]; [congruence | contradiction].
Qed.

Lemma last_fts_some i index l r m :
  last_fts i index l = Some (r, m) -> In m l /\ r_id m = i.
Proof.
  revert index. induction l as [|x l IH]; intro index; simpl; [discriminate|].
  destruct (last_fts i (S index) l) as [found|] eqn:E.
  - intros [= ->]. destruct (IH _ E). tauto.
  - destruct (ident_eqb i (r_id x)) eqn:E'; [|discriminate].
    intros [= <- <-]. apply ident_eqb_eq in E'. split; [now left | congruence].
Qed.

Lemma last_with_id_fts l r m index :
  last_with_id l r m -> last_fts (r_id m) index l = Some ((index + r)%nat, m).
Proof.
  revert r index. induction l as [|x l IH]; intros r index [Hnth Hlast].
  - destruct r; discriminate.
  - destruct r as [|r]; simpl in *.
    + injection Hnth as ->.
      assert (N : last_fts (r_id m) (S index) l = None).
      { apply last_fts_none. intro Hin. apply in_map_iff in Hin.
        destruct Hin as [m' [Hid Hin]]. apply In_nth_error in Hin.
        destruct Hin as [n Hn]. apply (Hlast (S n) m'); [lia | exact Hn | exact Hid]. }
      rewrite N, ident_eqb_refl, Nat.add_0_r. reflexivity.
    + rewrite (IH r (S index)).
      * f_equal. f_equal. lia.
      * split; [assumption|]. intros r' m' Hlt Hn.
        apply (Hlast (S r') m'); [lia | exact Hn].
Qed.

(** In a list without repeated ids every row is the last with its id. *)
Lemma last_with_id_NoDup l r m :
  NoDup (List.map r_id l) -> nth_error l r = Some m -> last_with_id l r m.
Proof.
  intros ND Hn. split; [exact Hn|]. intros r' m' Hlt Hn' Hid.
  assert (Hr : nth_error (List.map r_id l) r = Some (r_id m))
    by (now apply map_nth_error).
  assert (Hr' : nth_error (List.map r_id l) r' = Some (r_id m))
    by (rewrite <- Hid; now apply map_nth_error).
  assert (Hlen : (r < List.length (List.map r_id l))%nat)
    by (apply nth_error_Some; congruence).
  rewrite NoDup_nth_error in ND. specialize (ND r r' Hlen).
  rewrite Hr, Hr' in ND. specialize (ND eq_refl). lia.
Qed.

Lemma last_with_id_vec l j v : last_with_id l j v -> last_vec (r_id v) l = Some v.
Proof.
  intro H. unfold last_vec. now rewrite (last_with_id_fts 0 H).
Qed.

(** The seeded map, key by key. *)
Lemma seed_fts_get wl len i l : forall index M,
  map_get i (seed_fts wl len index l M)
  = match last_fts i index l with
    | Some (r, m) => Some (fts_entry m (rank_score r len) (wl * rank_score r len))
    | None => map_get i M
    end.
Proof.
  induction l as [|x l IH]; intros index M; simpl; [reflexivity|].
  rewrite IH. destruct (last_fts i (S index) l) as [[r m]|]; [reflexivity|].
  rewrite map_get_set. now destruct (ident_eqb i (r_id x)).
Qed.

Lemma seed_fts_nodup wl len l : forall index M,
  NoDup (map_keys M) -> NoDup (map_keys (seed_fts wl len index l M)).
Proof.
  induction l as [|x l IH]; intros index M ND; simpl; [assumption|].
  apply IH. rewrite map_keys_set. destruct (map_has (r_id x) M) eqn:E; [assumption|].
  apply NoDup_rev in ND. rewrite <- (rev_involutive (map_keys M ++ [r_id x])).
  apply NoDup_rev. rewrite rev_app_distr. simpl. constructor; [|assumption].
  rewrite <- in_rev. intro Hin. apply map_has_keys in Hin. congruence.
Qed.

(** One step of the vector loop, key by key. *)
Lemma merge_vector_get wl wv M v i :
  map_get i (merge_vector wl wv M v)
  = if ident_eqb i (r_id v) then
      Some match map_get i M with
           | Some existing =>
               {| id := id existing; document_id := document_id existing;
                  chunk := chunk existing; similarity := similarity existing;
                  fts_score := fts_score existing;
                  vector_score := or_num (r_similarity v) 0;
                  hybrid_score := wl * fts_score existing
                                  + wv * or_num (r_similarity v) 0 |}
           | None =>
               {| id := r_id v; document_id := r_document_id v; chunk := r_chunk v;
                  similarity := None; fts_score := 0;
                  vector_score := or_num (r_similarity v) 0;
                  hybrid_score := wv * or_num (r_similarity v) 0 |}
           end
    else map_get i M.
Proof.
  unfold merge_vector. rewrite map_has_get.
  destruct (ident_eqb i (r_id v)) eqn:E.
  - apply ident_eqb_eq in E. subst i.
    destruct (map_get (r_id v) M) as [existing|] eqn:G.
    + rewrite map_get_mutate, ident_eqb_refl, G. reflexivity.
    + rewrite map_get_set, ident_eqb_refl. reflexivity.
  - destruct (map_get (r_id v) M).
    + rewrite map_get_mutate, E. reflexivity.
    + rewrite map_get_set, E. reflexivity.
Qed.

Lemma merge_vector_nodup wl wv M v :
  NoDup (map_keys M) -> NoDup (map_keys (merge_vector wl wv M v)).
Proof.
  intro ND. unfold merge_vector. destruct (map_has (r_id v) M) eqn:E.
  - now rewrite map_keys_mutate.
  - rewrite map_keys_set, E.
    apply NoDup_rev in ND. rewrite <- (rev_involutive (map_keys M ++ [r_id v])).
    apply NoDup_rev. rewrite rev_app_distr. simpl. constructor; [|assumption].
    rewrite <- in_rev. intro Hin. apply map_has_keys in Hin. congruence.
Qed.

Lemma merged_map_nodup L V wl wv : NoDup (map_keys (merged_map L V wl wv)).
Proof.
  unfold merged_map.
  assert (H : NoDup (map_keys (seed_fts wl (List.length L) 0 L []))).
  { apply seed_fts_nodup. constructor. }
  revert H. generalize (seed_fts wl (List.length L) 0 L []).
  induction V as [|v V IH]; intros M ND; simpl; [assumption|].
  apply IH. now apply merge_vector_nodup.
Qed.

Lemma last_vec_snoc i l v :
  last_vec i (l ++ [v]) = if ident_eqb i (r_id v) then Some v else last_vec i l.
Proof.
  unfold last_vec. rewrite last_fts_snoc. now destruct (ident_eqb i (r_id v)).
Qed.

(** What the entry stored under [i] holds once both loops have run. *)
Definition entry_ok (L V : list row) (wl wv : num) (i : ident) (e : result) : Prop :=
  id e = i /\
  fts_score e = match last_fts i 0 L with
                | Some (r, _) => rank_score r (List.length L)
                | None => 0
                end /\
  vector_score e = match last_vec i V with
                   | Some v => or_num (r_similarity v) 0
                   | None => 0
                   end /\
  hybrid_score e = wl * fts_score e + wv * vector_score e /\
  (forall r m, last_fts i 0 L = Some (r, m) ->
               document_id e = r_document_id m /\ chunk e = r_chunk m) /\
  (last_fts i 0 L <> None \/ last_vec i V <> None).

Lemma merged_map_get L V wl wv i :
  match map_get i (merged_map L V wl wv) with
  | Some e => entry_ok L V wl wv i e
  | None => last_fts i 0 L = None /\ last_vec i V = None
  end.
Proof.
  unfold merged_map. induction V as [|v V IH] using rev_ind.
  - simpl. rewrite seed_fts_get. unfold last_vec.
    destruct (last_fts i 0 L) as [[r m]|] eqn:E; simpl.
    + destruct (last_fts_some _ _ _ E) as [_ Hid].
      unfold entry_ok; simpl. rewrite E.
      repeat split; try congruence; try ring.
      left. discriminate.
    + split; reflexivity.
  - rewrite fold_left_app. simpl. rewrite merge_vector_get.
    destruct (ident_eqb i (r_id v)) eqn:E.
    + destruct (map_get i (fold_left (merge_vector wl wv) V
                             (seed_fts wl (List.length L) 0 L []))) as [e0|].
      * destruct IH as (Hid & Hf & Hv & Hh & Hd & Hdom).
        unfold entry_ok; simpl. rewrite last_vec_snoc, E.
        repeat split; try assumption; try reflexivity.
        -- now apply Hd with r.
        -- now apply Hd with r.
        -- right. discriminate.
      * destruct IH as [Hl Hv]. apply ident_eqb_eq in E as Hi.
        unfold entry_ok; simpl. rewrite last_vec_snoc, E, Hl.
        repeat split; try congruence; try ring.
        right. discriminate.
    + destruct (map_get i (fold_left (merge_vector wl wv) V
                             (seed_fts wl (List.length L) 0 L []))) as [e0|].
      * unfold entry_ok in *. rewrite last_vec_snoc, E. exact IH.
      * rewrite last_vec_snoc, E. exact IH.
Qed.

Lemma merged_values_ids L V wl wv :
  List.map id (map_values (merged_map L V wl wv)) = map_keys (merged_map L V wl wv).
Proof.
  unfold map_values, map_keys. rewrite map_map. apply map_ext_in.
  intros [k e] Hin. simpl.
  apply In_map_get in Hin; [|apply merged_map_nodup].
  pose proof (merged_map_get L V wl wv k) as G. rewrite Hin in G. apply G.
Qed.

(** Membership in the output, through the map. *)
Lemma mergeAndScore_In L V wl wv e :
  In e (mergeAndScore L V wl wv) <-> map_get (id e) (merged_map L V wl wv) = Some e.
Proof.
  unfold mergeAndScore. split.
  - intro Hin. eapply Permutation_in in Hin; [|apply sort_perm].
    unfold map_values in Hin. apply in_map_iff in Hin.
    destruct Hin as [[k e'] [<- Hin]]. simpl.
    apply In_map_get in Hin; [|apply merged_map_nodup].
    pose proof (merged_map_get L V wl wv k) as G. rewrite Hin in G.
    destruct G as [-> _]. exact Hin.
  - intro G. apply map_get_In in G.
    eapply Permutation_in; [symmetry; apply sort_perm|].
    unfold map_values. apply in_map_iff. now exists (id e, e).
Qed.

Lemma mergeAndScore_ids_nodup L V wl wv :
  NoDup (List.map id (mergeAndScore L V wl wv)).
Proof.
  unfold mergeAndScore.
  eapply Permutation_NoDup.
  - apply Permutation_map. symmetry. apply sort_perm.
  - rewrite merged_values_ids. apply merged_map_nodup.
Qed.

Lemma sort_insert_desc x l :
  StronglySorted hybrid_desc l ->
  StronglySorted hybrid_desc (sort_insert by_hybrid_desc x l).
Proof.
  induction l as [|y l IH]; intro S; simpl.
  - repeat constructor.
  - inversion S as [|? ? S' F]; subst.
    destruct (ltb 0 (by_hybrid_desc x y)) eqn:E.
    + apply ltb_lt in E. unfold by_hybrid_desc in E.
      apply Qclt_minus_iff in E. constructor; [now apply IH|].
      eapply Permutation_Forall; [symmetry; apply sort_insert_perm|].
      constructor; [|assumption]. unfold hybrid_desc. now apply Qclt_le_weak.
    + apply ltb_ge in E. unfold by_hybrid_desc in E.
      assert (Hxy : hybrid_score y <= hybrid_score x).
      { apply Qcle_minus_iff. apply Qcle_minus_iff in E.
        replace (hybrid_score x + - hybrid_score y)
          with (0 + - (hybrid_score y - hybrid_score x)) by ring.
        exact E. }
      constructor; [assumption|]. constructor; [exact Hxy|].
      eapply Forall_impl; [|exact F]. intros z Hz. unfold hybrid_desc in *.
      eapply Qcle_trans; eassumption.
Qed.

Lemma sort_desc l : StronglySorted hybrid_desc (sort by_hybrid_desc l).
Proof.
  induction l as [|x l IH]; simpl; [constructor | now apply sort_insert_desc].
Qed.

Lemma merged_entry_exists L V wl wv i :
  In i (List.map r_id L ++ List.map r_id V) ->
  exists e, map_get i (merged_map L V wl wv) = Some e /\ entry_ok L V wl wv i e.
Proof.
  intro Hin. pose proof (merged_map_get L V wl wv i) as G.
  destruct (map_get i (merged_map L V wl wv)) as [e|].
  - now exists e.
  - destruct G as [Hl Hv]. exfalso. apply in_app_or in Hin. destruct Hin as [Hin|Hin].
    + now apply (last_fts_none i 0 L) in Hl.
    + unfold last_vec in Hv. destruct (last_fts i 0 V) eqn:E; [discriminate|].
      now apply (last_fts_none i 0 V) in E.
Qed.

Lemma entry_in_output L V wl wv i e :
  map_get i (merged_map L V wl wv) = Some e -> entry_ok L V wl wv i e ->
  In e (mergeAndScore L V wl wv).
Proof.
  intros G (Hid & _). apply mergeAndScore_In. now rewrite Hid.
Qed.

End FusionFacts.

(** ** The cascade *)

Module CascadeFacts.
Import JS.
Import Vite.
Import Spec.
Import JSFacts.
Import FusionFacts.

Lemma performFTSSearch_run e q d lim log :
  performFTSSearch e q d lim log
  = (Returned (rows_of (embeddings_table e q (scope_of d) lim)),
     log ++ [CallFTS q (scope_of d) lim]).
Proof.
  unfold performFTSSearch, try_catch, bind, request, unwrap, rows_of, ret, throw.
  now destruct (embeddings_table e q (scope_of d) lim).
Qed.

Lemma performDocumentSearch_run e q d lim log :
  performDocumentSearch e q d lim log
  = (Returned (List.map document_row
                 (List.filter (document_matches q)
                    (rows_of (documents_table e (scope_of d) lim)))),
     log ++ [CallDocuments (scope_of d) lim]).
Proof.
  unfold performDocumentSearch, try_catch, bind, request, unwrap, rows_of, ret, throw.
  now destruct (documents_table e (scope_of d) lim).
Qed.

Lemma performVectorSearch_run e v d lim log :
  performVectorSearch e v d lim log
  = (Returned (rows_of (match_chunks e v (scope_of d) lim)),
     log ++ [CallVector v (scope_of d) lim]).
Proof.
  unfold performVectorSearch, try_catch, bind, request, unwrap, rows_of, ret, throw.
  now destruct (match_chunks e v (scope_of d) lim).
Qed.

(** The embedding client asks its service at most once, and nothing else. *)
Lemma generateQueryEmbedding_log e q log c log' :
  generateQueryEmbedding e q log = (c, log') ->
  log' = log \/ log' = log ++ [CallEmbedding (trim q)].
Proof.
  unfold generateQueryEmbedding, try_catch, bind, request, ret, throw.
  destruct (OPENAI_API_KEY e) as [key|]; [destruct (nonempty key)|].
  - destruct (embeddings_endpoint e (trim q)) as [m|ok st em [v|]];
      [|destruct ok..]; intros [= <- <-]; now right.
  - intros [= <- <-]. now left.
  - intros [= <- <-]. now left.
Qed.


(** The cascade is what [hybridSearch] computes. *)
Lemma hybridSearch_cascade e q o : hybridSearch e q o = cascade e q o.
Proof.
  unfold hybridSearch, hybridSearch_try, cascade.
  destruct (String.length (trim q) =? 0)%nat; [reflexivity|].
  unfold bind at 1. unfold try_catch at 1. unfold bind at 1.
  destruct (generateQueryEmbedding e q []) as [[v|message] log]; unfold ret at 1.
  - destruct (or_default (useSupabaseFunction o) true).
    + unfold bind, try_catch, performSupabaseHybridSearch, hybrid_function_name,
        request, unwrap, ret, throw, found_outcome, error_outcome.
      destruct (scope_of (documentId o));
        destruct (hybrid_function e v q _ (or_default (limit o) 10%nat));
        reflexivity.
    + unfold bind at 1. unfold javascript_merge. unfold bind.
      rewrite performFTSSearch_run.
      unfold lexical_rows, document_rows, vector_rows.
      destruct (List.length (rows_of (embeddings_table e q (scope_of (documentId o))
                                        (or_default (limit o) 10 * 2))) =? 0)%nat.
      * rewrite performDocumentSearch_run, performVectorSearch_run.
        unfold ret. rewrite <- !app_assoc. reflexivity.
      * unfold ret at 1. rewrite performVectorSearch_run.
        unfold ret. rewrite <- !app_assoc. reflexivity.
  - unfold embedding_fallback.
    destruct (or_default (fallbackToFTSOnly o) true); simpl negb; cbv iota.
    + unfold bind. rewrite performFTSSearch_run.
      unfold lexical_rows, document_rows.
      destruct (List.length (rows_of (embeddings_table e q (scope_of (documentId o))
                                        (or_default (limit o) 10))) =? 0)%nat eqn:E.
      * rewrite performDocumentSearch_run. unfold ret. rewrite <- !app_assoc. reflexivity.
      * unfold ret. reflexivity.
    + reflexivity.
Qed.

Unset Implicit Arguments.


Lemma format_fallback_ids len rows : forall index,
  List.map id (format_fallback len index rows) = List.map r_id rows /\
  List.map chunk (format_fallback len index rows) = List.map r_chunk rows /\
  List.length (format_fallback len index rows) = List.length rows.
Proof.
  induction rows as [|x rows IH]; intro index; simpl; [repeat split|].
  destruct (IH (S index)) as (-> & -> & ->). repeat split.
Qed.

(** An embedding that was returned was asked for. *)
Lemma generateQueryEmbedding_returned e q log v log' :
  generateQueryEmbedding e q log = (Returned v, log') ->
  log' = log ++ [CallEmbedding (trim q)] /\
  exists statusText errorMessage,
    embeddings_endpoint e (trim q) = FetchResponse true statusText errorMessage (Field v).
Proof.
  unfold generateQueryEmbedding, try_catch, bind, request, ret, throw.
  destruct (OPENAI_API_KEY e) as [key|]; [destruct (nonempty key)|]; try discriminate.
  destruct (embeddings_endpoint e (trim q)) as [m|ok st em [m|w]];
    [|destruct ok..]; try discriminate.
  intros [= <- <-]. split; [reflexivity | eauto].
Qed.

(** The entry at a position, from the row at that position. *)
Lemma format_fallback_nth len rows : forall index k r,
  nth_error (format_fallback len index rows) k = Some r ->
  exists m, nth_error rows k = Some m /\
    r = fts_entry m (rank_score (index + k) len) (rank_score (index + k) len).
Proof.
  induction rows as [|x rows IH]; intros index k r Hk; simpl in Hk.
  - destruct k; discriminate.
  - destruct k as [|k]; simpl in Hk.
    + injection Hk as <-. exists x. rewrite Nat.add_0_r. now split.
    + destruct (IH _ _ _ Hk) as (m & Hn & ->).
      exists m. split; [exact Hn|]. now rewrite Nat.add_succ_r.
Qed.

Lemma nonempty_length {A} (l : list A) : l <> [] -> (List.length l =? 0)%nat = false.
Proof. destruct l; [congruence | reflexivity]. Qed.

Ltac in_cases :=
  repeat match goal with
         | H : In _ (_ ++ _) |- _ => apply in_app_or in H; destruct H as [H|H]
         | H : In _ (_ :: _) |- _ => destruct H as [H|H]
         | H : In _ [] |- _ => destruct H
         | H : _ \/ _ |- _ => destruct H as [H|H]
         | H : False |- _ => destruct H
         end;
  try discriminate.

Lemma length_zero_nil {A} (l : list A) : (List.length l =? 0)%nat = true -> l = [].
Proof. destruct l; [reflexivity | discriminate]. Qed.

Lemma In_firstn {A} (n : nat) (l : list A) (x : A) : In x (firstn n l) -> In x l.
Proof.
  revert l. induction n as [|n IH]; intros [|y l] H; simpl in *; try contradiction.
  destruct H as [H|H]; [now left | right; now apply IH].
Qed.

End CascadeFacts.

(** ** The hook *)

Module HookFacts.
Import JS.
Import Vite.
Import Lib.
Import Hook.
Import HookSpec.

Unset Implicit Arguments.

(** A pending timeout that is not yet due survives the passing of time. *)
Lemma elapse_before_due cfg h t ms :
  debounceTimeoutRef h = Some t -> (now h + ms < t_due t)%nat ->
  elapse cfg ms h = set_now (now h + ms) h.
Proof.
  intros Ht Hlt. unfold elapse. rewrite Ht.
  destruct (t_due t <=? now h + ms)%nat eqn:E; [|reflexivity].
  apply Nat.leb_le in E. lia.
Qed.

(** Through a burst the last call's timeout is the pending one, and no
    search has been performed. *)
Lemma burst_pending cfg rest : forall h q o,
  Forall (fun c => (fst c < debounceMs cfg)%nat) rest ->
  let h' := run cfg (debouncedSearch cfg q o h)
              (flat_map (fun c => [Elapse (fst c); Submit (fst (snd c)) (snd (snd c))]) rest) in
  debounceTimeoutRef h'
  = Some {| t_due := now h' + debounceMs cfg;
            t_query := fst (last_call (q, o) rest);
            t_options := snd (last_call (q, o) rest) |} /\
  executed h' = executed h /\ issued h' = issued h.
Proof.
  induction rest as [|[gap [q' o']] rest IH]; intros h q o Hgaps.
  - simpl. repeat split.
  - inversion Hgaps as [|? ? Hgap Hrest]; subst. simpl in Hgap.
    cbn [flat_map app run fold_left step fst snd].
    rewrite (elapse_before_due cfg (debouncedSearch cfg q o h)
               {| t_due := now h + debounceMs cfg; t_query := q; t_options := o |} gap);
      [|reflexivity|simpl; lia].
    specialize (IH (set_now (now (debouncedSearch cfg q o h) + gap)
                      (debouncedSearch cfg q o h)) q' o' Hrest).
    unfold run in IH.
    cbv zeta in IH. destruct IH as (Ht & He & Hi).
    unfold run. cbv zeta.
    assert (Hlast : last_call (q, o) ((gap, (q', o')) :: rest) = last_call (q', o') rest).
    { unfold last_call. simpl. destruct (List.map snd rest) eqn:E; [reflexivity|].
      simpl. clear. revert p. induction l; intro p; simpl; [reflexivity|]. destruct l; auto. }
    rewrite Hlast. repeat split; assumption.
Qed.

Lemma performSearch_executed cfg q o h :
  executed (performSearch cfg q o h) = executed h ++ [(q, o)] /\
  debounceTimeoutRef (performSearch cfg q o h) = debounceTimeoutRef h /\
  (trim q <> EmptyString ->
   issued (performSearch cfg q o h) = issued h ++ [(q, searchParams cfg o)]) /\
  (trim q = EmptyString -> issued (performSearch cfg q o h) = issued h).
Proof.
  unfold performSearch. destruct (trim q) eqn:E; simpl; repeat split; congruence.
Qed.

End HookFacts.

(* ------------------------------------------------------------------ *)
(** * The claims *)

Unset Implicit Arguments.

Import JS.
Import Lib.
Import Hook.
Import Vite.
Import Spec.
Import HookSpec.
Import JSFacts.
Import FusionFacts.
Import CascadeFacts.
Import HookFacts.

(** C1. Score fusion. For lexical matches [L] (with [N] their number), vector
    matches [V] and weights [wl], [wv], the output of [mergeAndScore] holds:
    for the lexical match at 0-based rank [r] (the last one with its id;
    every one when ids do not repeat) a result with that id, its document
    and text, lexical score [max(0, 1 - r/N)], and vector score 0 unless a
    vector match has the same id; for each vector match with similarity
    [s] (the last one with its id) a result with that id and vector score
    [s], whose lexical score is 0 unless a lexical match has the same id;
    one result per id, so a lexical and a vector match of one passage share
    their result; no result without a match; every hybrid score is
    [wl * lexicalScore + wv * vectorScore]; the output is in descending
    order of hybrid score. A vector match whose id is in the map updates
    that entry in place (same keys in the same order, lexical score, document
    and text kept), and otherwise appends a new entry with lexical score
    0. On Scenario A the output is id 1 with hybrid score 0.95 followed by
    id 2 with hybrid score 0.3. *)
Theorem mergeAndScore_fusion :
  (forall (L V : list row) (wl wv : num),
     let N := List.length L in
     let out := mergeAndScore L V wl wv in
     (forall r m, last_with_id L r m ->
        exists e, In e out /\ id e = r_id m /\
          document_id e = r_document_id m /\ chunk e = r_chunk m /\
          fts_score e = Math_max 0 (1 - of_nat r / of_nat N) /\
          (~ In (r_id m) (List.map r_id V) -> vector_score e = 0)) /\
     (forall j v s, last_with_id V j v -> r_similarity v = Some s ->
        exists e, In e out /\ id e = r_id v /\ vector_score e = s /\
          (~ In (r_id v) (List.map r_id L) -> fts_score e = 0)) /\
     (forall e e', In e out -> In e' out -> id e = id e' -> e = e') /\
     (forall e, In e out -> In (id e) (List.map r_id L ++ List.map r_id V)) /\
     (forall e, In e out ->
        hybrid_score e = wl * fts_score e + wv * vector_score e) /\
     StronglySorted hybrid_desc out /\
     (forall M v existing, map_get (r_id v) M = Some existing ->
        map_keys (merge_vector wl wv M v) = map_keys M /\
        exists e, map_get (r_id v) (merge_vector wl wv M v) = Some e /\
          vector_score e = or_num (r_similarity v) 0 /\
          fts_score e = fts_score existing /\
          document_id e = document_id existing /\ chunk e = chunk existing) /\
     (forall M v, map_get (r_id v) M = None ->
        map_keys (merge_vector wl wv M v) = map_keys M ++ [r_id v] /\
        exists e, map_get (r_id v) (merge_vector wl wv M v) = Some e /\
          vector_score e = or_num (r_similarity v) 0 /\ fts_score e = 0)) /\
  (forall L r m, NoDup (List.map r_id L) -> nth_error L r = Some m ->
     last_with_id L r m) /\
  List.map (fun e => (id e, hybrid_score e))
    (mergeAndScore scenarioA_lexical scenarioA_vector (Q2Qc (1 # 2)) (Q2Qc (1 # 2)))
  = [(IdNum 1, Q2Qc (95 # 100)); (IdNum 2, Q2Qc (3 # 10))].
Proof.
  split; [|split].
  - intros L V wl wv N out. repeat apply conj.
    + intros r m H.
      pose proof (last_with_id_fts 0 H) as Hl. simpl in Hl.
      destruct (merged_entry_exists L V wl wv (r_id m)) as [e [G Hok]].
      { apply in_or_app. left. apply in_map. destruct H as [Hn _].
        eapply nth_error_In; eassumption. }
      exists e. split; [eapply entry_in_output; eassumption|].
      destruct Hok as (Hid & Hf & Hv & Hh & Hd & _).
      rewrite Hl in Hf. destruct (Hd _ _ Hl) as [Hdoc Hchunk].
      repeat split; try assumption.
      intro Hnot. rewrite Hv. unfold last_vec.
      apply (last_fts_none (r_id m) 0 V) in Hnot. now rewrite Hnot.
    + intros j v s H Hs.
      pose proof (last_with_id_vec H) as Hl.
      destruct (merged_entry_exists L V wl wv (r_id v)) as [e [G Hok]].
      { apply in_or_app. right. apply in_map. destruct H as [Hn _].
        eapply nth_error_In; eassumption. }
      exists e. split; [eapply entry_in_output; eassumption|].
      destruct Hok as (Hid & Hf & Hv & Hh & Hd & _).
      rewrite Hl, Hs, or_num_some in Hv.
      repeat split; try assumption.
      intro Hnot. rewrite Hf.
      apply (last_fts_none (r_id v) 0 L) in Hnot. now rewrite Hnot.
    + intros e e' He He' Hid.
      apply mergeAndScore_In in He. apply mergeAndScore_In in He'.
      rewrite Hid in He. congruence.
    + intros e He. apply mergeAndScore_In in He.
      pose proof (merged_map_get L V wl wv (id e)) as G. rewrite He in G.
      destruct G as (_ & _ & _ & _ & _ & [Hl|Hv]); apply in_or_app.
      * left. destruct (in_dec ident_eq_dec (id e) (List.map r_id L)); [assumption|].
        exfalso. apply Hl. now apply last_fts_none.
      * right. destruct (in_dec ident_eq_dec (id e) (List.map r_id V)) as [|n]; [assumption|].
        exfalso. apply Hv. unfold last_vec.
        apply (last_fts_none (id e) 0 V) in n. now rewrite n.
    + intros e He. apply mergeAndScore_In in He.
      pose proof (merged_map_get L V wl wv (id e)) as G. rewrite He in G.
      apply G.
    + apply sort_desc.
    + intros M v existing G. split.
      * unfold merge_vector. rewrite map_has_get, G. apply map_keys_mutate.
      * rewrite merge_vector_get, ident_eqb_refl, G. eexists. split; [reflexivity|].
        repeat split.
    + intros M v G. split.
      * unfold merge_vector. rewrite map_has_get, G, map_keys_set, map_has_get, G.
        reflexivity.
      * rewrite merge_vector_get, ident_eqb_refl, G. eexists. split; [reflexivity|].
        repeat split.
  - intros L r m. apply last_with_id_NoDup.
  - assert (H : List.map (fun e => (id e, this (hybrid_score e)))
                  (mergeAndScore scenarioA_lexical scenarioA_vector
                     (Q2Qc (1 # 2)) (Q2Qc (1 # 2)))
                = [(IdNum 1, (19 # 20)%Q); (IdNum 2, (3 # 10)%Q)])
      by (vm_compute; reflexivity).
    destruct (mergeAndScore scenarioA_lexical scenarioA_vector
                (Q2Qc (1 # 2)) (Q2Qc (1 # 2))) as [|a [|b [|c rest]]];
      try discriminate.
    simpl in *. injection H as Ha Ha' Hb Hb'. rewrite Ha, Hb.
    repeat f_equal; apply Qc_is_canon; simpl; [rewrite Ha' | rewrite Hb']; reflexivity.
Qed.

(** Scenario A's arithmetic on binary64: [0.5 * 1 + 0.5 * 0.9] is the
    double 0.95, [0.5 * 0.6] is the double 0.3, and the comparator does not
    move id 2 ahead of id 1. *)
#[warnings="-inexact-float"]
Remark scenarioA_binary64 :
  PrimFloat.eqb (0.5 * 1 + 0.5 * 0.9) 0.95 = true /\
  PrimFloat.eqb (0.5 * 0.6) 0.3 = true /\
  PrimFloat.ltb 0 (0.5 * 0.6 - (0.5 * 1 + 0.5 * 0.9)) = false.
Proof. vm_compute. repeat split. Qed.

(** C2, as stated, fails: with the default weights 0.5 and 0.5 and the
    embedding service unavailable, the only lexical match gets hybrid
    score 1, not 0.5 * 1 + 0.5 * 0. *)
Lemma hybrid_score_counterexample :
  let e := world None embedded (Data [passage 1 "AI is..." None]) NoData NoData NoData in
  let r := fts_entry (passage 1 "AI is..." None) (rank_score 0 1) (rank_score 0 1) in
  In r (results (fst (hybridSearch e "ai" no_options))) /\
  hybrid_score r = Q2Qc 1 /\
  (Q2Qc (1 # 2) * fts_score r + Q2Qc (1 # 2) * vector_score r = Q2Qc (1 # 2))%Qc /\
  hybrid_score r <> (Q2Qc (1 # 2) * fts_score r + Q2Qc (1 # 2) * vector_score r)%Qc.
Proof.
  split; [left; reflexivity|].
  split; [apply Qc_is_canon; reflexivity|].
  split; [apply Qc_is_canon; reflexivity|].
  intro H. apply (f_equal this) in H. vm_compute in H. discriminate.
Qed.

(** C2, amended. On the merging path (method [javascript_merge]) every
    result has hybrid score [wl * lexicalScore + wv * vectorScore] for the
    supplied weights. On the paths taken when embedding fails (method
    [document_search_fallback], for lexical and for document matches alike)
    the weights play no part: the result at rank [index] of the [total]
    results has vector score 0 and hybrid score equal to its lexical score
    [max(0, 1 - index/total)]. *)
Theorem hybrid_score_by_path (e : env) (q : string) (o : options) :
  let out := fst (hybridSearch e q o) in
  let wl := or_default (ftsWeight o) (Q2Qc (1 # 2)) in
  let wv := or_default (vectorWeight o) (Q2Qc (1 # 2)) in
  (method out = Some "javascript_merge"%string ->
   forall r, In r (results out) ->
     hybrid_score r = (wl * fts_score r + wv * vector_score r)%Qc) /\
  (method out = Some "document_search_fallback"%string ->
   forall index r, nth_error (results out) index = Some r ->
     (index < total out)%nat /\
     vector_score r = Q2Qc 0 /\ hybrid_score r = fts_score r /\
     fts_score r = Math_max (Q2Qc 0) (1 - of_nat index / of_nat (total out))%Qc).
Proof.
  intros out wl wv. subst out. rewrite hybridSearch_cascade. unfold cascade.
  destruct (String.length (trim q) =? 0)%nat.
  { simpl. split; discriminate. }
  destruct (generateQueryEmbedding e q []) as [[v|message] log].
  - destruct (or_default (useSupabaseFunction o) true).
    + destruct (hybrid_function e v q _ _); simpl; split; discriminate.
    + assert (Hmerge : forall L V r,
                 In r (firstn (or_default (limit o) 10%nat) (mergeAndScore L V wl wv)) ->
                 hybrid_score r = (wl * fts_score r + wv * vector_score r)%Qc).
      { intros L V r Hin. apply In_firstn in Hin. apply mergeAndScore_In in Hin.
        pose proof (merged_map_get L V wl wv (id r)) as G. rewrite Hin in G. apply G. }
      destruct (_ =? 0)%nat; simpl; (split; [|discriminate]);
        intros _ r Hin; eapply Hmerge; exact Hin.
  - destruct (or_default (fallbackToFTSOnly o) true).
    + assert (Hfb : forall rows index r,
                 nth_error (results (fallback_outcome q rows)) index = Some r ->
                 (index < total (fallback_outcome q rows))%nat /\
                 vector_score r = Q2Qc 0 /\ hybrid_score r = fts_score r /\
                 fts_score r = Math_max (Q2Qc 0)
                                 (1 - of_nat index
                                      / of_nat (total (fallback_outcome q rows)))%Qc).
      { intros rows index r Hnth. simpl in Hnth. simpl total.
        assert (Hlt : (index < List.length (format_fallback (List.length rows) 0 rows))%nat)
          by (apply nth_error_Some; congruence).
        destruct (format_fallback_ids (List.length rows) rows 0) as (_ & _ & Hlen).
        rewrite Hlen in *.
        apply format_fallback_nth in Hnth. destruct Hnth as (m & Hn & ->).
        split; [exact Hlt|]. repeat split. }
      destruct (_ =? 0)%nat; (split; [simpl; destruct (0 <? _)%nat; discriminate|]);
        intros _ index r Hnth; apply Hfb; exact Hnth.
    + simpl. split; discriminate.
Qed.

(** C3, as stated, fails: on the merging path the lexical executor finds
    nothing, the document fallback is asked and its document is among the
    results, although the vector executor returned a row. *)
Lemma document_fallback_counterexample :
  let e := world (Some "sk"%string) embedded (Data [])
             (Data [titled "doc-1" "AI notes"])
             (Data [passage 7 "Neural networks" (Some (Q2Qc (9 # 10)))]) NoData in
  vector_found e (snd (hybridSearch e "ai" only_merge)) /\
  documents_invoked (snd (hybridSearch e "ai" only_merge)) /\
  In (IdStr "doc-1") (List.map id (results (fst (hybridSearch e "ai" only_merge)))).
Proof.
  repeat split.
  - eexists _, _, _. split.
    + vm_compute. right. right. right. left. reflexivity.
    + discriminate.
  - eexists _, _. vm_compute. right. right. left. reflexivity.
  - vm_compute. tauto.
Qed.

(** Which executors a run asks: if the lexical executor returned at least
    one row, the document fallback is not asked; and the document fallback
    is asked exactly when the lexical executor was asked and returned no
    row. *)
Lemma documents_asked_when_lexical_empty (e : env) (q : string) (o : options) :
  (lexical_found e (snd (hybridSearch e q o)) ->
   ~ documents_invoked (snd (hybridSearch e q o))) /\
  (documents_invoked (snd (hybridSearch e q o)) <->
   lexical_empty e (snd (hybridSearch e q o))).
Proof.
  rewrite hybridSearch_cascade. unfold cascade.
  unfold lexical_found, lexical_empty, documents_invoked, lexical_rows.
  destruct (String.length (trim q) =? 0)%nat.
  { simpl. split; [intros (? & ? & ? & [] & _)|].
    split; [intros (? & ? & [])|intros (? & ? & ? & [] & _)]. }
  destruct (generateQueryEmbedding e q []) as [[v|message] log] eqn:Hgen;
    apply generateQueryEmbedding_log in Hgen; simpl in Hgen.
  - destruct (or_default (useSupabaseFunction o) true).
    + assert (L : snd (match hybrid_function e v q (scope_of (documentId o))
                               (or_default (limit o) 10%nat) with
                       | Failed _ =>
                           (error_outcome q "Assignment to constant variable.",
                            log ++ [CallHybridRpc (hybrid_function_name o)
                                      (or_default (limit o) 10%nat)])
                       | answer =>
                           (found_outcome q "supabase_function"
                              (firstn (or_default (limit o) 10%nat)
                                 (List.map hybrid_result (rows_of answer))),
                            log ++ [CallHybridRpc (hybrid_function_name o)
                                      (or_default (limit o) 10%nat)])
                       end)
                = log ++ [CallHybridRpc (hybrid_function_name o)
                            (or_default (limit o) 10%nat)]).
      { now destruct (hybrid_function e v q _ _). }
      rewrite L. clear L.
      split; [intros (? & ? & ? & Hin & _)|
              split; [intros (? & ? & Hin)|intros (? & ? & ? & Hin & _)]];
        destruct Hgen as [->| ->]; simpl in Hin; in_cases.
    + destruct (_ =? 0)%nat eqn:E; simpl snd.
      * apply length_zero_nil in E. split; [|split].
        -- intros (q' & s & l & Hin & Hne) _.
           destruct Hgen as [->| ->]; simpl in Hin; in_cases;
             injection Hin as <- <- <-; contradiction.
        -- intros _. exists q, (scope_of (documentId o)), (or_default (limit o) 10 * 2)%nat.
           split; [|exact E]. apply in_or_app. right. now left.
        -- intros _. exists (scope_of (documentId o)), (or_default (limit o) 10 * 2)%nat.
           apply in_or_app. right. right. now left.
      * split; [|split].
        -- intros _ (s & l & Hin).
           destruct Hgen as [->| ->]; simpl in Hin; in_cases.
        -- intros (s & l & Hin).
           destruct Hgen as [->| ->]; simpl in Hin; in_cases.
        -- intros (q' & s & l & Hin & Hempty).
           destruct Hgen as [->| ->]; simpl in Hin; in_cases;
             injection Hin as <- <- <-; rewrite Hempty in E; discriminate.
  - destruct (or_default (fallbackToFTSOnly o) true).
    + destruct (_ =? 0)%nat eqn:E; simpl snd.
      * apply length_zero_nil in E. split; [|split].
        -- intros (q' & s & l & Hin & Hne) _.
           destruct Hgen as [->| ->]; simpl in Hin; in_cases;
             injection Hin as <- <- <-; contradiction.
        -- intros _. exists q, (scope_of (documentId o)), (or_default (limit o) 10%nat).
           split; [|exact E]. apply in_or_app. right. now left.
        -- intros _. exists (scope_of (documentId o)), (or_default (limit o) 10%nat).
           apply in_or_app. right. right. now left.
      * split; [|split].
        -- intros _ (s & l & Hin).
           destruct Hgen as [->| ->]; simpl in Hin; in_cases.
        -- intros (s & l & Hin).
           destruct Hgen as [->| ->]; simpl in Hin; in_cases.
        -- intros (q' & s & l & Hin & Hempty).
           destruct Hgen as [->| ->]; simpl in Hin; in_cases;
             injection Hin as <- <- <-; rewrite Hempty in E; discriminate.
    + simpl snd.
      split; [intros (? & ? & ? & Hin & _)|
              split; [intros (? & ? & Hin)|intros (? & ? & ? & Hin & _)]];
        destruct Hgen as [->| ->]; simpl in Hin; in_cases.
Qed.

(** C3, amended. In every run of [hybridSearch]: if the lexical executor
    returned at least one row, the document fallback is not asked; and the
    document fallback is asked exactly when the lexical executor was asked
    and returned no row, whatever the vector executor returns. On the
    merging path, when the lexical executor returns no row, the requests
    are, in this order, the embedding, the lexical search, the document
    fallback and the vector search, and the results are the first [limit]
    of the fusion of the document rows with the vector matches. *)
Theorem document_fallback_precedence (e : env) (q : string) (o : options) :
  (lexical_found e (snd (hybridSearch e q o)) ->
   ~ documents_invoked (snd (hybridSearch e q o))) /\
  (documents_invoked (snd (hybridSearch e q o)) <->
   lexical_empty e (snd (hybridSearch e q o))) /\
  (forall v log,
     trim q <> EmptyString ->
     generateQueryEmbedding e q [] = (Returned v, log) ->
     useSupabaseFunction o = Some false ->
     let lim := or_default (limit o) 10%nat in
     let scope := scope_of (documentId o) in
     lexical_rows e q o (lim * 2) = [] ->
     snd (hybridSearch e q o)
     = [CallEmbedding (trim q); CallFTS q scope (lim * 2)%nat;
        CallDocuments scope (lim * 2)%nat; CallVector v scope (lim * 2)%nat] /\
     method (fst (hybridSearch e q o)) = Some "javascript_merge"%string /\
     results (fst (hybridSearch e q o))
     = firstn lim
         (mergeAndScore (document_rows e q o (lim * 2)) (vector_rows e v o (lim * 2))
            (or_default (ftsWeight o) (Q2Qc (1 # 2)))
            (or_default (vectorWeight o) (Q2Qc (1 # 2))))).
Proof.
  destruct (documents_asked_when_lexical_empty e q o) as [Hfound Hiff].
  split; [exact Hfound|]. split; [exact Hiff|].
  intros v log Hq Hgen Hsql lim scope Hempty. subst lim scope.
  rewrite hybridSearch_cascade. unfold cascade.
  assert (Hblank : (String.length (trim q) =? 0)%nat = false)
    by (destruct (trim q); [congruence | reflexivity]).
  rewrite Hblank, Hgen, Hsql. cbn [or_default].
  rewrite Hempty. cbn [List.length Nat.eqb fst snd found_outcome method results].
  apply generateQueryEmbedding_returned in Hgen. destruct Hgen as [-> _].
  repeat split.
Qed.

(** C4. No duplicate ids. Whatever the lexical and vector match lists, each
    passage id occurs at most once among the ids of the fused output, and
    every id of either list occurs there. A lexical match and a vector
    match with the same id (each the last one with that id in its list;
    every one when ids do not repeat within a list) are merged into one
    result: the only result with that id, which carries the lexical
    match's document and text, its rank score [max(0, 1 - r/N)] as lexical
    score, the vector match's similarity as vector score, and the hybrid
    score of the two. *)
Theorem mergeAndScore_no_duplicate_ids :
  forall (L V : list row) (wl wv : num),
    let out := mergeAndScore L V wl wv in
    NoDup (List.map id out) /\
    (forall i, In i (List.map r_id L ++ List.map r_id V) -> In i (List.map id out)) /\
    (forall r m j v, last_with_id L r m -> last_with_id V j v -> r_id m = r_id v ->
       exists e, In e out /\ id e = r_id m /\
         document_id e = r_document_id m /\ chunk e = r_chunk m /\
         fts_score e = Math_max 0 (1 - of_nat r / of_nat (List.length L)) /\
         vector_score e = or_num (r_similarity v) 0 /\
         hybrid_score e = wl * fts_score e + wv * vector_score e /\
         (forall e', In e' out -> id e' = r_id m -> e' = e)) /\
    (forall l r m, NoDup (List.map r_id l) -> nth_error l r = Some m ->
       last_with_id l r m).
Proof.
  intros L V wl wv out. subst out. split; [|split; [|split]].
  - apply mergeAndScore_ids_nodup.
  - intros i Hin. destruct (merged_entry_exists L V wl wv i Hin) as [e [G Hok]].
    apply in_map_iff. exists e. split; [apply Hok|].
    eapply entry_in_output; eassumption.
  - intros r m j v HL HV Hsame.
    pose proof (last_with_id_fts 0 HL) as Hl. simpl in Hl.
    pose proof (last_with_id_vec HV) as Hv. rewrite <- Hsame in Hv.
    destruct (merged_entry_exists L V wl wv (r_id m)) as [e [G Hok]].
    { apply in_or_app. left. apply in_map. destruct HL as [Hn _].
      eapply nth_error_In; eassumption. }
    exists e. split; [eapply entry_in_output; eassumption|].
    destruct Hok as (Hid & Hf & Hvs & Hh & Hd & _).
    rewrite Hl in Hf. rewrite Hv in Hvs. destruct (Hd _ _ Hl) as [Hdoc Hchunk].
    split; [exact Hid|]. split; [exact Hdoc|]. split; [exact Hchunk|].
    split; [exact Hf|]. split; [exact Hvs|]. split; [exact Hh|].
    intros e' He' Hid'. apply mergeAndScore_In in He'. rewrite Hid' in He'. congruence.
  - intros l r m. apply last_with_id_NoDup.
Qed.

(** C5. Cancellation, which the hook misses. Search B is submitted while
    search A is in flight; A's controller is aborted and replaced by B's.
    When A's [hybridSearch] resolves, the continuation looks at the
    controller the ref holds now, which is B's and not aborted, and
    publishes A's results and query text: so it is for every state of the
    hook, every attempt in flight and every non-blank B. If A resolves
    after B, A's outcome replaces B's. Only [clearSearch], which aborts
    without replacing the controller, keeps an outcome from being
    published. *)
Theorem superseded_search_is_published :
  (forall (cfg : config) (h : hook) (a : attempt) (qB : string) (oB : options)
          (res : outcome),
     trim qB <> EmptyString -> success res = true ->
     let superseded := searchNow cfg qB oB h in
     current_aborted superseded = false /\
     searchQuery (resume a res superseded) = a_query a /\
     searchResults (resume a res superseded) = formatSearchResults (results res)) /\
  let A := answer "a" "about a" 1 in
  let B := answer "b" "about b" 2 in
  let submitted := [SubmitNow "a" no_options; SubmitNow "b" no_options] in
  let first := run default_config initial (submitted ++ [Resolve 0 A]) in
  let both := run default_config initial (submitted ++ [Resolve 1 B; Resolve 0 A]) in
  let cleared :=
    run default_config initial [SubmitNow "a" no_options; Clear; Resolve 0 A] in
  controllers (run default_config initial submitted) = [true; false] /\
  (searchQuery first = "a"%string /\
   searchResults first = formatSearchResults (results A) /\
   st_total (searchStats first) = 1%nat) /\
  (searchQuery both = "a"%string /\
   searchResults both = formatSearchResults (results A)) /\
  (searchQuery cleared = EmptyString /\ searchResults cleared = []).
Proof.
  split.
  - intros cfg h a qB oB res HqB Hres superseded.
    assert (Hfresh : current_aborted superseded = false).
    { subst superseded. unfold searchNow, performSearch.
      destruct (trim qB) eqn:E; [congruence|]. simpl.
      unfold current_aborted. simpl.
      rewrite app_nth2 by lia. now rewrite Nat.sub_diag. }
    split; [exact Hfresh|].
    unfold resume. rewrite Hfresh, Hres. simpl. split; reflexivity.
  - vm_compute. repeat split.
Qed.







(** C8. Debounce coalescing. From any state of the hook, a burst of one or
    more [search] calls, each arriving less than [debounceMs] after the
    previous one, followed by a quiet [debounceMs] or more, performs exactly
    one search: [performSearch] runs once, with the query and options of the
    last call, no timeout stays pending, and if that query is not blank
    exactly one [hybridSearch] call is issued, for that query. The window
    is 300 ms by default. *)
Theorem debounce_coalesces (cfg : config) (h : hook) (first : string * options)
    (rest : list (nat * (string * options))) (wait : nat) :
  Forall (fun c => (fst c < debounceMs cfg)%nat) rest ->
  (debounceMs cfg <= wait)%nat ->
  let final := run cfg h (burst first rest ++ [Elapse wait]) in
  executed final = executed h ++ [last_call first rest] /\
  debounceTimeoutRef final = None /\
  (trim (fst (last_call first rest)) <> EmptyString ->
   issued final
   = issued h ++ [(fst (last_call first rest),
                   searchParams cfg (snd (last_call first rest)))]) /\
  (trim (fst (last_call first rest)) = EmptyString -> issued final = issued h) /\
  debounceMs default_config = 300%nat.
Proof.
  intros Hgaps Hwait. destruct first as [q o].
  unfold run, burst. rewrite fold_left_app.
  cbn [fold_left step fst snd].
  destruct (burst_pending cfg rest h q o Hgaps) as (Ht & He & Hi).
  unfold run in Ht, He, Hi. cbv zeta in Ht, He, Hi.
  set (h' := fold_left (step cfg)
               (flat_map (fun c => [Elapse (fst c); Submit (fst (snd c)) (snd (snd c))]) rest)
               (debouncedSearch cfg q o h)) in *.
  cbv zeta. unfold elapse. rewrite Ht. cbn [t_due t_query t_options].
  assert (Hdue : (now h' + debounceMs cfg <=? now h' + wait)%nat = true)
    by (apply Nat.leb_le; lia).
  rewrite Hdue.
  destruct (last_call (q, o) rest) as [qN oN] eqn:Hlast. cbn [fst snd].
  destruct (performSearch_executed cfg qN oN
              (set_now (Nat.max (now h') (now h' + debounceMs cfg)) (set_timeout None h')))
    as (Pe & Pt & Pi & Pb).
  cbn [set_now executed debounceTimeoutRef issued].
  rewrite Pe, Pt. cbn [set_now set_timeout executed debounceTimeoutRef].
  rewrite He. repeat split.
  - intro Hq. rewrite (Pi Hq). cbn [set_now set_timeout issued]. now rewrite Hi.
  - intro Hq. rewrite (Pb Hq). cbn [set_now set_timeout issued]. now rewrite Hi.
Qed.

(** C8 on three calls 100 ms and 250 ms apart, then 300 ms of quiet. *)
Lemma debounce_coalesces_witness :
  let rest := [(100, ("ai"%string, no_options));
               (250, ("ai search"%string, only_merge))]%nat in
  executed (run default_config initial
              (burst ("a"%string, no_options) rest ++ [Elapse 300]))
  = [("ai search"%string, only_merge)] /\
  issued (run default_config initial
            (burst ("a"%string, no_options) rest ++ [Elapse 300]))
  = [("ai search"%string, searchParams default_config only_merge)].
Proof.
  pose (rest := [(100, ("ai"%string, no_options));
                 (250, ("ai search"%string, only_merge))]%nat).
  assert (Hgaps : Forall (fun c => (fst c < debounceMs default_config)%nat) rest).
  { repeat constructor; simpl; lia. }
  assert (Hwait : (debounceMs default_config <= 300)%nat) by (simpl; lia).
  destruct (debounce_coalesces default_config initial ("a"%string, no_options) rest 300
              Hgaps Hwait) as (He & _ & Hi & _).
  split.
  - exact He.
  - apply Hi. discriminate.
Defined.

(** C9. Empty query. When the query text is empty (or blank), [hybridSearch]
    returns success with an empty result list and total 0, and issues no
    request at all: none to the embedding service, the text store, the
    vector store or the document directory. *)
Theorem empty_query_no_network (e : env) (q : string) (o : options) :
  trim q = EmptyString ->
  success (fst (hybridSearch e q o)) = true /\
  results (fst (hybridSearch e q o)) = [] /\
  total (fst (hybridSearch e q o)) = 0%nat /\
  snd (hybridSearch e q o) = [].
Proof.
  intro H. rewrite hybridSearch_cascade. unfold cascade. rewrite H. simpl.
  repeat split.
Qed.

(** C9 on the empty string, with a configured embedding service. *)
Lemma empty_query_no_network_witness :
  trim "" = EmptyString /\
  let e := world (Some "sk"%string) embedded NoData NoData NoData NoData in
  success (fst (hybridSearch e "" no_options)) = true /\
  results (fst (hybridSearch e "" no_options)) = [] /\
  total (fst (hybridSearch e "" no_options)) = 0%nat /\
  snd (hybridSearch e "" no_options) = [].
Proof.
  split; [reflexivity|].
  apply (empty_query_no_network
           (world (Some "sk"%string) embedded NoData NoData NoData NoData)
           "" no_options).
  reflexivity.
Defined.

(** C10, as stated, fails on the numbers JavaScript computes with: 0.3 and
    0.6 scaled by 10 are 3 and 6, the sums are positive, and the lexical
    weight passed on is 3/9 in one call and 0.3/(0.3 + 0.6) in the other,
    which are different binary64 numbers. *)
#[warnings="-inexact-float"]
Lemma weightedSearch_scaling_counterexample :
  PrimFloat.ltb 0 (0.3 + 0.6) = true /\
  PrimFloat.ltb 0 10 = true /\
  PrimFloat.eqb (10 * 0.3) 3 = true /\
  PrimFloat.eqb (10 * 0.6) 6 = true /\
  weightedSearch_call_binary64 "ai" (10 * 0.3) (10 * 0.6) no_options_binary64
  <> weightedSearch_call_binary64 "ai" 0.3 0.6 no_options_binary64.
Proof.
  repeat (split; [vm_compute; reflexivity|]).
  intro H.
  apply (f_equal (fun c => match ftsWeight (snd c) with
                           | Some w => PrimFloat.eqb w (3 / 9)
                           | None => false
                           end)) in H.
  vm_compute in H. discriminate.
Qed.

(** The binary64 computations of the two scalings. *)
#[warnings="-inexact-float"]
Lemma scaling_binary64 :
  PrimFloat.ltb 0 (0.3 + 0.6) = true /\
  PrimFloat.ltb 0 10 = true /\
  PrimFloat.ltb 0 (10 * 0.3 + 10 * 0.6) = true /\
  (10 * 0.3 / (10 * 0.3 + 10 * 0.6) = 0.33333333333333331)%float /\
  (10 * 0.6 / (10 * 0.3 + 10 * 0.6) = 0.66666666666666663)%float /\
  (0.3 / (0.3 + 0.6) = 0.33333333333333337)%float /\
  (0.6 / (0.3 + 0.6) = 0.66666666666666674)%float /\
  PrimFloat.ltb 0 (0.3 + 0.4) = true /\
  PrimFloat.ltb 0 0x1p-1074 = true /\
  PrimFloat.ltb 0 (0x1p-1074 * 0.3 + 0x1p-1074 * 0.4) = false /\
  (0.3 / (0.3 + 0.4) = 0.4285714285714286)%float /\
  (0.4 / (0.3 + 0.4) = 0.57142857142857151)%float.
Proof. repeat split; vm_compute; reflexivity. Qed.

(** C10, amended. In exact arithmetic [weightedSearch] is invariant under
    positive scaling of its weights: for [a + b > 0] and [k > 0] the
    weights [k * a], [k * b] and the weights [a], [b] lead to the same
    [hybridSearch] call, with weights [a / (a + b)] and [b / (a + b)], and
    so to the same outcome; when [a + b <= 0] both weights passed on are
    0.5. On binary64, the numbers the code computes with, the invariance
    does not hold. The weights passed on for [k * a] and [k * b] are the
    quotients of these products, as computed, by their computed sum when
    that sum is positive, and 0.5 otherwise. They differ from the weights
    passed on for [a] and [b] in the last bit for [a = 0.3], [b = 0.6],
    [k = 10], and altogether for [a = 0.3], [b = 0.4] and [k] the least
    positive number: there both products are 0, so that both weights are
    0.5, against 0.43 and 0.57 without scaling. *)
#[warnings="-inexact-float"]
Theorem weightedSearch_scaling :
  (forall (q : string) (a b k : num) (o : options),
     (0 < a + b)%Qc -> (0 < k)%Qc ->
     weightedSearch_call q (k * a) (k * b) o = weightedSearch_call q a b o) /\
  (forall (q : string) (a b : num) (o : options),
     (0 < a + b)%Qc ->
     weightedSearch_call q a b o
     = (q, with_weights o (a / (a + b))%Qc (b / (a + b))%Qc)) /\
  (forall (q : string) (a b : num) (o : options),
     (a + b <= 0)%Qc ->
     weightedSearch_call q a b o
     = (q, with_weights o (Q2Qc (1 # 2)) (Q2Qc (1 # 2)))) /\
  (forall (server : api) (q : string) (a b k : num) (o : options),
     (0 < a + b)%Qc -> (0 < k)%Qc ->
     weightedSearch server q (k * a) (k * b) o = weightedSearch server q a b o) /\
  (forall (q : string) (a b : float) (o : options_of float),
     weightedSearch_call_binary64 q a b o
     = (q, if PrimFloat.ltb 0 (a + b)
           then with_weights o (a / (a + b))%float (b / (a + b))%float
           else with_weights o 0.5%float 0.5%float)) /\
  (forall (q : string) (a b k : float) (o : options_of float),
     weightedSearch_call_binary64 q (k * a) (k * b) o
     = (q, if PrimFloat.ltb 0 (k * a + k * b)
           then with_weights o (k * a / (k * a + k * b))%float
                  (k * b / (k * a + k * b))%float
           else with_weights o 0.5%float 0.5%float)) /\
  (forall (q : string) (o : options_of float),
     PrimFloat.ltb 0 (0.3 + 0.6) = true /\ PrimFloat.ltb 0 10 = true /\
     weightedSearch_call_binary64 q (10 * 0.3) (10 * 0.6) o
     = (q, with_weights o 0.33333333333333331%float 0.66666666666666663%float) /\
     weightedSearch_call_binary64 q 0.3 0.6 o
     = (q, with_weights o 0.33333333333333337%float 0.66666666666666674%float) /\
     weightedSearch_call_binary64 q (10 * 0.3) (10 * 0.6) o
     <> weightedSearch_call_binary64 q 0.3 0.6 o) /\
  (forall (q : string) (o : options_of float),
     PrimFloat.ltb 0 (0.3 + 0.4) = true /\ PrimFloat.ltb 0 0x1p-1074 = true /\
     weightedSearch_call_binary64 q (0x1p-1074 * 0.3) (0x1p-1074 * 0.4) o
     = (q, with_weights o 0.5%float 0.5%float) /\
     weightedSearch_call_binary64 q 0.3 0.4 o
     = (q, with_weights o 0.4285714285714286%float 0.57142857142857151%float) /\
     weightedSearch_call_binary64 q (0x1p-1074 * 0.3) (0x1p-1074 * 0.4) o
     <> weightedSearch_call_binary64 q 0.3 0.4 o).
Proof.
  assert (Hpos : forall (q : string) (a b : num) (o : options),
             (0 < a + b)%Qc ->
             weightedSearch_call q a b o
             = (q, with_weights o (a / (a + b))%Qc (b / (a + b))%Qc)).
  { intros q a b o H. unfold weightedSearch_call, weightedSearch_call_in.
    apply ltb_lt in H. now rewrite H. }
  assert (Hscale : forall (q : string) (a b k : num) (o : options),
             (0 < a + b)%Qc -> (0 < k)%Qc ->
             weightedSearch_call q (k * a) (k * b) o = weightedSearch_call q a b o).
  { intros q a b k o Hab Hk.
    assert (Hsum : (0 < k * a + k * b)%Qc).
    { replace (k * a + k * b)%Qc with ((a + b) * k)%Qc by ring.
      replace (Q2Qc 0) with (0 * k)%Qc by ring.
      now apply Qcmult_lt_compat_r. }
    rewrite (Hpos q (k * a)%Qc (k * b)%Qc o Hsum), (Hpos q a b o Hab).
    assert (Hab' : (a + b)%Qc <> Q2Qc 0).
    { intro E. rewrite E in Hab. now apply Qclt_not_eq in Hab. }
    assert (Hsum' : (k * a + k * b)%Qc <> Q2Qc 0).
    { intro E. rewrite E in Hsum. now apply Qclt_not_eq in Hsum. }
    f_equal. f_equal; field; split; assumption. }
  repeat apply conj.
  - exact Hscale.
  - exact Hpos.
  - intros q a b o H. unfold weightedSearch_call, weightedSearch_call_in.
    apply ltb_ge in H. now rewrite H.
  - intros server q a b k o Hab Hk. unfold weightedSearch.
    now rewrite (Hscale q a b k o Hab Hk).
  - intros q a b o. unfold weightedSearch_call_binary64, weightedSearch_call_in.
    now destruct (PrimFloat.ltb 0 (a + b)).
  - intros q a b k o. unfold weightedSearch_call_binary64, weightedSearch_call_in.
    now destruct (PrimFloat.ltb 0 (k * a + k * b)).
  - intros q o. unfold weightedSearch_call_binary64, weightedSearch_call_in.
    destruct scaling_binary64 as (P1 & P2 & S1 & E1 & E2 & E3 & E4 & _).
    split; [exact P1|]. split; [exact P2|]. rewrite S1, P1, E1, E2, E3, E4.
    split; [reflexivity|]. split; [reflexivity|]. intro H.
    apply (f_equal (fun c => match ftsWeight (snd c) with
                             | Some w => PrimFloat.eqb w 0x1.5555555555555p-2
                             | None => false
                             end)) in H.
    cbn [snd with_weights ftsWeight] in H. vm_compute in H. discriminate.
  - intros q o. unfold weightedSearch_call_binary64, weightedSearch_call_in.
    destruct scaling_binary64 as (_ & _ & _ & _ & _ & _ & _ & P3 & P4 & S2 & E5 & E6).
    split; [exact P3|]. split; [exact P4|]. rewrite S2, P3, E5, E6.
    split; [reflexivity|]. split; [reflexivity|]. intro H.
    apply (f_equal (fun c => match ftsWeight (snd c) with
                             | Some w => PrimFloat.eqb w 0.5
                             | None => false
                             end)) in H.
    cbn [snd with_weights ftsWeight] in H. vm_compute in H. discriminate.
Qed.

(* ------------------------------------------------------------------ *)
(** * Further properties of the search library *)

(** ** Rank scores *)

Module RankFacts.
Import JS.
Import Vite.
Import JSFacts.

Lemma Q2Qc_lt (x y : Q) : (x < y)%Q -> Q2Qc x < Q2Qc y.
Proof.
  intro H. unfold Qclt. cbn [this Q2Qc]. now rewrite !Qred_correct.
Qed.

Lemma Q2Qc_le (x y : Q) : (x <= y)%Q -> Q2Qc x <= Q2Qc y.
Proof.
  intro H. unfold Qcle. cbn [this Q2Qc]. now rewrite !Qred_correct.
Qed.

Lemma of_nat_lt (a b : nat) : (a < b)%nat -> of_nat a < of_nat b.
Proof.
  intro H. unfold of_nat. apply Q2Qc_lt. rewrite <- Zlt_Qlt. lia.
Qed.

Lemma of_nat_nonneg (a : nat) : 0 <= of_nat a.
Proof.
  unfold of_nat. apply (Q2Qc_le 0 (inject_Z (Z.of_nat a))).
  change (0%Q) with (inject_Z 0). rewrite <- Zle_Qle. lia.
Qed.

Lemma Qcinv_pos (x : Qc) : 0 < x -> 0 < / x.
Proof.
  intro Hx. destruct (Qclt_le_dec 0 (/ x)) as [H|H]; [exact H|].
  exfalso.
  assert (Hne : x <> 0) by (intro E; rewrite E in Hx; now apply Qclt_not_eq in Hx).
  assert (H1 : / x * x <= 0 * x)
    by (apply Qcmult_le_compat_r; [exact H | now apply Qclt_le_weak]).
  rewrite Qcmult_inv_l, Qcmult_0_l in H1 by exact Hne.
  revert H1. apply Qclt_not_le. reflexivity.
Qed.

(** [index / len] for a rank below the length. *)
Lemma ratio_bounds (index len : nat) :
  (index < len)%nat ->
  0 <= of_nat index / of_nat len /\ of_nat index / of_nat len < 1.
Proof.
  intro H.
  assert (Hlen : 0 < of_nat len).
  { apply Qcle_lt_trans with (of_nat index); [apply of_nat_nonneg | now apply of_nat_lt]. }
  assert (Hinv : 0 < / of_nat len) by now apply Qcinv_pos.
  assert (Hne : of_nat len <> 0)
    by (intro E; rewrite E in Hlen; now apply Qclt_not_eq in Hlen).
  unfold Qcdiv. split.
  - replace 0 with (0 * / of_nat len) by ring.
    apply Qcmult_le_compat_r; [apply of_nat_nonneg | now apply Qclt_le_weak].
  - replace 1 with (of_nat len * / of_nat len) by (now apply Qcmult_inv_r).
    apply Qcmult_lt_compat_r; [exact Hinv | now apply of_nat_lt].
Qed.

Lemma ratio_lt (i j len : nat) :
  (i < j)%nat -> (j < len)%nat -> of_nat i / of_nat len < of_nat j / of_nat len.
Proof.
  intros Hij Hj.
  assert (Hlen : 0 < of_nat len).
  { apply Qcle_lt_trans with (of_nat j); [apply of_nat_nonneg | now apply of_nat_lt]. }
  unfold Qcdiv. apply Qcmult_lt_compat_r; [now apply Qcinv_pos | now apply of_nat_lt].
Qed.

Lemma rank_score_eq (index len : nat) :
  (index < len)%nat -> rank_score index len = 1 - of_nat index / of_nat len.
Proof.
  intro H. unfold rank_score, Math_max.
  destruct (ratio_bounds index len H) as [_ Hlt].
  assert (Hpos : 0 < 1 - of_nat index / of_nat len).
  { apply Qclt_minus_iff in Hlt. exact Hlt. }
  apply ltb_lt in Hpos. now rewrite Hpos.
Qed.

Lemma rank_score_decreasing (i j len : nat) :
  (i < j)%nat -> (j < len)%nat -> rank_score j len < rank_score i len.
Proof.
  intros Hij Hj. rewrite !rank_score_eq by lia.
  pose proof (ratio_lt i j len Hij Hj) as H. apply Qclt_minus_iff in H.
  apply Qclt_minus_iff.
  replace (1 - of_nat i / of_nat len + - (1 - of_nat j / of_nat len))
    with (of_nat j / of_nat len + - (of_nat i / of_nat len)) by ring.
  exact H.
Qed.

Lemma rank_score_range (index len : nat) :
  (index < len)%nat -> 0 < rank_score index len /\ rank_score index len <= 1.
Proof.
  intro H. rewrite rank_score_eq by exact H.
  destruct (ratio_bounds index len H) as [Hge Hlt]. split.
  - apply Qclt_minus_iff in Hlt. exact Hlt.
  - apply Qcle_minus_iff.
    replace (1 + - (1 - of_nat index / of_nat len))
      with (of_nat index / of_nat len) by ring.
    exact Hge.
Qed.

End RankFacts.

(** ** Order of the fused results *)

Module OrderFacts.
Import JS.
Import Vite.
Import Spec.
Import MoreSpec.
Import JSFacts.
Import FusionFacts.
Import RankFacts.

Lemma scored_eq (s : num) (e : result) : scored s e = true <-> hybrid_score e = s.
Proof.
  unfold scored. rewrite (Qceq_alt (hybrid_score e) s).
  destruct (hybrid_score e ?= s); split; congruence.
Qed.

Lemma sort_insert_filter (s : num) (x : result) (l : list result) :
  filter (scored s) (sort_insert by_hybrid_desc x l) = filter (scored s) (x :: l).
Proof.
  induction l as [|y l IH]; [reflexivity|].
  cbn [sort_insert]. destruct (ltb 0 (by_hybrid_desc x y)) eqn:E; [|reflexivity].
  apply ltb_lt in E. unfold by_hybrid_desc in E. apply Qclt_minus_iff in E.
  cbn [filter] in *. rewrite IH.
  destruct (scored s x) eqn:Sx, (scored s y) eqn:Sy; try reflexivity.
  apply scored_eq in Sx. apply scored_eq in Sy. rewrite Sx, Sy in E.
  exfalso. revert E. apply Qcle_not_lt, Qcle_refl.
Qed.

Lemma sort_filter (s : num) (l : list result) :
  filter (scored s) (sort by_hybrid_desc l) = filter (scored s) l.
Proof.
  induction l as [|x l IH]; [reflexivity|].
  cbn [sort]. rewrite sort_insert_filter. cbn [filter]. now rewrite IH.
Qed.

(** Sorting a list that is in descending order changes nothing. *)
Lemma sort_sorted (l : list result) :
  StronglySorted hybrid_desc l -> sort by_hybrid_desc l = l.
Proof.
  induction l as [|x l IH]; intro S; [reflexivity|].
  inversion S as [|? ? S' F]; subst. cbn [sort]. rewrite (IH S').
  destruct l as [|y l]; [reflexivity|].
  cbn [sort_insert]. inversion F as [|? ? Hxy _]; subst. unfold hybrid_desc in Hxy.
  assert (E : ltb 0 (by_hybrid_desc x y) = false).
  { apply ltb_ge. unfold by_hybrid_desc. apply Qcle_minus_iff.
    replace (0 + - (hybrid_score y - hybrid_score x))
      with (hybrid_score x + - hybrid_score y) by ring.
    apply Qcle_minus_iff in Hxy. exact Hxy. }
  now rewrite E.
Qed.

Lemma map_has_existsb {V} (k : ident) (m : jsmap V) :
  map_has k m = existsb (ident_eqb k) (map_keys m).
Proof.
  induction m as [|[k' v] m IH]; [reflexivity|]. simpl.
  destruct (ident_eqb k k'); [reflexivity | exact IH].
Qed.

Lemma map_set_absent {V} (k : ident) (v : V) (m : jsmap V) :
  map_has k m = false -> map_set k v m = m ++ [(k, v)].
Proof.
  induction m as [|[k' v'] m IH]; [reflexivity|]. simpl.
  destruct (ident_eqb k k'); [discriminate|]. intro H. now rewrite IH.
Qed.

Lemma seed_fts_keys wl len L : forall index M,
  map_keys (seed_fts wl len index L M) = fold_left add_key (List.map r_id L) (map_keys M).
Proof.
  induction L as [|x L IH]; intros index M; [reflexivity|].
  cbn [seed_fts List.map fold_left]. rewrite IH, map_keys_set, map_has_existsb.
  reflexivity.
Qed.

Lemma merge_vector_keys wl wv M v :
  map_keys (merge_vector wl wv M v) = add_key (map_keys M) (r_id v).
Proof.
  unfold merge_vector, add_key. rewrite <- map_has_existsb.
  destruct (map_has (r_id v) M) eqn:E.
  - apply map_keys_mutate.
  - now rewrite map_keys_set, E.
Qed.

Lemma merged_map_keys L V wl wv :
  map_keys (merged_map L V wl wv) = first_seen (List.map r_id L ++ List.map r_id V).
Proof.
  unfold merged_map, first_seen. rewrite fold_left_app.
  assert (H0 : map_keys (seed_fts wl (List.length L) 0 L [])
               = fold_left add_key (List.map r_id L) [])
    by apply (seed_fts_keys wl (List.length L) L 0 []).
  rewrite <- H0. clear H0.
  generalize (seed_fts wl (List.length L) 0 L []).
  induction V as [|v V IH]; intro M; [reflexivity|].
  cbn [fold_left List.map]. rewrite IH, merge_vector_keys. reflexivity.
Qed.

Lemma existsb_absent (k : ident) (ks : list ident) :
  ~ In k ks -> existsb (ident_eqb k) ks = false.
Proof.
  intro H. destruct (existsb (ident_eqb k) ks) eqn:E; [|reflexivity].
  apply existsb_exists in E. destruct E as [k' [Hin Heq]].
  apply ident_eqb_eq in Heq. subst. contradiction.
Qed.

Lemma fold_add_key_nodup (l : list ident) : forall ks,
  NoDup (ks ++ l) -> fold_left add_key l ks = ks ++ l.
Proof.
  induction l as [|k l IH]; intros ks ND; cbn [fold_left].
  - now rewrite app_nil_r.
  - assert (Hk : ~ In k ks).
    { intro Hin. apply NoDup_remove_2 in ND. apply ND. apply in_or_app. now left. }
    unfold add_key at 2. rewrite (existsb_absent k ks Hk).
    rewrite IH; rewrite <- app_assoc; [reflexivity | exact ND].
Qed.

Lemma first_seen_nodup (l : list ident) : NoDup l -> first_seen l = l.
Proof. intro ND. unfold first_seen. now rewrite fold_add_key_nodup. Qed.

Lemma sorted_by_index {A} (R : A -> A -> Prop) (l : list A) :
  (forall i j a b, (i < j)%nat -> nth_error l i = Some a -> nth_error l j = Some b ->
                   R a b) ->
  StronglySorted R l.
Proof.
  induction l as [|x l IH]; intro H; constructor.
  - apply IH. intros i j a b Hij Ha Hb. apply (H (S i) (S j)); [lia | exact Ha | exact Hb].
  - apply Forall_forall. intros y Hy. apply In_nth_error in Hy. destruct Hy as [n Hn].
    apply (H 0%nat (S n)); [lia | reflexivity | exact Hn].
Qed.

(** The entry at position [r] of the map's values, when ids do not repeat
    across the two lists. *)
Lemma merged_values_nth L V wl wv r e :
  NoDup (List.map r_id L ++ List.map r_id V) ->
  nth_error (map_values (merged_map L V wl wv)) r = Some e ->
  nth_error (List.map r_id L ++ List.map r_id V) r = Some (id e) /\
  entry_ok L V wl wv (id e) e.
Proof.
  intros ND Hn. split.
  - rewrite <- (first_seen_nodup _ ND), <- (merged_map_keys L V wl wv),
      <- (merged_values_ids L V wl wv).
    rewrite nth_error_map, Hn. reflexivity.
  - apply nth_error_In in Hn. unfold map_values in Hn. apply in_map_iff in Hn.
    destruct Hn as [[k e'] [<- Hin]]. cbn [snd].
    apply In_map_get in Hin; [|apply merged_map_nodup].
    pose proof (merged_map_get L V wl wv k) as G. rewrite Hin in G.
    destruct G as [Hid G]. rewrite Hid. split; [exact Hid | exact G].
Qed.

End OrderFacts.

Import MoreSpec.
Import RankFacts.
Import OrderFacts.

(** X1. Rank scores. For a rank below the number of matches the rank score
    [max(0, 1 - index/length)] is [1 - index/length]: it lies in (0, 1],
    the first rank scores 1, and a later rank scores strictly less. The
    maximum with 0 never takes effect. *)
Theorem rank_score_in_unit_interval (index len : nat) :
  (index < len)%nat ->
  rank_score index len = 1 - of_nat index / of_nat len /\
  0 < rank_score index len /\ rank_score index len <= 1 /\
  rank_score 0 len = 1 /\
  (forall later, (index < later)%nat -> (later < len)%nat ->
                 rank_score later len < rank_score index len).
Proof.
  intro H. split; [now apply rank_score_eq|].
  destruct (rank_score_range index len H) as [Hpos Hle].
  split; [exact Hpos|]. split; [exact Hle|]. split.
  - rewrite rank_score_eq by lia.
    replace (of_nat 0) with (Q2Qc 0) by (apply Qc_is_canon; reflexivity).
    unfold Qcdiv. ring.
  - intros later H1 H2. now apply rank_score_decreasing.
Qed.

(** X1 on the second of four matches: the score is 3/4. *)
Lemma rank_score_in_unit_interval_witness :
  (1 < 4)%nat /\ rank_score 1 4 = Q2Qc (3 # 4).
Proof.
  split; [lia|].
  destruct (rank_score_in_unit_interval 1 4 ltac:(lia)) as [-> _].
  apply Qc_is_canon. reflexivity.
Defined.

Lemma sorted_index {A} (R : A -> A -> Prop) (l : list A) :
  StronglySorted R l ->
  forall i j a b, (i < j)%nat -> nth_error l i = Some a -> nth_error l j = Some b -> R a b.
Proof.
  induction 1 as [|x l S IH F]; intros i j a b Hij Ha Hb.
  - destruct i; discriminate.
  - destruct j as [|j]; [lia|]. cbn [nth_error] in Hb.
    destruct i as [|i]; cbn [nth_error] in Ha.
    + injection Ha as <-. rewrite Forall_forall in F. apply F.
      eapply nth_error_In; eassumption.
    + apply (IH i j); [lia | assumption | assumption].
Qed.

Lemma nth_error_map_inv {A B} (f : A -> B) (l : list A) (n : nat) (y : B) :
  nth_error (List.map f l) n = Some y -> exists x, nth_error l n = Some x /\ f x = y.
Proof.
  rewrite nth_error_map. destruct (nth_error l n) as [x|]; [|discriminate].
  intros [= <-]. now exists x.
Qed.

(** X2. Lexical matches only. When there is no vector match, the lexical
    ids do not repeat and the lexical weight is not negative, the fused
    output is the lexical list in its own order: the result at rank [r]
    has the id of the match at rank [r], lexical score
    [max(0, 1 - r/N)], vector score 0 and hybrid score [wl] times the
    lexical score. Two empty lists give an empty output. *)
Theorem mergeAndScore_lexical_only (L : list row) (wl wv : num) :
  NoDup (List.map r_id L) -> 0 <= wl ->
  List.map id (mergeAndScore L [] wl wv) = List.map r_id L /\
  (forall r e, nth_error (mergeAndScore L [] wl wv) r = Some e ->
     fts_score e = rank_score r (List.length L) /\
     vector_score e = 0 /\
     hybrid_score e = wl * rank_score r (List.length L)) /\
  mergeAndScore [] [] wl wv = [].
Proof.
  intros ND Hwl.
  assert (ND' : NoDup (List.map r_id L ++ List.map r_id (@nil row)))
    by (cbn [List.map]; now rewrite app_nil_r).
  assert (Hentry : forall r e,
             nth_error (map_values (merged_map L [] wl wv)) r = Some e ->
             (r < List.length L)%nat /\
             fts_score e = rank_score r (List.length L) /\
             vector_score e = 0 /\
             hybrid_score e = wl * rank_score r (List.length L)).
  { intros r e Hn.
    destruct (merged_values_nth L [] wl wv r e ND' Hn) as [Hid Hok].
    cbn [List.map] in Hid. rewrite app_nil_r in Hid.
    apply nth_error_map_inv in Hid. destruct Hid as [m [Hm Hidm]].
    pose proof (@last_with_id_fts L r m 0 (@last_with_id_NoDup L r m ND Hm)) as Hl.
    cbn [Nat.add] in Hl. rewrite Hidm in Hl.
    destruct Hok as (_ & Hf & Hv & Hh & _).
    rewrite Hl in Hf. cbn in Hv.
    split; [apply nth_error_Some; congruence|].
    split; [exact Hf|]. split; [exact Hv|].
    rewrite Hh, Hf, Hv. ring. }
  assert (Hsorted : sort by_hybrid_desc (map_values (merged_map L [] wl wv))
                    = map_values (merged_map L [] wl wv)).
  { apply sort_sorted, sorted_by_index. intros i j a b Hij Ha Hb.
    destruct (Hentry i a Ha) as (_ & _ & _ & Hha).
    destruct (Hentry j b Hb) as (Hj & _ & _ & Hhb).
    unfold hybrid_desc. rewrite Hha, Hhb, !(Qcmult_comm wl).
    apply Qcmult_le_compat_r; [|exact Hwl].
    apply Qclt_le_weak. now apply rank_score_decreasing. }
  unfold mergeAndScore at 1 2. rewrite Hsorted. repeat split.
  - rewrite merged_values_ids, merged_map_keys, (first_seen_nodup _ ND').
    cbn [List.map]. now rewrite app_nil_r.
  - apply (Hentry r e H).
  - apply (Hentry r e H).
  - apply (Hentry r e H).
Qed.

(** X2 on three lexical matches: the output keeps their order, and the
    second one has rank score [1 - 1/3] and vector score 0. *)
Lemma mergeAndScore_lexical_only_witness :
  let L := [passage 4 "AI is..." None; passage 2 "AI was..." None;
            passage 9 "AI will be..." None] in
  let out := mergeAndScore L [] (Q2Qc (1 # 2)) (Q2Qc (1 # 2)) in
  List.map id out = [IdNum 4; IdNum 2; IdNum 9] /\
  (forall e, nth_error out 1 = Some e ->
     fts_score e = rank_score 1 3 /\ vector_score e = 0 /\
     hybrid_score e = Q2Qc (1 # 2) * rank_score 1 3).
Proof.
  intros L out.
  assert (ND : NoDup (List.map r_id L))
    by (repeat constructor; simpl; intuition discriminate).
  assert (Hw : 0 <= Q2Qc (1 # 2)) by discriminate.
  destruct (mergeAndScore_lexical_only L (Q2Qc (1 # 2)) (Q2Qc (1 # 2)) ND Hw)
    as (Hids & Hscores & _).
  split; [exact Hids|]. intros e He. exact (Hscores 1%nat e He).
Defined.

(** X3. Vector matches only. When there is no lexical match, the vector
    ids do not repeat, the vector weight is not negative and the vector
    matches come in descending order of similarity (as the similarity
    functions return them), the fused output is the vector list in its
    own order: the result at position [j] has the id of the [j]-th match,
    lexical score 0, its similarity ([0] when absent) as vector score and
    hybrid score [wv] times it. *)
Theorem mergeAndScore_vector_only (V : list row) (wl wv : num) :
  NoDup (List.map r_id V) -> 0 <= wv -> StronglySorted similarity_desc V ->
  List.map id (mergeAndScore [] V wl wv) = List.map r_id V /\
  (forall j e, nth_error (mergeAndScore [] V wl wv) j = Some e ->
     exists v, nth_error V j = Some v /\
       fts_score e = 0 /\
       vector_score e = or_num (r_similarity v) 0 /\
       hybrid_score e = wv * or_num (r_similarity v) 0).
Proof.
  intros ND Hwv HV.
  assert (ND' : NoDup (List.map r_id (@nil row) ++ List.map r_id V)) by exact ND.
  assert (Hentry : forall j e,
             nth_error (map_values (merged_map [] V wl wv)) j = Some e ->
             exists v, nth_error V j = Some v /\
               fts_score e = 0 /\
               vector_score e = or_num (r_similarity v) 0 /\
               hybrid_score e = wv * or_num (r_similarity v) 0).
  { intros j e Hn.
    destruct (merged_values_nth [] V wl wv j e ND' Hn) as [Hid Hok].
    cbn [List.map app] in Hid.
    apply nth_error_map_inv in Hid. destruct Hid as [v [Hv Hidv]].
    pose proof (@last_with_id_vec V j v (@last_with_id_NoDup V j v ND Hv)) as Hl.
    rewrite Hidv in Hl.
    destruct Hok as (_ & Hf & Hvs & Hh & _).
    rewrite Hl in Hvs. cbn in Hf.
    exists v. split; [exact Hv|]. split; [exact Hf|]. split; [exact Hvs|].
    rewrite Hh, Hf, Hvs. ring. }
  assert (Hsorted : sort by_hybrid_desc (map_values (merged_map [] V wl wv))
                    = map_values (merged_map [] V wl wv)).
  { apply sort_sorted, sorted_by_index. intros i j a b Hij Ha Hb.
    destruct (Hentry i a Ha) as (va & Hva & _ & _ & Hha).
    destruct (Hentry j b Hb) as (vb & Hvb & _ & _ & Hhb).
    unfold hybrid_desc. rewrite Hha, Hhb, !(Qcmult_comm wv).
    apply Qcmult_le_compat_r; [|exact Hwv].
    apply (sorted_index similarity_desc V HV i j va vb Hij Hva Hvb). }
  unfold mergeAndScore. rewrite Hsorted. split.
  - rewrite merged_values_ids, merged_map_keys, (first_seen_nodup _ ND').
    reflexivity.
  - exact Hentry.
Qed.

(** X3 on Scenario A's vector list. *)
Lemma mergeAndScore_vector_only_witness :
  List.map id (mergeAndScore [] scenarioA_vector (Q2Qc (1 # 2)) (Q2Qc (1 # 2)))
  = [IdNum 1; IdNum 2].
Proof.
  assert (ND : NoDup (List.map r_id scenarioA_vector)).
  { repeat constructor; simpl; intuition discriminate. }
  assert (Hw : 0 <= Q2Qc (1 # 2)) by discriminate.
  assert (HV : StronglySorted similarity_desc scenarioA_vector).
  { repeat constructor. unfold similarity_desc. discriminate. }
  destruct (mergeAndScore_vector_only scenarioA_vector (Q2Qc (1 # 2)) (Q2Qc (1 # 2))
              ND Hw HV) as [H _].
  exact H.
Defined.

(** X4. Ties. Sorting is stable: the results that share a hybrid score
    come out in the order in which the [Map] holds them, and the [Map]
    holds the ids of the lexical list followed by those of the vector
    list, each at its first occurrence. *)
Theorem mergeAndScore_ties_keep_map_order (L V : list row) (wl wv : num) :
  (forall s, filter (scored s) (mergeAndScore L V wl wv)
             = filter (scored s) (map_values (merged_map L V wl wv))) /\
  List.map id (map_values (merged_map L V wl wv))
  = first_seen (List.map r_id L ++ List.map r_id V) /\
  (forall s e, scored s e = true <-> hybrid_score e = s).
Proof.
  split; [|split].
  - intro s. apply sort_filter.
  - rewrite merged_values_ids. apply merged_map_keys.
  - apply scored_eq.
Qed.

(** ** Outcomes and requests of the cascade *)

Module CascadeMore.
Import JS.
Import Vite.
Import Spec.
Import JSFacts.
Import CascadeFacts.

Lemma sorted_app {A} (R : A -> A -> Prop) (a b : list A) :
  StronglySorted R (a ++ b) ->
  StronglySorted R a /\ forall x y, In x a -> In y b -> R x y.
Proof.
  induction a as [|h a IH]; cbn [app]; intro S.
  - split; [constructor | intros x y []].
  - inversion S as [|? ? S' F]; subst. destruct (IH S') as [Sa Hab]. split.
    + constructor; [exact Sa|]. apply Forall_forall. intros z Hz.
      rewrite Forall_forall in F. apply F. apply in_or_app. now left.
    + intros x y [<-|Hx] Hy.
      * rewrite Forall_forall in F. apply F. apply in_or_app. now right.
      * now apply Hab.
Qed.

(** The first [lim] of the fused results. *)
Lemma top_of_merge (L V : list row) (wl wv : num) (lim : nat) :
  let kept := firstn lim (mergeAndScore L V wl wv) in
  let dropped := skipn lim (mergeAndScore L V wl wv) in
  mergeAndScore L V wl wv = kept ++ dropped /\
  (List.length kept <= lim)%nat /\
  (dropped <> [] -> List.length kept = lim) /\
  NoDup (List.map id kept) /\
  StronglySorted hybrid_desc kept /\
  (forall r d, In r kept -> In d dropped -> (hybrid_score d <= hybrid_score r)%Qc).
Proof.
  intros kept dropped.
  assert (Happ : mergeAndScore L V wl wv = kept ++ dropped)
    by (symmetry; apply firstn_skipn).
  pose proof (FusionFacts.sort_desc
                (map_values (merged_map L V wl wv))) as S.
  fold (mergeAndScore L V wl wv) in S. rewrite Happ in S.
  destruct (sorted_app hybrid_desc kept dropped S) as [Sk Hkd].
  pose proof (FusionFacts.mergeAndScore_ids_nodup L V wl wv) as ND.
  rewrite Happ, map_app in ND. apply NoDup_app_remove_r in ND.
  split; [exact Happ|]. split; [apply firstn_le_length|]. split.
  - intro Hd. subst kept dropped. apply firstn_length_le.
    destruct (Nat.le_gt_cases lim (List.length (mergeAndScore L V wl wv))) as [Hle|Hgt];
      [exact Hle|].
    exfalso. apply Hd. apply skipn_all2. lia.
  - split; [exact ND|]. split; [exact Sk|].
    intros r d Hr Hd. apply (Hkd r d Hr Hd).
Qed.

End CascadeMore.

Import CascadeMore.

(** X5. The best results. On the merging path [hybridSearch] returns the
    first [limit] (10 by default) of the fusion of the rows this run
    obtained: the rows of the lexical executor (those of the document
    fallback when it returned none) and the rows of the vector executor for
    the embedding returned, each asked for twice the limit. So there are at
    most [limit] results, [total] is their number, no id occurs twice, they
    are in descending order of hybrid score, every fused result that was
    left out scores no more than any that was returned, and when something
    was left out exactly [limit] results are returned. *)
Theorem hybridSearch_returns_top_results (e : env) (q : string) (o : options) :
  method (fst (hybridSearch e q o)) = Some "javascript_merge"%string ->
  let out := fst (hybridSearch e q o) in
  let lim := or_default (limit o) 10%nat in
  exists v log,
    generateQueryEmbedding e q [] = (Returned v, log) /\
    let lexical := if (List.length (lexical_rows e q o (lim * 2)) =? 0)%nat
                   then document_rows e q o (lim * 2)
                   else lexical_rows e q o (lim * 2) in
    let fused := mergeAndScore lexical (vector_rows e v o (lim * 2))
                   (or_default (ftsWeight o) (Q2Qc (1 # 2)))
                   (or_default (vectorWeight o) (Q2Qc (1 # 2))) in
    let dropped := skipn lim fused in
    results out = firstn lim fused /\
    fused = results out ++ dropped /\
    (List.length (results out) <= lim)%nat /\
    total out = List.length (results out) /\
    NoDup (List.map id (results out)) /\
    StronglySorted hybrid_desc (results out) /\
    (dropped <> [] -> List.length (results out) = lim) /\
    (forall r d, In r (results out) -> In d dropped ->
                 hybrid_score d <= hybrid_score r).
Proof.
  rewrite hybridSearch_cascade. unfold cascade.
  destruct (String.length (trim q) =? 0)%nat; [discriminate|].
  destruct (generateQueryEmbedding e q []) as [[v|message] log].
  - destruct (or_default (useSupabaseFunction o) true).
    + destruct (hybrid_function e v q _ _); discriminate.
    + intros _. exists v, log. split; [reflexivity|]. cbv zeta.
      destruct (List.length (lexical_rows e q o (or_default (limit o) 10%nat * 2)) =? 0)%nat;
        cbn [fst results total found_outcome];
        match goal with
        | |- context [mergeAndScore ?L ?V ?wl ?wv] =>
            destruct (top_of_merge L V wl wv (or_default (limit o) 10%nat))
              as (Happ & Hlen & Hfull & ND & S & Hdrop)
        end;
        (split; [reflexivity|]); (split; [exact Happ|]); (split; [exact Hlen|]);
        (split; [reflexivity|]); (split; [exact ND|]); (split; [exact S|]);
        (split; [exact Hfull | exact Hdrop]).
  - destruct (or_default (fallbackToFTSOnly o) true).
    + destruct (_ =? 0)%nat; cbn [fst method fallback_outcome found_outcome];
        destruct (0 <? _)%nat; discriminate.
    + discriminate.
Qed.

(** X5 with limit 2 and three fused results: two are returned, ids 1 and 3. *)
Lemma hybridSearch_returns_top_results_witness :
  let e := world (Some "sk"%string) embedded
             (Data [passage 1 "AI is..." None; passage 2 "AI was..." None])
             NoData
             (Data [passage 3 "Neural networks" (Some (Q2Qc (9 # 10)))]) NoData in
  let o := {| documentId := None; limit := Some 2%nat; ftsWeight := None;
              vectorWeight := None; useSupabaseFunction := Some false;
              fallbackToFTSOnly := None |} in
  List.map id (results (fst (hybridSearch e "ai" o))) = [IdNum 1; IdNum 3] /\
  (List.length (results (fst (hybridSearch e "ai" o))) <= 2)%nat.
Proof.
  intros e o. split; [reflexivity|].
  destruct (hybridSearch_returns_top_results e "ai"%string o eq_refl)
    as (v & log & _ & _ & _ & Hlen & _).
  exact Hlen.
Defined.

(** X6. Counts. In every outcome of [hybridSearch], [total] is the number
    of results; a failure carries none; results of the SQL hybrid function
    are cut to [limit]; and when embedding failed the results are as many
    as the rows the lexical executor returned, or, if it returned none, as
    the documents that matched: they are not cut to [limit] again. *)
Theorem hybridSearch_counts (e : env) (q : string) (o : options) :
  let out := fst (hybridSearch e q o) in
  let lim := or_default (limit o) 10%nat in
  total out = List.length (results out) /\
  (success out = false -> results out = []) /\
  (method out = Some "supabase_function"%string ->
   (List.length (results out) <= lim)%nat) /\
  (method out = Some "document_search_fallback"%string ->
   total out = List.length (lexical_rows e q o lim) \/
   (lexical_rows e q o lim = [] /\ total out = List.length (document_rows e q o lim))).
Proof.
  rewrite hybridSearch_cascade. unfold cascade.
  destruct (String.length (trim q) =? 0)%nat.
  { cbn. repeat split; discriminate. }
  destruct (generateQueryEmbedding e q []) as [[v|message] log].
  - destruct (or_default (useSupabaseFunction o) true).
    + destruct (hybrid_function e v q _ _); cbn [fst total results success method
                                                  found_outcome error_outcome];
        (split; [reflexivity|]); (split; [try discriminate; reflexivity|]);
        (split; [|discriminate]); try discriminate; intros _; apply firstn_le_length.
    + destruct (_ =? 0)%nat; cbn [fst total results success method found_outcome];
        repeat split; discriminate.
  - destruct (or_default (fallbackToFTSOnly o) true).
    + destruct (_ =? 0)%nat eqn:E;
        cbn [fst total results success method found_outcome fallback_outcome];
        (split; [reflexivity|]); (split; [discriminate|]);
        (split; [destruct (0 <? _)%nat; discriminate|]); intros _.
      * right. split; [now apply length_zero_nil|].
        now destruct (format_fallback_ids (List.length (document_rows e q o
                        (or_default (limit o) 10%nat)))
                        (document_rows e q o (or_default (limit o) 10%nat)) 0)
          as (_ & _ & ->).
      * left.
        now destruct (format_fallback_ids (List.length (lexical_rows e q o
                        (or_default (limit o) 10%nat)))
                        (lexical_rows e q o (or_default (limit o) 10%nat)) 0)
          as (_ & _ & ->).
    + cbn. repeat split; discriminate.
Qed.

(** X7. Requests. One search issues at most four requests. The embedding
    service is asked with the trimmed query, the text store with the query
    as given and the scope [documentId]. The vector executor and the SQL
    hybrid function are asked only after the embedding service was, as the
    first request; and a search that asks the SQL hybrid function asks
    nothing else but the embedding service. *)
Theorem hybridSearch_requests (e : env) (q : string) (o : options) :
  let log := snd (hybridSearch e q o) in
  (List.length log <= 4)%nat /\
  (forall input, In (CallEmbedding input) log -> input = trim q) /\
  (forall q' s l, In (CallFTS q' s l) log ->
                  q' = q /\ s = scope_of (documentId o)) /\
  (forall v s l, In (CallVector v s l) log ->
                 hd_error log = Some (CallEmbedding (trim q))) /\
  (forall name l, In (CallHybridRpc name l) log ->
                  log = [CallEmbedding (trim q); CallHybridRpc name l]).
Proof.
  cbv zeta. rewrite hybridSearch_cascade. unfold cascade.
  destruct (String.length (trim q) =? 0)%nat.
  { cbn. repeat split; try lia; intros; contradiction. }
  destruct (generateQueryEmbedding e q []) as [[v|message] log] eqn:Hgen.
  - apply generateQueryEmbedding_returned in Hgen. destruct Hgen as [-> _].
    destruct (or_default (useSupabaseFunction o) true).
    + destruct (hybrid_function e v q _ _); cbn [snd app];
        repeat split; try (cbn; lia); intros; in_cases;
          try (injection H as <-; reflexivity);
          try (injection H as <- <-; reflexivity).
    + destruct (_ =? 0)%nat; cbn [snd app];
        repeat split; try (cbn; lia); intros; in_cases;
          try (injection H as <-; reflexivity);
          try (injection H as <- <- <-; split; reflexivity).
  - apply generateQueryEmbedding_log in Hgen. cbn [app] in Hgen.
    destruct (or_default (fallbackToFTSOnly o) true).
    + destruct (_ =? 0)%nat; cbn [snd]; destruct Hgen as [->| ->]; cbn [app];
        repeat split; try (cbn; lia); intros; in_cases;
          try (injection H as <-; reflexivity);
          try (injection H as <- <- <-; split; reflexivity).
    + cbn [snd]. destruct Hgen as [->| ->];
        repeat split; try (cbn; lia); intros; in_cases;
          try (injection H as <-; reflexivity).
Qed.

Lemma prefix_append (s t : string) : String.prefix s (s ++ t) = true.
Proof.
  induction s as [|c s IH]; cbn.
  - now destruct t.
  - destruct (Ascii.ascii_dec c c); [exact IH | congruence].
Qed.

(** X8. The embedding client. Without a credential (absent or empty key)
    it throws the configuration message and asks nothing. With one it asks
    the embeddings endpoint exactly once, with the trimmed query. For an ok
    response whose first data item can be read it returns that item's
    [embedding] field as it is: the vector, or [undefined] when the item
    has no such field, without throwing. Every other answer (rejected
    request, non-success status, a body that cannot be read) throws a
    message that starts with [Failed to generate query embedding: ]. *)
Theorem generateQueryEmbedding_errors (e : env) (q : string) (log : list call) :
  (OPENAI_API_KEY e = None \/ OPENAI_API_KEY e = Some EmptyString ->
   generateQueryEmbedding e q log
   = (Thrown "OpenAI API key not configured. Set VITE_OPENAI_API_KEY in your .env file.",
      log)) /\
  (forall key, OPENAI_API_KEY e = Some key -> key <> EmptyString ->
     snd (generateQueryEmbedding e q log) = log ++ [CallEmbedding (trim q)] /\
     (forall statusText errorMessage embedding,
        embeddings_endpoint e (trim q)
        = FetchResponse true statusText errorMessage (Field embedding) ->
        fst (generateQueryEmbedding e q log) = Returned embedding) /\
     match fst (generateQueryEmbedding e q log) with
     | Returned v =>
         exists statusText errorMessage,
           embeddings_endpoint e (trim q)
           = FetchResponse true statusText errorMessage (Field v)
     | Thrown message =>
         String.prefix "Failed to generate query embedding: " message = true
     end).
Proof.
  split.
  - intros [H|H]; unfold generateQueryEmbedding; rewrite H; reflexivity.
  - intros key Hkey Hne. unfold generateQueryEmbedding. rewrite Hkey.
    assert (Hn : nonempty key = true) by (destruct key; [congruence | reflexivity]).
    rewrite Hn. unfold try_catch, bind, request, ret, throw.
    destruct (embeddings_endpoint e (trim q)) as [m|[|] st em [m|v]];
      cbn [fst snd]; (split; [reflexivity|]);
      (split; [intros st' em' v' [=]; subst; reflexivity|]);
      try apply prefix_append.
    exists st, em. reflexivity.
Qed.

(** X9. Fallback disabled. For a non-empty query, when the embedding client
    throws and the caller passed [fallbackToFTSOnly: false], the search
    fails with the client's message, no results and total 0, and no store
    is asked: the only request, if any, is the one to the embedding
    service. *)
Theorem embedding_failure_without_fallback (e : env) (q : string) (o : options)
    (message : string) (log : list call) :
  trim q <> EmptyString ->
  generateQueryEmbedding e q [] = (Thrown message, log) ->
  fallbackToFTSOnly o = Some false ->
  success (fst (hybridSearch e q o)) = false /\
  error (fst (hybridSearch e q o)) = Some message /\
  results (fst (hybridSearch e q o)) = [] /\
  total (fst (hybridSearch e q o)) = 0%nat /\
  snd (hybridSearch e q o) = log /\
  (log = [] \/ log = [CallEmbedding (trim q)]).
Proof.
  intros Hq Hgen Hfb. rewrite hybridSearch_cascade. unfold cascade.
  assert (Hlen : (String.length (trim q) =? 0)%nat = false)
    by (destruct (trim q); [congruence | reflexivity]).
  rewrite Hlen, Hgen, Hfb. cbn. repeat split.
  apply generateQueryEmbedding_log in Hgen. exact Hgen.
Qed.

(** X9 without credential. *)
Lemma embedding_failure_without_fallback_witness :
  let e := world None embedded (Data [passage 1 "AI is..." None]) NoData NoData NoData in
  snd (hybridSearch e "ai" no_fallback) = [] /\
  success (fst (hybridSearch e "ai" no_fallback)) = false.
Proof.
  pose (e := world None embedded (Data [passage 1 "AI is..." None]) NoData NoData NoData).
  assert (H1 : trim "ai"%string <> EmptyString) by discriminate.
  assert (H2 : generateQueryEmbedding e "ai" []
               = (Thrown "OpenAI API key not configured. Set VITE_OPENAI_API_KEY in your .env file.",
                  [])) by reflexivity.
  destruct (embedding_failure_without_fallback e "ai"%string no_fallback _ _ H1 H2 eq_refl)
    as (Hs & _ & _ & _ & Hl & _).
  split; [exact Hl | exact Hs].
Defined.

(** X10. A failing SQL hybrid function. With [useSupabaseFunction] left on
    (the default), when the embedding succeeded and the SQL hybrid function
    answers with an error, the handler's assignment to the constant
    [useSupabaseFunction] throws: the search fails with that [TypeError]'s
    message and the JavaScript merging is not reached, no text, document
    or vector request is issued. An answer without data is a success with
    no results. *)
Theorem sql_function_failure_is_fatal (e : env) (q : string) (o : options)
    (v : embedding_value) (log : list call) :
  trim q <> EmptyString ->
  generateQueryEmbedding e q [] = (Returned v, log) ->
  or_default (useSupabaseFunction o) true = true ->
  let answer := hybrid_function e v q (scope_of (documentId o))
                  (or_default (limit o) 10%nat) in
  snd (hybridSearch e q o)
  = [CallEmbedding (trim q);
     CallHybridRpc (hybrid_function_name o) (or_default (limit o) 10%nat)] /\
  (forall m, answer = Failed m ->
     success (fst (hybridSearch e q o)) = false /\
     error (fst (hybridSearch e q o)) = Some "Assignment to constant variable."%string /\
     results (fst (hybridSearch e q o)) = []) /\
  (answer = NoData ->
     success (fst (hybridSearch e q o)) = true /\
     results (fst (hybridSearch e q o)) = [] /\
     method (fst (hybridSearch e q o)) = Some "supabase_function"%string).
Proof.
  intros Hq Hgen Hsql answer. subst answer.
  rewrite hybridSearch_cascade. unfold cascade.
  assert (Hlen : (String.length (trim q) =? 0)%nat = false)
    by (destruct (trim q); [congruence | reflexivity]).
  rewrite Hlen, Hgen, Hsql.
  apply generateQueryEmbedding_returned in Hgen. destruct Hgen as [-> _].
  destruct (hybrid_function e v q _ _); cbn [fst snd app].
  - split; [reflexivity|]. split; [intros m' [=]|discriminate].
  - split; [reflexivity|]. split; [intros m' [=]|].
    intros _. cbn. destruct (or_default (limit o) 10%nat); repeat split.
  - split; [reflexivity|]. split; [|discriminate].
    intros m' _. cbn. repeat split.
Qed.

(** X10 when the SQL hybrid function is down. *)
Lemma sql_function_failure_is_fatal_witness :
  let e := world (Some "sk"%string) embedded (Data [passage 1 "AI is..." None]) NoData
             NoData (Failed "function simple_hybrid_search does not exist") in
  success (fst (hybridSearch e "ai" no_options)) = false /\
  List.length (snd (hybridSearch e "ai" no_options)) = 2%nat.
Proof.
  pose (e := world (Some "sk"%string) embedded (Data [passage 1 "AI is..." None]) NoData
               NoData (Failed "function simple_hybrid_search does not exist")).
  assert (H1 : trim "ai"%string <> EmptyString) by discriminate.
  assert (H2 : generateQueryEmbedding e "ai" []
               = (Returned (Some [Q2Qc (1 # 10); Q2Qc (2 # 10)]), [CallEmbedding "ai"]))
    by reflexivity.
  destruct (sql_function_failure_is_fatal e "ai"%string no_options _ _ H1 H2 eq_refl)
    as (Hl & Hf & _).
  destruct (Hf _ eq_refl) as (Hs & _).
  split; [exact Hs|]. fold e. rewrite Hl. reflexivity.
Defined.

(** X11. The executors absorb store errors. Whatever the store answers,
    the lexical, the document and the vector executor each issue exactly
    one request and return, they never throw; a store error or an answer
    without data gives the empty list. *)
Theorem executors_never_throw (e : env) (q : string) (v : embedding_value)
    (d : option ident) (lim : nat) (log : list call) :
  (exists rows, performFTSSearch e q d lim log
                = (Returned rows, log ++ [CallFTS q (scope_of d) lim]) /\
     (forall m, embeddings_table e q (scope_of d) lim = Failed m -> rows = []) /\
     (embeddings_table e q (scope_of d) lim = NoData -> rows = [])) /\
  (exists rows, performDocumentSearch e q d lim log
                = (Returned rows, log ++ [CallDocuments (scope_of d) lim]) /\
     (forall m, documents_table e (scope_of d) lim = Failed m -> rows = []) /\
     (documents_table e (scope_of d) lim = NoData -> rows = [])) /\
  (exists rows, performVectorSearch e v d lim log
                = (Returned rows, log ++ [CallVector v (scope_of d) lim]) /\
     (forall m, match_chunks e v (scope_of d) lim = Failed m -> rows = []) /\
     (match_chunks e v (scope_of d) lim = NoData -> rows = [])).
Proof.
  repeat split.
  - rewrite performFTSSearch_run. eexists. split; [reflexivity|].
    split; [intros m H | intro H]; now rewrite H.
  - rewrite performDocumentSearch_run. eexists. split; [reflexivity|].
    split; [intros m H | intro H]; now rewrite H.
  - rewrite performVectorSearch_run. eexists. split; [reflexivity|].
    split; [intros m H | intro H]; now rewrite H.
Qed.

(** ** The document fallback *)

Module DocFacts.
Import DocSpec.

Lemma append_assoc (a b c : string) : ((a ++ b) ++ c = a ++ (b ++ c))%string.
Proof. induction a as [|x a IH]; cbn; [reflexivity | now rewrite IH]. Qed.

Lemma append_empty_r (a : string) : (a ++ "" = a)%string.
Proof. induction a as [|x a IH]; cbn; [reflexivity | now rewrite IH]. Qed.

Lemma toLowerCase_append (a b : string) :
  toLowerCase (a ++ b) = (toLowerCase a ++ toLowerCase b)%string.
Proof. induction a as [|x a IH]; cbn; [reflexivity | now rewrite IH]. Qed.

Lemma prefix_append_r (t s b : string) :
  String.prefix t s = true -> String.prefix t (s ++ b) = true.
Proof.
  revert s. induction t as [|c t IH]; intros s H.
  - now destruct (s ++ b)%string.
  - destruct s as [|c' s]; cbn in H; [discriminate|]. cbn.
    destruct (Ascii.ascii_dec c c'); [now apply IH | discriminate].
Qed.

Lemma includes_unfold (s t : string) :
  includes s t
  = if String.prefix t s then true
    else match s with EmptyString => false | String _ s' => includes s' t end.
Proof. now destruct s. Qed.

Lemma includes_append_r (s t b : string) :
  includes s t = true -> includes (s ++ b) t = true.
Proof.
  induction s as [|c s IH]; intro H.
  - rewrite includes_unfold in H. rewrite includes_unfold.
    destruct (String.prefix t "") eqn:Hp; [|discriminate].
    now rewrite (prefix_append_r t "" b Hp).
  - rewrite includes_unfold in H. rewrite includes_unfold.
    destruct (String.prefix t (String c s)) eqn:Hp.
    + now rewrite (prefix_append_r t (String c s) b Hp).
    + cbn [append]. destruct (String.prefix t (String c (s ++ b))); [reflexivity|].
      now apply IH.
Qed.

Lemma includes_append_l (a s t : string) :
  includes s t = true -> includes (a ++ s) t = true.
Proof.
  intro H. induction a as [|c a IH]; [exact H|].
  cbn [append]. rewrite includes_unfold.
  destruct (String.prefix t (String c (a ++ s))); [reflexivity | exact IH].
Qed.

Lemma includes_empty (s : string) : includes s "" = true.
Proof. rewrite includes_unfold. now destruct s. Qed.

Lemma contains_within (a t b q : string) :
  contains t q -> contains (a ++ t ++ b) q.
Proof.
  unfold contains. intro H. rewrite !toLowerCase_append.
  now apply includes_append_l, includes_append_r.
Qed.

(** Induction on Tiptap trees. *)
Fixpoint node_induction (P : node -> Prop)
    (step : forall type text content,
        Forall P content -> P (Node type text content))
    (n : node) : P n :=
  match n with
  | Node type text content =>
      step type text content
        ((fix children (l : list node) : Forall P l :=
            match l with
            | [] => Forall_nil P
            | child :: rest =>
                Forall_cons child (node_induction P step child) (children rest)
            end) content)
  end.

Definition extractAll (content : list node) (textContent : string) : string :=
  fold_left (fun acc child => extractText child acc) content textContent.

Lemma extractAll_grows (content : list node) :
  Forall (fun n => forall acc, exists b, extractText n acc = (acc ++ b)%string) content ->
  forall acc, exists b, extractAll content acc = (acc ++ b)%string.
Proof.
  induction 1 as [|child rest Hc _ IH]; intro acc; cbn.
  - exists EmptyString. now rewrite append_empty_r.
  - destruct (Hc acc) as [b1 ->]. destruct (IH (acc ++ b1)%string) as [b2 Hb2].
    exists (b1 ++ b2)%string. unfold extractAll in Hb2. rewrite Hb2.
    apply append_assoc.
Qed.

(** The extraction only ever appends. *)
Lemma extractText_grows (n : node) :
  forall acc, exists b, extractText n acc = (acc ++ b)%string.
Proof.
  induction n as [type text content IH] using node_induction. intro acc. cbn.
  destruct (String.eqb type "text").
  - now exists (text ++ " ")%string.
  - apply (extractAll_grows content IH).
Qed.

Lemma extractAll_grows_all (content : list node) (acc : string) :
  exists b, extractAll content acc = (acc ++ b)%string.
Proof.
  apply extractAll_grows. apply Forall_forall. intros n _. apply extractText_grows.
Qed.

Lemma extractAll_has_text (t : string) (content : list node) (child : node) :
  In child content ->
  (forall acc, exists a b, extractText child acc = (acc ++ a ++ t ++ b)%string) ->
  forall acc, exists a b, extractAll content acc = (acc ++ a ++ t ++ b)%string.
Proof.
  intros Hin Hchild. induction content as [|c rest IH]; [destruct Hin|].
  intro acc. cbn. destruct Hin as [-> | Hin].
  - destruct (Hchild acc) as (a & b & ->).
    destruct (extractAll_grows_all rest (acc ++ a ++ t ++ b)) as [b' Hb'].
    unfold extractAll in Hb'. rewrite Hb'.
    exists a, (b ++ b')%string. now rewrite !append_assoc.
  - destruct (extractText_grows c acc) as [b1 ->].
    destruct (IH Hin (acc ++ b1)%string) as (a & b & Hab).
    unfold extractAll in Hab. rewrite Hab.
    exists (b1 ++ a)%string, b. now rewrite !append_assoc.
Qed.

Lemma extractText_has_text (t : string) (n : node) :
  has_text t n ->
  forall acc, exists a b, extractText n acc = (acc ++ a ++ t ++ b)%string.
Proof.
  induction 1 as [type content Ht | type text content child Ht Hin _ IH]; intro acc.
  - cbn. rewrite Ht. now exists EmptyString, " "%string.
  - cbn. rewrite Ht. apply (extractAll_has_text t content child Hin IH).
Qed.

Lemma mentions_matches (q : string) (doc : document) :
  mentions q doc -> document_matches q doc = true.
Proof.
  unfold mentions, document_matches, contains. intros [Ht | Hc].
  - now rewrite Ht.
  - destruct (includes (toLowerCase (doc_title doc)) (toLowerCase q)) eqn:Htitle;
      [reflexivity|].
    destruct (doc_content doc) as [|s|type oc content]; cbn.
    + destruct Hc.
    + destruct (nonempty s) eqn:Hs; [exact Hc|].
      destruct s; [|discriminate]. cbn in Hc.
      destruct (toLowerCase q); [|discriminate].
      now rewrite includes_empty in Htitle.
    + assert (Htree : (exists child t, In child content /\ has_text t child /\
                          includes (toLowerCase t) (toLowerCase q) = true) ->
                      includes (toLowerCase (extractAll content "")) (toLowerCase q) = true).
      { intros (child & t & Hin & Hhas & Hq).
        destruct (extractAll_has_text t content child Hin
                    (extractText_has_text t child Hhas) EmptyString) as (a & b & ->).
        cbn [append]. now apply (contains_within a t b q). }
      unfold extractAll in Htree.
      destruct oc as [oc|]; [|now apply Htree].
      destruct (String.eqb type "uploaded_file" && nonempty oc)%bool;
        [exact Hc | now apply Htree].
Qed.

End DocFacts.

Import DocSpec.
Import DocFacts.

(** X12. The document fallback finds what a document shows. When the
    documents query answers with [docs], every document of the answer that
    mentions the query, letter case apart, in its title, in its string body,
    in the original content of an uploaded file or in a text node at any
    depth of its Tiptap body, is among the rows returned. Each row returned
    stands for a document of the answer, with the document's id as row id
    and document id, its title as chunk and no similarity; there are no
    more rows than documents. *)
Theorem performDocumentSearch_finds_mentions (e : env) (q : string)
    (d : option ident) (lim : nat) (log : list call) (docs : list document) :
  documents_table e (scope_of d) lim = Data docs ->
  exists rows,
    performDocumentSearch e q d lim log
    = (Returned rows, log ++ [CallDocuments (scope_of d) lim]) /\
    (forall doc, In doc docs -> mentions q doc -> In (document_row doc) rows) /\
    (forall r, In r rows ->
       exists doc, In doc docs /\ r_id r = doc_id doc /\ r_document_id r = doc_id doc /\
                   r_chunk r = doc_title doc /\ r_similarity r = None) /\
    (List.length rows <= List.length docs)%nat.
Proof.
  intro Hdocs. rewrite performDocumentSearch_run, Hdocs. cbn [rows_of].
  eexists. split; [reflexivity|]. split; [|split].
  - intros doc Hin Hm. apply in_map, filter_In. split; [exact Hin|].
    now apply mentions_matches.
  - intros r Hr. apply in_map_iff in Hr. destruct Hr as (doc & <- & Hdoc).
    apply filter_In in Hdoc. exists doc. now repeat split.
  - rewrite length_map. apply filter_length_le.
Qed.

(** X12 on a Tiptap document whose text lies two levels deep. *)
Lemma performDocumentSearch_finds_mentions_witness :
  let note :=
    {| doc_id := IdStr "d1"; doc_title := "Notes";
       doc_content :=
         BodyObject "doc" None
           [Node "paragraph" ""
              [Node "text" "Neural Networks" []; Node "text" "learn" []]] |} in
  let e := world None embedded NoData (Data [titled "d0" "Shopping"; note]) NoData NoData in
  exists rows,
    fst (performDocumentSearch e "neural" None 10 []) = Returned rows /\
    In (document_row note) rows /\ (List.length rows <= 2)%nat.
Proof.
  intros note e.
  destruct (performDocumentSearch_finds_mentions e "neural"%string None 10%nat []
              [titled "d0" "Shopping"; note] eq_refl) as (rows & Hrun & Hin & _ & Hlen).
  exists rows. split; [now rewrite Hrun|]. split; [|exact Hlen].
  apply Hin; [right; left; reflexivity|].
  right. cbn.
  exists (Node "paragraph" "" [Node "text" "Neural Networks" []; Node "text" "learn" []]),
         "Neural Networks"%string.
  split; [left; reflexivity|]. split; [|reflexivity].
  apply (@text_below _ "paragraph"%string EmptyString _ (Node "text" "Neural Networks" []));
    [reflexivity | left; reflexivity | now apply (@text_here _ "text"%string [])].
Defined.

(** ** The wrappers *)

Module WrapperFacts.
Import CallSpec.

Lemma hybridSearch_requests_within (e : env) (q : string) (o : options) :
  Forall (within (scope_of (documentId o)) (2 * or_default (limit o) 10%nat))
    (snd (hybridSearch e q o)).
Proof.
  rewrite hybridSearch_cascade. unfold cascade, hybrid_function_name.
  destruct (String.length (trim q) =? 0)%nat; [constructor|].
  destruct (generateQueryEmbedding e q []) as [c log] eqn:Hgen.
  assert (Hlog : Forall (within (scope_of (documentId o))
                           (2 * or_default (limit o) 10%nat)) log).
  { apply generateQueryEmbedding_log in Hgen. destruct Hgen as [-> | ->];
      repeat constructor. }
  assert (Hle : (or_default (limit o) 10 <= 2 * or_default (limit o) 10)%nat) by lia.
  assert (Hle2 : (or_default (limit o) 10 * 2 <= 2 * or_default (limit o) 10)%nat) by lia.
  destruct c as [v|message].
  - destruct (or_default (useSupabaseFunction o) true).
    + destruct (hybrid_function e v q _ _); cbn [snd]; apply Forall_app;
        (split; [exact Hlog|]); repeat constructor; try exact Hle;
        now destruct (scope_of (documentId o)).
    + destruct (_ =? 0)%nat; cbn [snd]; apply Forall_app;
        (split; [exact Hlog|]); repeat constructor; exact Hle2.
  - destruct (or_default (fallbackToFTSOnly o) true); [|exact Hlog].
    destruct (_ =? 0)%nat; cbn [snd]; apply Forall_app;
      (split; [exact Hlog|]); repeat constructor; exact Hle.
Qed.

Lemma merge_path_scores (e : env) (q : string) (o : options) (r : result) :
  method (fst (hybridSearch e q o)) = Some "javascript_merge"%string ->
  In r (results (fst (hybridSearch e q o))) ->
  hybrid_score r
  = or_default (ftsWeight o) (Q2Qc (1 # 2)) * fts_score r
    + or_default (vectorWeight o) (Q2Qc (1 # 2)) * vector_score r.
Proof.
  rewrite hybridSearch_cascade. unfold cascade.
  destruct (String.length (trim q) =? 0)%nat; [discriminate|].
  destruct (generateQueryEmbedding e q []) as [[v|message] log].
  - destruct (or_default (useSupabaseFunction o) true).
    + destruct (hybrid_function e v q _ _); discriminate.
    + assert (Hmerge : forall L V,
                 In r (firstn (or_default (limit o) 10%nat)
                         (mergeAndScore L V (or_default (ftsWeight o) (Q2Qc (1 # 2)))
                            (or_default (vectorWeight o) (Q2Qc (1 # 2))))) ->
                 hybrid_score r
                 = or_default (ftsWeight o) (Q2Qc (1 # 2)) * fts_score r
                   + or_default (vectorWeight o) (Q2Qc (1 # 2)) * vector_score r).
      { intros L V Hin. apply In_firstn in Hin. apply mergeAndScore_In in Hin.
        pose proof (@merged_map_get L V (or_default (ftsWeight o) (Q2Qc (1 # 2)))
                      (or_default (vectorWeight o) (Q2Qc (1 # 2))) (id r)) as G.
        rewrite Hin in G. apply G. }
      destruct (_ =? 0)%nat; cbn; intros _ Hin; eapply Hmerge; exact Hin.
  - destruct (or_default (fallbackToFTSOnly o) true); [|discriminate].
    destruct (List.length (lexical_rows e q o (or_default (limit o) 10)) =? 0)%nat;
      simpl; destruct (0 <? _)%nat; discriminate.
Qed.

End WrapperFacts.

Import CallSpec.
Import WrapperFacts.

(** X13. The weight presets. [keywordSearch] and [semanticSearch] replace
    whatever weights the caller put in the options: the outcome does not
    depend on them, and on the merging path every result of
    [keywordSearch] has hybrid score [0.8 * lexical + 0.2 * vector], every
    result of [semanticSearch] [0.2 * lexical + 0.8 * vector]. *)
Theorem weight_presets_override (e : env) (q : string) (o : options) :
  (forall a b : num,
     Wrappers.keywordSearch e q (with_weights o a b) = Wrappers.keywordSearch e q o /\
     Wrappers.semanticSearch e q (with_weights o a b) = Wrappers.semanticSearch e q o) /\
  (method (fst (Wrappers.keywordSearch e q o)) = Some "javascript_merge"%string ->
   forall r, In r (results (fst (Wrappers.keywordSearch e q o))) ->
     hybrid_score r = Q2Qc (8 # 10) * fts_score r + Q2Qc (2 # 10) * vector_score r) /\
  (method (fst (Wrappers.semanticSearch e q o)) = Some "javascript_merge"%string ->
   forall r, In r (results (fst (Wrappers.semanticSearch e q o))) ->
     hybrid_score r = Q2Qc (2 # 10) * fts_score r + Q2Qc (8 # 10) * vector_score r).
Proof.
  split; [intros a b; split; reflexivity|].
  split; intros Hm r Hin.
  - unfold Wrappers.keywordSearch in Hm, Hin.
    exact (merge_path_scores e q _ r Hm Hin).
  - unfold Wrappers.semanticSearch in Hm, Hin.
    exact (merge_path_scores e q _ r Hm Hin).
Qed.

(** X14. The scope presets. Every request of [globalSearch] is unscoped,
    whatever [documentId] the options carry, and every store request of
    [searchDocument] is made for the given document (for none when the id
    is falsy); the SQL hybrid function is chosen accordingly. A limit that
    is absent or 0 is replaced by 10, respectively 5, and no request asks
    for more than twice that many rows. *)
Theorem scope_presets_requests (e : env) (q : string) (doc : option ident)
    (o : options) :
  Forall (within None (2 * Wrappers.limit_or (limit o) 10))
    (snd (Wrappers.globalSearch e q o)) /\
  Forall (within (scope_of doc) (2 * Wrappers.limit_or (limit o) 5))
    (snd (Wrappers.searchDocument e q doc o)) /\
  (0 < Wrappers.limit_or (limit o) 10)%nat /\ (0 < Wrappers.limit_or (limit o) 5)%nat.
Proof.
  split; [|split].
  - unfold Wrappers.globalSearch.
    match goal with
    | |- Forall _ (snd (hybridSearch e q ?x)) => exact (hybridSearch_requests_within e q x)
    end.
  - unfold Wrappers.searchDocument.
    match goal with
    | |- Forall _ (snd (hybridSearch e q ?x)) => exact (hybridSearch_requests_within e q x)
    end.
  - unfold Wrappers.limit_or. destruct (limit o) as [[|n]|]; lia.
Qed.

(** ** The API route *)

Module ApiFacts.

Lemma api_embedding_run (s : Api.services) (q : string) (log : list call) :
  Api.generateQueryEmbedding s q log
  = (match Api.embeddings_create s (trim q) with
     | Returned v => Returned v
     | Thrown _ => Thrown "Failed to generate query embedding"
     end, log ++ [CallEmbedding (trim q)]).
Proof.
  unfold Api.generateQueryEmbedding, try_catch, bind, request, ret, throw.
  now destruct (Api.embeddings_create s (trim q)).
Qed.

Lemma api_fts_run (s : Api.services) (q : string) (lim : nat) (log : list call) :
  Api.performFTSSearch s q lim log
  = (Returned (rows_of (Api.textSearch s q lim)), log ++ [CallFTS q None lim]).
Proof.
  unfold Api.performFTSSearch, try_catch, bind, request, unwrap, rows_of, ret, throw.
  now destruct (Api.textSearch s q lim).
Qed.

Lemma api_vector_run (s : Api.services) (v : embedding_value) (lim : nat) (log : list call) :
  Api.performVectorSearch s v lim log
  = (Returned (rows_of (Api.rpc_match_chunks s v lim)), log ++ [CallVector v None lim]).
Proof.
  unfold Api.performVectorSearch, try_catch, bind, request, unwrap, rows_of, ret, throw.
  now destruct (Api.rpc_match_chunks s v lim).
Qed.

(** The merging branch of the handler, run. *)
Lemma api_merge_run (s : Api.services) (d : option ident) (lim : nat)
    (wl wv : num) (query : string) (v : embedding_value) (log : list call) :
  (ftsResults <- Api.performFTSSearch s query (lim * 2)%nat ;;
   vectorResults <- Api.performVectorSearch s v (lim * 2)%nat ;;
   ret (firstn lim
          (mergeAndScore (Api.of_document d ftsResults)
             (Api.of_document d vectorResults) wl wv))) log
  = (Returned
       (firstn lim
          (mergeAndScore
             (Api.of_document d (rows_of (Api.textSearch s query (lim * 2)%nat)))
             (Api.of_document d (rows_of (Api.rpc_match_chunks s v (lim * 2)%nat)))
             wl wv)),
     log ++ [CallFTS query None (lim * 2)%nat; CallVector v None (lim * 2)%nat]).
Proof.
  unfold bind at 1. rewrite api_fts_run. unfold bind at 1. rewrite api_vector_run.
  unfold ret. now rewrite <- app_assoc.
Qed.

(** What the rows' documents satisfy, the results' documents satisfy. *)
Section Documents.
Variable P : ident -> Prop.

Let held (m : jsmap result) : Prop := Forall (fun kv => P (document_id (snd kv))) m.

Lemma map_set_held (k : ident) (e : result) (m : jsmap result) :
  P (document_id e) -> held m -> held (map_set k e m).
Proof.
  unfold held. intros He Hm. induction m as [|[k' e'] m IH]; cbn.
  - now repeat constructor.
  - inversion Hm; subst. destruct (ident_eqb k k'); constructor; auto.
Qed.

Lemma map_mutate_held (k : ident) (f : result -> result) (m : jsmap result) :
  (forall e, document_id (f e) = document_id e) -> held m -> held (map_mutate k f m).
Proof.
  unfold held. intros Hf Hm. induction m as [|[k' e'] m IH]; cbn; [constructor|].
  inversion Hm; subst. destruct (ident_eqb k k'); constructor; cbn in *; auto.
  now rewrite Hf.
Qed.

Lemma seed_fts_held (wl : num) (len : nat) (L : list row) :
  Forall (fun r => P (r_document_id r)) L ->
  forall index m, held m -> held (seed_fts wl len index L m).
Proof.
  induction 1 as [|r L Hr _ IH]; intros index m Hm; cbn; [exact Hm|].
  apply IH. now apply map_set_held.
Qed.

Lemma merge_vector_held (wl wv : num) (m : jsmap result) (r : row) :
  P (r_document_id r) -> held m -> held (merge_vector wl wv m r).
Proof.
  intros Hr Hm. unfold merge_vector. destruct (map_has (r_id r) m).
  - now apply map_mutate_held.
  - now apply map_set_held.
Qed.

Lemma mergeAndScore_documents (L V : list row) (wl wv : num) :
  Forall (fun r => P (r_document_id r)) L ->
  Forall (fun r => P (r_document_id r)) V ->
  Forall (fun e => P (document_id e)) (mergeAndScore L V wl wv).
Proof.
  intros HL HV.
  assert (Hm : held (merged_map L V wl wv)).
  { unfold merged_map.
    assert (Hseed : held (seed_fts wl (List.length L) 0 L []))
      by (apply seed_fts_held; [exact HL | constructor]).
    revert Hseed. generalize (seed_fts wl (List.length L) 0 L []).
    induction HV as [|r V Hr _ IH]; intros m Hm; cbn; [exact Hm|].
    apply IH. now apply merge_vector_held. }
  apply Forall_forall. intros e He.
  unfold mergeAndScore in He. eapply Permutation_in in He; [|apply sort_perm].
  unfold map_values in He. apply in_map_iff in He. destruct He as [kv [<- Hkv]].
  unfold held in Hm. rewrite Forall_forall in Hm. now apply Hm.
Qed.

End Documents.

Lemma of_document_scoped (documentId : option ident) (d : ident) (rows : list row) :
  scope_of documentId = Some d ->
  Forall (fun r => r_document_id r = d) (Api.of_document documentId rows).
Proof.
  intro Hd. unfold Api.of_document. rewrite Hd. apply Forall_forall.
  intros r Hr. apply filter_In in Hr. now apply ident_eqb_eq.
Qed.

Lemma blank_trim (q : string) :
  (String.length (trim q) =? 0)%nat = true <-> trim q = EmptyString.
Proof.
  destruct (trim q); cbn; split; intro H; try reflexivity; discriminate.
Qed.

(** The handler path by path: the response and the requests, given what
    the services answer. *)
Lemma handler_run (s : Api.services) (req : Api.http_request) :
  Api.handler s req
  = if negb (String.eqb (Api.req_method req) "POST") then
      ({| Api.status := 405; Api.json := Api.ErrorBody "Method not allowed" None |}, [])
    else
      match Api.req_body req with
      | Api.NullBody =>
          ({| Api.status := 500;
              Api.json :=
                Api.ErrorBody "Internal server error"
                  (Some "Cannot destructure property 'query' of 'req.body' as it is null."%string) |},
           [])
      | Api.UndefinedBody =>
          ({| Api.status := 500;
              Api.json :=
                Api.ErrorBody "Internal server error"
                  (Some "Cannot destructure property 'query' of 'req.body' as it is undefined."%string) |},
           [])
      | Api.Parsed b =>
          let lim := or_default (Api.req_limit b) 10%nat in
          let d := Api.req_documentId b in
          let name := match scope_of d with
                      | Some _ => "hybrid_search_document"%string
                      | None => "simple_hybrid_search"%string
                      end in
            match Api.req_query b with
            | None =>
                ({| Api.status := 400;
                    Api.json := Api.ErrorBody
                                  "Query is required and must be a non-empty string" None |}, [])
            | Some query =>
                if (String.length (trim query) =? 0)%nat then
                  ({| Api.status := 400;
                      Api.json := Api.ErrorBody
                                    "Query is required and must be a non-empty string" None |}, [])
                else if (1000 <? String.length query)%nat then
                  ({| Api.status := 400;
                      Api.json := Api.ErrorBody "Query must be less than 1000 characters" None |},
                   [])
                else
                  match Api.embeddings_create s (trim query) with
                  | Thrown _ =>
                      ({| Api.status := 500;
                          Api.json := Api.ErrorBody "Internal server error"
                                        (Some "Failed to generate query embedding"%string) |},
                       [CallEmbedding (trim query)])
                  | Returned v =>
                      if or_default (Api.req_useSupabaseFunction b) false then
                        match Api.rpc_hybrid s name v query (scope_of d) lim with
                        | Failed m =>
                            ({| Api.status := 500;
                                Api.json := Api.ErrorBody "Internal server error" (Some m) |},
                             [CallEmbedding (trim query); CallHybridRpc name lim])
                        | answer =>
                            ({| Api.status := 200;
                                Api.json := Api.SearchBody query (rows_of answer)
                                              (List.length (rows_of answer)) "sql_function" |},
                             [CallEmbedding (trim query); CallHybridRpc name lim])
                        end
                      else
                        let merged :=
                          firstn lim
                            (mergeAndScore
                               (Api.of_document d (rows_of (Api.textSearch s query (lim * 2)%nat)))
                               (Api.of_document d
                                  (rows_of (Api.rpc_match_chunks s v (lim * 2)%nat)))
                               (or_default (Api.req_ftsWeight b) (Q2Qc (1 # 2)))
                               (or_default (Api.req_vectorWeight b) (Q2Qc (1 # 2)))) in
                        ({| Api.status := 200;
                            Api.json := Api.SearchBody query merged (List.length merged)
                                          "javascript_merge" |},
                         [CallEmbedding (trim query); CallFTS query None (lim * 2)%nat;
                          CallVector v None (lim * 2)%nat])
                  end
            end
      end.
Proof.
  unfold Api.handler.
  destruct (negb (String.eqb (Api.req_method req) "POST")); [reflexivity|].
  destruct (Api.req_body req) as [b| |]; [|reflexivity..].
  cbv zeta. unfold bind at 1, Api.destructure, ret. unfold Api.handler_try.
  destruct (Api.req_query b) as [query|]; [|reflexivity].
  destruct (String.length (trim query) =? 0)%nat; [reflexivity|].
  destruct (1000 <? String.length query)%nat; [reflexivity|].
  unfold bind at 1. rewrite api_embedding_run. cbn [app].
  destruct (Api.embeddings_create s (trim query)) as [v|message]; [|reflexivity].
  destruct (or_default (Api.req_useSupabaseFunction b) false).
  - unfold bind, request, unwrap, ret, throw.
    now destruct (Api.rpc_hybrid s _ v query _ _).
  - unfold bind at 1. rewrite api_merge_run. reflexivity.
Qed.

End ApiFacts.

Import ApiFacts.

(** X15. Validation in the route. The handler answers 405 exactly to a
    request that is not a POST, and 400 exactly to a POST with a body whose
    [query] is not a string, is blank, or is longer than 1000 characters (a
    query of exactly 1000 characters passes). A request answered 405 or
    400 causes no call to the embedding service or to the store. A POST
    whose body is [null] or [undefined] is not answered 400: the
    destructuring throws inside the [try], so it is answered 500 with
    [Internal server error], again without any call. Every other request
    is answered 200 or 500, and its first call is the embedding of the
    trimmed query. *)
Theorem handler_validation (s : Api.services) (req : Api.http_request) :
  let res := fst (Api.handler s req) in
  let log := snd (Api.handler s req) in
  (Api.status res = 405%nat <-> Api.req_method req <> "POST"%string) /\
  (Api.status res = 400%nat <->
     Api.req_method req = "POST"%string /\
     exists b, Api.req_body req = Api.Parsed b /\
       match Api.req_query b with
       | None => True
       | Some query => trim query = EmptyString \/ (1000 < String.length query)%nat
       end) /\
  (Api.status res = 405%nat \/ Api.status res = 400%nat ->
     log = [] /\ exists m, Api.json res = Api.ErrorBody m None) /\
  (Api.req_method req = "POST"%string ->
   Api.req_body req = Api.NullBody \/ Api.req_body req = Api.UndefinedBody ->
     Api.status res = 500%nat /\ log = [] /\
     exists m, Api.json res = Api.ErrorBody "Internal server error" (Some m)) /\
  (Api.status res <> 405%nat -> Api.status res <> 400%nat ->
     (Api.status res = 200%nat \/ Api.status res = 500%nat) /\
     forall b, Api.req_body req = Api.Parsed b ->
       exists query, Api.req_query b = Some query /\
                     hd_error log = Some (CallEmbedding (trim query))).
Proof.
  cbv zeta. rewrite handler_run.
  destruct (String.eqb (Api.req_method req) "POST") eqn:Hpost; cbn [negb].
  2:{ apply String.eqb_neq in Hpost. cbn.
      split; [tauto|]. split; [split; [discriminate | tauto]|].
      split; [intros _; split; [reflexivity | eauto]|].
      split; [tauto | congruence]. }
  apply String.eqb_eq in Hpost.
  destruct (Api.req_body req) as [b| |] eqn:Hbody.
  2:{ cbn. split; [split; [discriminate | congruence]|].
      split; [split; [discriminate | intros (_ & b & [=] & _)]|].
      split; [intros [H|H]; discriminate|].
      split; [intros _ _; split; [reflexivity|]; split; [reflexivity | eauto]|].
      intros _ _. split; [now right | intros b [=]]. }
  2:{ cbn. split; [split; [discriminate | congruence]|].
      split; [split; [discriminate | intros (_ & b & [=] & _)]|].
      split; [intros [H|H]; discriminate|].
      split; [intros _ _; split; [reflexivity|]; split; [reflexivity | eauto]|].
      intros _ _. split; [now right | intros b [=]]. }
  cbv zeta.
  assert (Hnobody : forall P : Prop,
            Api.Parsed b = Api.NullBody \/ Api.Parsed b = Api.UndefinedBody -> P)
    by (intros P [H|H]; discriminate).
  destruct (Api.req_query b) as [query|] eqn:Hq; cbn -[Nat.ltb Nat.leb trim].
  2:{ split; [split; [discriminate | congruence]|].
      split; [split; [intros _; split; [exact Hpost|]; exists b; now rewrite Hq
                     | reflexivity]|].
      split; [intros _; split; [reflexivity | eauto]|].
      split; [intros _; apply Hnobody | congruence]. }
  assert (Hsame : forall b', Api.Parsed b = Api.Parsed b' -> Api.req_query b' = Some query)
    by (intros b' [= <-]; exact Hq).
  destruct (String.length (trim query) =? 0)%nat eqn:Hblank; cbn -[Nat.ltb Nat.leb trim].
  { apply blank_trim in Hblank.
    split; [split; [discriminate | congruence]|].
    split; [split; [intros _; split; [exact Hpost|]; exists b; rewrite Hq; tauto
                   | reflexivity]|].
    split; [intros _; split; [reflexivity | eauto]|].
    split; [intros _; apply Hnobody | congruence]. }
  assert (Hne : trim query <> EmptyString).
  { intro H. apply blank_trim in H. congruence. }
  destruct (1000 <? String.length query)%nat eqn:Hlong; cbn -[Nat.ltb Nat.leb trim].
  { apply Nat.ltb_lt in Hlong.
    split; [split; [discriminate | congruence]|].
    split; [split; [intros _; split; [exact Hpost|]; exists b; rewrite Hq; tauto
                   | reflexivity]|].
    split; [intros _; split; [reflexivity | eauto]|].
    split; [intros _; apply Hnobody | congruence]. }
  apply Nat.ltb_ge in Hlong.
  assert (Hvalid : ~ (Api.req_method req = "POST"%string /\
                      exists b', Api.Parsed b = Api.Parsed b' /\
                        match Api.req_query b' with
                        | None => True
                        | Some query' =>
                            trim query' = EmptyString \/ (1000 < String.length query')%nat
                        end)).
  { intros (_ & b' & Hb' & H). rewrite (Hsame b' Hb') in H. destruct H as [H|H];
      [congruence | lia]. }
  assert (Hfirst : forall b', Api.Parsed b = Api.Parsed b' ->
            exists query', Api.req_query b' = Some query' /\
              Some (CallEmbedding (trim query)) = Some (CallEmbedding (trim query')))
    by (intros b' Hb'; exists query; split; [now apply Hsame | reflexivity]).
  destruct (Api.embeddings_create s (trim query)) as [v|message].
  2:{ cbn. split; [split; [discriminate | congruence]|].
      split; [split; [discriminate | intro H; now apply Hvalid in H]|].
      split; [intros [H|H]; discriminate|].
      split; [intros _; apply Hnobody|].
      intros _ _. split; [now right | exact Hfirst]. }
  destruct (or_default (Api.req_useSupabaseFunction b) false).
  - destruct (Api.rpc_hybrid s _ v query _ _); cbn;
      (split; [split; [discriminate | congruence]|]);
      (split; [split; [discriminate | intro H; now apply Hvalid in H]|]);
      (split; [intros [H|H]; discriminate|]);
      (split; [intros _; apply Hnobody|]); intros _ _;
      (split; [tauto | exact Hfirst]).
  - cbn.
    split; [split; [discriminate | congruence]|].
    split; [split; [discriminate | intro H; now apply Hvalid in H]|].
    split; [intros [H|H]; discriminate|].
    split; [intros _; apply Hnobody|].
    intros _ _. split; [now left | exact Hfirst].
Qed.

(** X16. The merging branch of the route. For a valid POST whose query was
    embedded and that does not ask for the SQL function, the handler
    answers 200 with method [javascript_merge], whatever the two stores
    answer, errors included. It asks both stores once, without document
    scope, for twice the limit. The results are at most [limit], with
    pairwise distinct ids, in descending order of hybrid score, each scored
    [ftsWeight * lexical + vectorWeight * vector], and [total] is their
    number; when a truthy [documentId] is given every result belongs to
    that document. *)
Theorem handler_merge_results (s : Api.services) (req : Api.http_request)
    (b : Api.body) (query : string) (v : embedding_value) :
  Api.req_method req = "POST"%string ->
  Api.req_body req = Api.Parsed b ->
  Api.req_query b = Some query ->
  trim query <> EmptyString ->
  (String.length query <= 1000)%nat ->
  Api.embeddings_create s (trim query) = Returned v ->
  or_default (Api.req_useSupabaseFunction b) false = false ->
  let lim := or_default (Api.req_limit b) 10%nat in
  exists found,
    fst (Api.handler s req)
    = {| Api.status := 200;
         Api.json := Api.SearchBody query found (List.length found) "javascript_merge" |} /\
    snd (Api.handler s req)
    = [CallEmbedding (trim query); CallFTS query None (lim * 2)%nat;
       CallVector v None (lim * 2)%nat] /\
    (List.length found <= lim)%nat /\
    NoDup (List.map id found) /\
    StronglySorted hybrid_desc found /\
    (forall d, scope_of (Api.req_documentId b) = Some d ->
       forall r, In r found -> document_id r = d) /\
    (forall r, In r found ->
       hybrid_score r
       = or_default (Api.req_ftsWeight b) (Q2Qc (1 # 2)) * fts_score r
         + or_default (Api.req_vectorWeight b) (Q2Qc (1 # 2)) * vector_score r).
Proof.
  intros Hpost Hbody Hq Hne Hlen Hemb Hsql lim. subst lim.
  rewrite handler_run. rewrite Hpost, Hbody. cbv zeta.
  rewrite Hq, Hemb, Hsql. cbn [String.eqb negb].
  replace (String.eqb "POST" "POST") with true by reflexivity. cbn [negb].
  assert (Hblank : (String.length (trim query) =? 0)%nat = false)
    by (destruct (trim query); [congruence | reflexivity]).
  assert (Hlong : (1000 <? String.length query)%nat = false) by now apply Nat.ltb_ge.
  rewrite Hblank, Hlong.
  eexists. split; [reflexivity|]. split; [reflexivity|].
  match goal with
  | |- context [firstn ?n (mergeAndScore ?L ?V ?wl ?wv)] =>
      pose proof (top_of_merge L V wl wv n) as Htop;
      pose proof (@merged_map_get L V wl wv) as Hget;
      assert (Hdoc : forall d, scope_of (Api.req_documentId b) = Some d ->
                Forall (fun e => document_id e = d) (mergeAndScore L V wl wv))
        by (intros d Hd; apply (mergeAndScore_documents (fun i => i = d));
            now apply of_document_scoped)
  end.
  cbv zeta in Htop. destruct Htop as (_ & Hle & _ & Hnd & Hs & _).
  split; [exact Hle|]. split; [exact Hnd|]. split; [exact Hs|]. split.
  - intros d Hd r Hr. apply In_firstn in Hr.
    specialize (Hdoc d Hd). rewrite Forall_forall in Hdoc. now apply Hdoc.
  - intros r Hr. apply In_firstn in Hr. apply mergeAndScore_In in Hr.
    specialize (Hget (id r)). rewrite Hr in Hget. apply Hget.
Qed.

(** X16 for a search inside document [a], the stores holding chunks of [a]
    and of [b]. *)
Lemma handler_merge_results_witness :
  let s := ApiSpec.backend (Returned (Some [Q2Qc (1 # 10)]))
             (Data [ApiSpec.chunk_of 1 "a" "AI is..." None;
                    ApiSpec.chunk_of 2 "b" "AI was..." None])
             (Data [ApiSpec.chunk_of 3 "b" "Robots" (Some (Q2Qc (9 # 10)));
                    ApiSpec.chunk_of 1 "a" "AI is..." (Some (Q2Qc (8 # 10)))]) NoData in
  let req := ApiSpec.search_request "ai" (Some (IdStr "a")) None in
  exists found,
    Api.json (fst (Api.handler s req))
    = Api.SearchBody "ai" found (List.length found) "javascript_merge" /\
    List.map id found = [IdNum 1] /\
    forall r, In r found -> document_id r = IdStr "a".
Proof.
  intros s req.
  assert (Hne : trim "ai"%string <> EmptyString) by discriminate.
  assert (Hlen : (String.length "ai" <= 1000)%nat) by (cbn; lia).
  destruct (handler_merge_results s req _ "ai"%string (Some [Q2Qc (1 # 10)])
              eq_refl eq_refl eq_refl Hne Hlen eq_refl eq_refl)
    as (found & Hres & _ & _ & _ & _ & Hdoc & _).
  exists found. split; [now rewrite Hres|]. split.
  - rewrite handler_run in Hres. vm_compute in Hres.
    injection Hres as <-. reflexivity.
  - intros r Hr. now apply (Hdoc (IdStr "a")).
Defined.

(** X17. The SQL branch of the route. For a valid POST whose query was
    embedded and that asks for the SQL function, the handler calls the
    function named after the scope once and nothing else. Its rows are the
    results as they come, not cut to the limit, [total] is their number
    and the method is [sql_function]; an answer without data gives no
    results. An error of the function is answered 500 with the fixed error
    [Internal server error] and the store's message beside it. *)
Theorem handler_sql_function (s : Api.services) (req : Api.http_request)
    (b : Api.body) (query : string) (v : embedding_value) :
  Api.req_method req = "POST"%string ->
  Api.req_body req = Api.Parsed b ->
  Api.req_query b = Some query ->
  trim query <> EmptyString ->
  (String.length query <= 1000)%nat ->
  Api.embeddings_create s (trim query) = Returned v ->
  or_default (Api.req_useSupabaseFunction b) false = true ->
  let lim := or_default (Api.req_limit b) 10%nat in
  let name := match scope_of (Api.req_documentId b) with
              | Some _ => "hybrid_search_document"%string
              | None => "simple_hybrid_search"%string
              end in
  let answer := Api.rpc_hybrid s name v query (scope_of (Api.req_documentId b)) lim in
  snd (Api.handler s req) = [CallEmbedding (trim query); CallHybridRpc name lim] /\
  (forall rows, answer = Data rows ->
     fst (Api.handler s req)
     = {| Api.status := 200;
          Api.json := Api.SearchBody query rows (List.length rows) "sql_function" |}) /\
  (answer = NoData ->
     fst (Api.handler s req)
     = {| Api.status := 200; Api.json := Api.SearchBody query [] 0 "sql_function" |}) /\
  (forall m, answer = Failed m ->
     fst (Api.handler s req)
     = {| Api.status := 500;
          Api.json := Api.ErrorBody "Internal server error" (Some m) |}).
Proof.
  intros Hpost Hbody Hq Hne Hlen Hemb Hsql lim name answer. subst lim name answer.
  rewrite handler_run. rewrite Hpost, Hbody. cbv zeta.
  rewrite Hq, Hemb, Hsql.
  replace (String.eqb "POST" "POST") with true by reflexivity. cbn [negb].
  assert (Hblank : (String.length (trim query) =? 0)%nat = false)
    by (destruct (trim query); [congruence | reflexivity]).
  assert (Hlong : (1000 <? String.length query)%nat = false) by now apply Nat.ltb_ge.
  rewrite Hblank, Hlong.
  destruct (Api.rpc_hybrid s _ v query _ _) as [rows| |m]; cbn [fst snd rows_of].
  - split; [reflexivity|]. split; [now intros rows' [= <-]|]. split; [discriminate|].
    intros m [=].
  - split; [reflexivity|]. split; [intros rows' [=]|]. split; [reflexivity|].
    intros m [=].
  - split; [reflexivity|]. split; [intros rows' [=]|]. split; [discriminate|].
    now intros m' [= <-].
Qed.

(** X17 with a function that returns three rows for the default limit of
    ten, and with one that fails. *)
Lemma handler_sql_function_witness :
  let hit (i : Z) := {| id := IdNum i; document_id := IdStr "a"; chunk := "AI";
                        similarity := None; fts_score := 1; vector_score := 1;
                        hybrid_score := 1 |} in
  let up := ApiSpec.backend (Returned (Some [Q2Qc (1 # 10)])) NoData NoData
              (Data [hit 1%Z; hit 2%Z; hit 3%Z]) in
  let down := ApiSpec.backend (Returned (Some [Q2Qc (1 # 10)])) NoData NoData
                (Failed "function simple_hybrid_search does not exist") in
  let req := ApiSpec.search_request "ai" None (Some true) in
  Api.json (fst (Api.handler up req))
  = Api.SearchBody "ai" [hit 1%Z; hit 2%Z; hit 3%Z] 3 "sql_function" /\
  Api.status (fst (Api.handler down req)) = 500%nat.
Proof.
  intros hit up down req.
  assert (Hne : trim "ai"%string <> EmptyString) by discriminate.
  assert (Hlen : (String.length "ai" <= 1000)%nat) by (cbn; lia).
  destruct (handler_sql_function up req _ "ai"%string (Some [Q2Qc (1 # 10)])
              eq_refl eq_refl eq_refl Hne Hlen eq_refl eq_refl) as (_ & Hrows & _).
  destruct (handler_sql_function down req _ "ai"%string (Some [Q2Qc (1 # 10)])
              eq_refl eq_refl eq_refl Hne Hlen eq_refl eq_refl) as (_ & _ & _ & Hfail).
  split.
  - now rewrite (Hrows _ eq_refl).
  - now rewrite (Hfail _ eq_refl).
Defined.

(** ** The library in front of the route *)

Module TrimFacts.







End TrimFacts.

Import TrimFacts.


(** ** Display records *)

Module FormatFacts.

Lemma substring_length (n : nat) (s : string) :
  String.length (substring 0 n s) = Nat.min n (String.length s).
Proof.
  revert s. induction n as [|n IH]; intros [|c s]; cbn; try reflexivity.
  now rewrite IH.
Qed.

Lemma substring_prefix (n : nat) (s : string) :
  String.prefix (substring 0 n s) s = true.
Proof.
  revert s. induction n as [|n IH]; intros [|c s]; cbn; try reflexivity.
  destruct (Ascii.ascii_dec c c); [apply IH | congruence].
Qed.

Lemma append_length (a b : string) :
  String.length (a ++ b) = (String.length a + String.length b)%nat.
Proof. induction a as [|c a IH]; cbn; [reflexivity | now rewrite IH]. Qed.

End FormatFacts.

Import FormatFacts.

(** X19. Display records. [formatSearchResults] returns one record per
    result, in the same order, with the result's id, document id and full
    text. The preview is the text itself when that has at most 200
    characters; otherwise it is the first 200 characters of the text
    followed by three dots, 203 characters in all. The score shown is the
    hybrid score unless that is 0, in which case it is the similarity, or 0
    when there is none. *)
Theorem formatSearchResults_records (rs : list result) :
  List.length (formatSearchResults rs) = List.length rs /\
  forall i r, nth_error rs i = Some r ->
    exists f, nth_error (formatSearchResults rs) i = Some f /\
      f_id f = id r /\ f_documentId f = document_id r /\ f_text f = chunk r /\
      (String.length (f_preview f) <= 203)%nat /\
      ((String.length (chunk r) <= 200)%nat -> f_preview f = chunk r) /\
      ((200 < String.length (chunk r))%nat ->
         String.length (f_preview f) = 203%nat /\
         exists shown, String.length shown = 200%nat /\
                       String.prefix shown (chunk r) = true /\
                       f_preview f = (shown ++ "...")%string) /\
      (hybrid_score r <> 0 -> f_score f = hybrid_score r) /\
      (hybrid_score r = 0 -> f_score f = or_num (similarity r) 0).
Proof.
  unfold formatSearchResults. split; [apply length_map|].
  intros i r Hr. exists (formatSearchResult r).
  split; [now apply map_nth_error|].
  unfold formatSearchResult. cbn [f_id f_documentId f_text f_preview f_score].
  split; [reflexivity|]. split; [reflexivity|]. split; [reflexivity|].
  destruct (200 <? String.length (chunk r))%nat eqn:Hlong.
  - apply Nat.ltb_lt in Hlong.
    assert (Hshown : String.length (substring 0 200 (chunk r)) = 200%nat)
      by (rewrite substring_length; lia).
    assert (Hlen : String.length (substring 0 200 (chunk r) ++ "...") = 203%nat)
      by (rewrite append_length, Hshown; reflexivity).
    split; [rewrite Hlen; lia|]. split; [lia|]. split.
    + intros _. split; [exact Hlen|].
      exists (substring 0 200 (chunk r)).
      split; [exact Hshown|]. split; [apply substring_prefix | reflexivity].
    + split; intro H.
      * unfold or_num. apply is_zero_eq in H || idtac.
        destruct (is_zero (hybrid_score r)) eqn:Hz; [|reflexivity].
        apply is_zero_eq in Hz. contradiction.
      * unfold or_num at 1. apply is_zero_eq in H. now rewrite H.
  - apply Nat.ltb_ge in Hlong.
    split; [lia|]. split; [reflexivity|]. split; [lia|].
    split; intro H.
    + unfold or_num. destruct (is_zero (hybrid_score r)) eqn:Hz; [|reflexivity].
      apply is_zero_eq in Hz. contradiction.
    + unfold or_num at 1. apply is_zero_eq in H. now rewrite H.
Qed.

(** ** More on the hook *)

Module HookMore.

Lemma abort_length (c : nat) (cs : list bool) :
  List.length (abort c cs) = List.length cs.
Proof.
  revert c. induction cs as [|b cs IH]; intros [|c]; cbn; try reflexivity.
  now rewrite IH.
Qed.

Lemma abort_nth (c : nat) (cs : list bool) :
  (c < List.length cs)%nat -> nth c (abort c cs) false = true.
Proof.
  revert c. induction cs as [|b cs IH]; intros [|c] H; cbn in *; try lia.
  apply IH. lia.
Qed.

Lemma abort_current_length (h : hook) :
  List.length (abort_current h) = List.length (controllers h).
Proof.
  unfold abort_current. destruct (searchAbortControllerRef h); [apply abort_length|reflexivity].
Qed.

Lemma remove_nth_length {A} (i : nat) (l : list A) :
  (List.length (remove_nth i l) <= List.length l)%nat.
Proof.
  revert i. induction l as [|x l IH]; intros [|i]; cbn; try lia.
  specialize (IH i). lia.
Qed.

(** What every state of the hook satisfies: the ref points at an allocated
    controller; the spinner is on only while a search is suspended; no
    blank query was sent; one controller was allocated per search sent;
    and every search sent stems from a [performSearch] call, with the
    hook's defaults under the caller's options. *)
Definition consistent (cfg : config) (h : hook) : Prop :=
  (forall c, searchAbortControllerRef h = Some c -> (c < List.length (controllers h))%nat) /\
  (isSearching h = true -> suspended h <> []) /\
  Forall (fun sent => trim (fst sent) <> EmptyString) (issued h) /\
  List.length (controllers h) = List.length (issued h) /\
  (List.length (suspended h) <= List.length (issued h))%nat /\
  (forall q p, In (q, p) (issued h) ->
     exists o, In (q, o) (executed h) /\ p = searchParams cfg o).

Lemma consistent_initial (cfg : config) : consistent cfg initial.
Proof.
  unfold consistent, initial; cbn. repeat split; try discriminate; try constructor.
  intros q p [].
Qed.

Lemma consistent_performSearch (cfg : config) (q : string) (o : options) (h : hook) :
  consistent cfg h -> consistent cfg (performSearch cfg q o h).
Proof.
  intros (Href & Hspin & Hsent & Hctl & Hsus & Hexec). unfold performSearch.
  destruct (String.length (trim q) =? 0)%nat eqn:Hblank; unfold consistent; cbn -[trim].
  - split; [exact Href|]. split; [exact Hspin|]. split; [exact Hsent|].
    split; [exact Hctl|]. split; [exact Hsus|].
    intros q' p Hin. destruct (Hexec q' p Hin) as (o' & Ho' & ->).
    exists o'. split; [apply in_or_app; now left | reflexivity].
  - split.
    { intros c [= <-]. rewrite length_app. cbn. lia. }
    split.
    { intros _ H. apply app_eq_nil in H. destruct H as [_ H]. discriminate. }
    split.
    { apply Forall_app. split; [exact Hsent|]. constructor; [|constructor]. cbn -[trim].
      intro H. rewrite H in Hblank. discriminate. }
    split.
    { rewrite !length_app, abort_current_length. cbn. lia. }
    split.
    { rewrite !length_app. cbn. lia. }
    intros q' p Hin. apply in_app_or in Hin. destruct Hin as [Hin | [[= <- <-] | []]].
    + destruct (Hexec q' p Hin) as (o' & Ho' & ->).
      exists o'. split; [apply in_or_app; now left | reflexivity].
    + exists o. split; [apply in_or_app; right; now left | reflexivity].
Qed.

Lemma consistent_set_timeout (cfg : config) (t : option timeout) (h : hook) :
  consistent cfg h -> consistent cfg (set_timeout t h).
Proof. intro H. exact H. Qed.

Lemma consistent_set_now (cfg : config) (t : nat) (h : hook) :
  consistent cfg h -> consistent cfg (set_now t h).
Proof. intro H. exact H. Qed.

Lemma consistent_step (cfg : config) (h : hook) (ev : event) :
  consistent cfg h -> consistent cfg (step cfg h ev).
Proof.
  intro H. destruct ev as [q o | q o | | | ms | i res]; cbn [step].
  - exact H.
  - unfold searchNow. now apply consistent_performSearch, consistent_set_timeout.
  - destruct H as (Href & Hspin & Hsent & Hctl & Hsus & Hexec).
    unfold consistent, clearSearch; cbn -[trim]. rewrite abort_current_length.
    repeat split; try assumption. discriminate.
  - destruct H as (Href & Hspin & Hsent & Hctl & Hsus & Hexec).
    unfold consistent, cleanup; cbn -[trim]. rewrite abort_current_length.
    repeat split; assumption.
  - unfold elapse. destruct (debounceTimeoutRef h) as [t|]; [|exact H].
    destruct (t_due t <=? now h + ms)%nat; [|exact H].
    apply consistent_set_now, consistent_performSearch.
    exact H.
  - destruct (nth_error (suspended h) i) as [a|]; [|exact H].
    destruct H as (Href & Hspin & Hsent & Hctl & Hsus & Hexec).
    pose proof (remove_nth_length i (suspended h)) as Hrem.
    unfold consistent, resume.
    destruct (current_aborted _); [|destruct (success res)]; cbn -[trim];
      (split; [discriminate|]); (split; [discriminate|]);
      (split; [exact Hsent|]); (split; [exact Hctl|]); (split; [lia | exact Hexec]).
Qed.

Lemma consistent_run (cfg : config) (evs : list event) :
  forall h, consistent cfg h -> consistent cfg (run cfg h evs).
Proof.
  unfold run. induction evs as [|ev evs IH]; intros h H; cbn; [exact H|].
  now apply IH, consistent_step.
Qed.

End HookMore.

Import HookMore.

(** X20. What the hook keeps true. After any sequence of calls, timer
    firings and resolutions from the initial state: the spinner
    ([isSearching]) is on only while some search is still suspended; no
    blank query has been sent to [hybridSearch]; every search sent stems
    from a [performSearch] call and carries the hook's default limit and
    weights under the caller's options; one abort controller was allocated
    per search sent, and the controller ref, when set, points at one of
    them. *)
Theorem hook_invariants (cfg : config) (evs : list event) :
  let h := run cfg initial evs in
  (isSearching h = true -> suspended h <> []) /\
  Forall (fun sent => trim (fst sent) <> EmptyString) (issued h) /\
  (forall q p, In (q, p) (issued h) ->
     exists o, In (q, o) (executed h) /\ p = searchParams cfg o) /\
  List.length (controllers h) = List.length (issued h) /\
  (List.length (suspended h) <= List.length (issued h))%nat /\
  (forall c, searchAbortControllerRef h = Some c -> (c < List.length (controllers h))%nat).
Proof.
  cbv zeta.
  destruct (consistent_run cfg evs initial (consistent_initial cfg))
    as (Href & Hspin & Hsent & Hctl & Hsus & Hexec).
  split; [exact Hspin|]. split; [exact Hsent|]. split; [exact Hexec|].
  split; [exact Hctl|]. split; [exact Hsus | exact Href].
Qed.

(** X21. Clearing while a search is suspended. In any reachable state with
    a suspended search: when the controller ref is set, [clearSearch]
    aborts that controller and leaves the ref in place, so the
    continuation of the suspended search, whatever it resolved with,
    publishes nothing: results, query text, error and statistics stay
    cleared. When the ref is not set (the [finally] of another search has
    reset it), nothing is aborted and a successful resolution publishes
    its results over the cleared display. In both cases the continuation
    turns the spinner off and resets the ref. *)
Theorem clearSearch_and_suspended (cfg : config) (evs : list event) (i : nat)
    (a : attempt) (res : outcome) :
  let h := run cfg initial evs in
  nth_error (suspended h) i = Some a ->
  let h' := step cfg (clearSearch h) (Resolve i res) in
  (searchAbortControllerRef h <> None ->
     searchResults h' = [] /\ searchQuery h' = EmptyString /\
     searchError h' = None /\ searchStats h' = no_stats) /\
  (searchAbortControllerRef h = None -> success res = true ->
     searchResults h' = formatSearchResults (results res) /\
     searchQuery h' = a_query a /\ st_total (searchStats h') = total res) /\
  isSearching h' = false /\ searchAbortControllerRef h' = None.
Proof.
  cbv zeta. intro Ha.
  destruct (consistent_run cfg evs initial (consistent_initial cfg)) as (Href & _).
  set (h := run cfg initial evs) in *.
  cbn [step clearSearch suspended]. rewrite Ha.
  unfold resume, current_aborted. cbn.
  destruct (searchAbortControllerRef h) as [c|] eqn:Hc.
  - unfold abort_current. rewrite Hc.
    rewrite (abort_nth c (controllers h) (Href c eq_refl)). cbn.
    split; [intros _; repeat split|]. split; [discriminate|]. split; reflexivity.
  - split; [congruence|]. split.
    + intros _ Hs. rewrite Hs. cbn. repeat split.
    + destruct (success res); cbn; split; reflexivity.
Qed.

(** X21 after one immediate search. *)
Lemma clearSearch_and_suspended_witness :
  let h' := run default_config initial
              [SubmitNow "a" no_options; Clear; Resolve 0 (answer "a" "AI is..." 1)] in
  searchResults h' = [] /\ searchQuery h' = EmptyString.
Proof.
  destruct (clearSearch_and_suspended default_config [SubmitNow "a"%string no_options]
              0%nat _ (answer "a" "AI is..." 1) eq_refl) as (Hclear & _).
  destruct (Hclear ltac:(discriminate)) as (Hr & Hq & _).
  split; [exact Hr | exact Hq].
Defined.

(** X22. An immediate call overrides a debounced one. When a debounced
    [search] is followed, before its delay has passed, by [searchNow],
    only the immediate search is ever performed, however much time passes
    afterwards; when it is followed by [clearSearch] or [cleanup], no
    search is performed at all. *)
Theorem immediate_call_cancels_debounce (cfg : config) (h : hook)
    (q1 q2 : string) (o1 o2 : options) (gap ms : nat) :
  (gap < debounceMs cfg)%nat ->
  executed (run cfg h [Submit q1 o1; Elapse gap; SubmitNow q2 o2; Elapse ms])
  = executed h ++ [(q2, o2)] /\
  executed (run cfg h [Submit q1 o1; Elapse gap; Clear; Elapse ms]) = executed h /\
  issued (run cfg h [Submit q1 o1; Elapse gap; Clear; Elapse ms]) = issued h /\
  executed (run cfg h [Submit q1 o1; Elapse gap; Cleanup; Elapse ms]) = executed h /\
  issued (run cfg h [Submit q1 o1; Elapse gap; Cleanup; Elapse ms]) = issued h.
Proof.
  intro Hgap. unfold run. cbn [fold_left step].
  rewrite (elapse_before_due cfg (debouncedSearch cfg q1 o1 h)
             {| t_due := now h + debounceMs cfg; t_query := q1; t_options := o1 |} gap);
    [|reflexivity | cbn; lia].
  split; [|repeat split].
  unfold searchNow, elapse.
  destruct (performSearch_executed cfg q2 o2
              (set_timeout None
                 (set_now (now (debouncedSearch cfg q1 o1 h) + gap)
                    (debouncedSearch cfg q1 o1 h)))) as (He & Ht & _).
  rewrite Ht. cbn [set_timeout debounceTimeoutRef]. cbn [set_now executed].
  rewrite He. reflexivity.
Qed.

(** X22 with the default delay of 300 ms. *)
Lemma immediate_call_cancels_debounce_witness :
  executed (run default_config initial
              [Submit "a" no_options; Elapse 100; SubmitNow "ab" no_options; Elapse 1000])
  = [("ab"%string, no_options)].
Proof.
  assert (Hgap : (100 < debounceMs default_config)%nat) by (cbn; lia).
  destruct (immediate_call_cancels_debounce default_config initial "a"%string "ab"%string
              no_options no_options 100%nat 1000%nat Hgap) as (H & _).
  exact H.
Defined.

(** ** Weights and the search page *)

Module WeightFacts.

(** Unless the caller turns the SQL function off, the weights play no
    part. *)
Lemma hybridSearch_weights (e : env) (q : string) (o : options) (a b : num) :
  or_default (useSupabaseFunction o) true = true ->
  hybridSearch e q (with_weights o a b) = hybridSearch e q o.
Proof.
  intro Hsql. rewrite !hybridSearch_cascade.
  unfold cascade, lexical_rows, document_rows, vector_rows, hybrid_function_name,
    fallback_outcome, found_outcome, error_outcome.
  cbn [with_weights documentId limit useSupabaseFunction fallbackToFTSOnly].
  rewrite Hsql. reflexivity.
Qed.

Lemma sql_path_methods (e : env) (q : string) (o : options) :
  or_default (useSupabaseFunction o) true = true ->
  method (fst (hybridSearch e q o)) <> Some "javascript_merge"%string /\
  Forall (within (scope_of (documentId o)) (or_default (limit o) 10%nat))
    (snd (hybridSearch e q o)).
Proof.
  intro Hsql. rewrite hybridSearch_cascade. unfold cascade, hybrid_function_name.
  rewrite Hsql.
  destruct (String.length (trim q) =? 0)%nat; [split; [discriminate | constructor]|].
  destruct (generateQueryEmbedding e q []) as [c log] eqn:Hgen.
  assert (Hlog : Forall (within (scope_of (documentId o)) (or_default (limit o) 10%nat)) log).
  { apply generateQueryEmbedding_log in Hgen. destruct Hgen as [-> | ->];
      repeat constructor. }
  destruct c as [v|message].
  - destruct (hybrid_function e v q _ _); cbn [fst snd]; (split; [discriminate|]);
      apply Forall_app; (split; [exact Hlog|]); repeat constructor;
      now destruct (scope_of (documentId o)).
  - destruct (or_default (fallbackToFTSOnly o) true); [|split; [discriminate | exact Hlog]].
    destruct (List.length (lexical_rows e q o (or_default (limit o) 10)) =? 0)%nat;
      cbn [fst snd]; (split; [simpl; destruct (0 <? _)%nat; discriminate|]);
      apply Forall_app; (split; [exact Hlog|]); repeat constructor.
Qed.

Lemma scope_of_idempotent (d : option ident) : scope_of (scope_of d) = scope_of d.
Proof. destruct d as [[[| |]|[|]]|]; reflexivity. Qed.

(** The two forms an outcome takes. *)
Lemma hybridSearch_forms (e : env) (q : string) (o : options) :
  (exists q' m rs, fst (hybridSearch e q o) = found_outcome q' m rs) \/
  (exists m, fst (hybridSearch e q o) = error_outcome q m).
Proof.
  rewrite hybridSearch_cascade.
  remember (fst (cascade e q o)) as out eqn:Hout.
  unfold cascade, fallback_outcome in Hout.
  destruct (String.length (trim q) =? 0)%nat; [left; subst; cbn; eauto|].
  destruct (generateQueryEmbedding e q []) as [[v|message] log].
  - destruct (or_default (useSupabaseFunction o) true).
    + destruct (hybrid_function e v q (scope_of (documentId o))
                  (or_default (limit o) 10%nat)); cbn [fst] in Hout; subst; eauto.
    + destruct (List.length (lexical_rows e q o (or_default (limit o) 10 * 2)) =? 0)%nat;
        cbn [fst] in Hout; subst; eauto.
  - destruct (or_default (fallbackToFTSOnly o) true); [|cbn [fst] in Hout; subst; eauto].
    destruct (List.length (lexical_rows e q o (or_default (limit o) 10)) =? 0)%nat;
      cbn [fst] in Hout; subst; eauto.
Qed.

End WeightFacts.

Import WeightFacts.



(** X24. The search page. A search from the page with a blank query
    changes nothing and makes no request. Otherwise it ends with the
    spinner off, either without error and with statistics (the duration,
    the number of the results shown, and a method that is never
    [javascript_merge], since the page never turns the SQL function off),
    or with an error, no results and the statistics of before. As the page
    passes only the limit 10 and the selected document, the three search
    modes behave alike: the results, the error, the total, the method and
    the requests of a keyword or a semantic search are those of the hybrid
    search. Every request is made for the selected document (for none when
    no document is selected) and asks for at most 10 rows. *)
Theorem page_search_modes (e : env) (duration : nat) (p : Page.page) :
  let after := fst (Page.performSearch e duration p) in
  let log := snd (Page.performSearch e duration p) in
  let hybrid := Page.performSearch e duration (Page.in_mode "hybrid" p) in
  (trim (Page.p_query p) = EmptyString -> after = p /\ log = []) /\
  (trim (Page.p_query p) <> EmptyString ->
     Page.p_isSearching after = false /\
     ((Page.p_error after = EmptyString /\
       exists st, Page.p_searchStats after = Some st /\
                  Page.s_duration st = duration /\
                  Page.s_total st = List.length (Page.p_results after) /\
                  Page.s_method st <> None /\
                  Page.s_method st <> Some "javascript_merge"%string) \/
      (Page.p_error after <> EmptyString /\ Page.p_results after = [] /\
       Page.p_searchStats after = Page.p_searchStats p))) /\
  (Page.p_results after = Page.p_results (fst hybrid) /\
   Page.p_error after = Page.p_error (fst hybrid) /\
   option_map Page.s_total (Page.p_searchStats after)
   = option_map Page.s_total (Page.p_searchStats (fst hybrid)) /\
   option_map Page.s_method (Page.p_searchStats after)
   = option_map Page.s_method (Page.p_searchStats (fst hybrid)) /\
   log = snd hybrid) /\
  Forall (within (scope_of (Page.p_selectedDocument p)) 10) log.
Proof.
  cbv zeta.
  assert (Hk : Wrappers.keywordSearch e (Page.p_query p) (Page.searchOptions p)
               = hybridSearch e (Page.p_query p) (Page.searchOptions p))
    by (exact (hybridSearch_weights e _ (Page.searchOptions p) _ _ eq_refl)).
  assert (Hs : Wrappers.semanticSearch e (Page.p_query p) (Page.searchOptions p)
               = hybridSearch e (Page.p_query p) (Page.searchOptions p))
    by (exact (hybridSearch_weights e _ (Page.searchOptions p) _ _ eq_refl)).
  destruct (sql_path_methods e (Page.p_query p) (Page.searchOptions p) eq_refl)
    as [Hmethod Hlog].
  cbn [Page.searchOptions documentId limit or_default] in Hlog.
  rewrite scope_of_idempotent in Hlog.
  pose proof (hybridSearch_forms e (Page.p_query p) (Page.searchOptions p)) as Hforms.
  assert (Hall : forall mode,
    let r := Page.handleSearch hybridSearch mode e duration p in
    let h := Page.handleSearch hybridSearch "hybrid" e duration (Page.in_mode "hybrid" p) in
    (trim (Page.p_query p) = EmptyString -> fst r = p /\ snd r = []) /\
    (trim (Page.p_query p) <> EmptyString ->
       Page.p_isSearching (fst r) = false /\
       ((Page.p_error (fst r) = EmptyString /\
         exists st, Page.p_searchStats (fst r) = Some st /\
                    Page.s_duration st = duration /\
                    Page.s_total st = List.length (Page.p_results (fst r)) /\
                    Page.s_method st <> None /\
                    Page.s_method st <> Some "javascript_merge"%string) \/
        (Page.p_error (fst r) <> EmptyString /\ Page.p_results (fst r) = [] /\
         Page.p_searchStats (fst r) = Page.p_searchStats p))) /\
    (Page.p_results (fst r) = Page.p_results (fst h) /\
     Page.p_error (fst r) = Page.p_error (fst h) /\
     option_map Page.s_total (Page.p_searchStats (fst r))
     = option_map Page.s_total (Page.p_searchStats (fst h)) /\
     option_map Page.s_method (Page.p_searchStats (fst r))
     = option_map Page.s_method (Page.p_searchStats (fst h)) /\
     snd r = snd h) /\
    Forall (within (scope_of (Page.p_selectedDocument p)) 10) (snd r)).
  { intro mode. cbv zeta. unfold Page.handleSearch.
    cbn [Page.in_mode Page.p_query Page.p_selectedDocument Page.p_searchStats
         Page.p_searchMode].
    change (Page.searchOptions (Page.in_mode "hybrid" p)) with (Page.searchOptions p).
    destruct (String.length (trim (Page.p_query p)) =? 0)%nat eqn:Hblank.
    { apply blank_trim in Hblank. cbn [fst snd].
      split; [now split|]. split; [congruence|].
      split; [repeat split | constructor]. }
    assert (Hne : trim (Page.p_query p) <> EmptyString)
      by (intro H; apply blank_trim in H; congruence).
    destruct (hybridSearch e (Page.p_query p) (Page.searchOptions p)) as [out log].
    cbn [fst snd] in *.
    split; [congruence|].
    destruct Hforms as [(q' & m & rs & ->) | (m & ->)];
      cbn [success found_outcome error_outcome results total method error fst snd
           Page.p_isSearching Page.p_error Page.p_searchStats Page.p_results
           option_map Page.s_total Page.s_method] in *.
    - split; [intros _; split; [reflexivity|]; left; split; [reflexivity|]|].
      + eexists. split; [reflexivity|].
        cbn [Page.s_duration Page.s_total Page.s_method].
        repeat split; [discriminate | exact Hmethod].
      + split; [repeat split | exact Hlog].
    - split; [intros _; split; [reflexivity|]; right|].
      + split; [|split; reflexivity].
        unfold Lib.or_string. destruct (nonempty m) eqn:Hm; [|discriminate].
        destruct m; [discriminate | discriminate].
      + split; [repeat split | exact Hlog]. }
  unfold Page.performSearch.
  cbn [Page.in_mode Page.p_searchMode].
  replace (String.eqb "hybrid" "keyword") with false by reflexivity.
  replace (String.eqb "hybrid" "semantic") with false by reflexivity.
  destruct (String.eqb (Page.p_searchMode p) "keyword").
  { replace (Page.handleSearch Wrappers.keywordSearch "keyword" e duration p)
      with (Page.handleSearch hybridSearch "keyword" e duration p)
      by (unfold Page.handleSearch; now rewrite Hk).
    exact (Hall "keyword"%string). }
  destruct (String.eqb (Page.p_searchMode p) "semantic").
  { replace (Page.handleSearch Wrappers.semanticSearch "semantic" e duration p)
      with (Page.handleSearch hybridSearch "semantic" e duration p)
      by (unfold Page.handleSearch; now rewrite Hs).
    exact (Hall "semantic"%string). }
  exact (Hall "hybrid"%string).
Qed.

(** X25. One search, start to end. From any state of the hook with no
    search suspended and no debounce pending, an immediate search for a
    non-blank query turns the spinner on and sends one [hybridSearch] call
    with the hook's defaults under the caller's options. When that call
    resolves after [ms] milliseconds the spinner goes off. A successful
    outcome is published: the formatted results, the query text, no error,
    and statistics with the outcome's total and method and the duration
    [ms]. A failed outcome publishes its message ([Search failed] when it
    has none), empties the results and resets the statistics, and leaves
    the query text of the previous search in place. *)
Theorem single_search_lifecycle (cfg : config) (h : hook) (q : string)
    (o : options) (ms : nat) (res : outcome) :
  suspended h = [] -> debounceTimeoutRef h = None -> trim q <> EmptyString ->
  let started := run cfg h [SubmitNow q o] in
  let ended := run cfg h [SubmitNow q o; Elapse ms; Resolve 0 res] in
  isSearching started = true /\ searchError started = None /\
  issued started = issued h ++ [(q, searchParams cfg o)] /\
  isSearching ended = false /\ suspended ended = [] /\
  issued ended = issued started /\
  (success res = true ->
     searchResults ended = formatSearchResults (results res) /\
     searchQuery ended = q /\ searchError ended = None /\
     searchStats ended = {| st_total := total res; st_method := method res;
                            st_duration := ms |}) /\
  (success res = false ->
     searchResults ended = [] /\
     searchError ended = Some (or_string (error res) "Search failed") /\
     searchStats ended = no_stats /\ searchQuery ended = searchQuery h).
Proof.
  intros Hsus Htimer Hq. cbv zeta. unfold run. cbn [fold_left step].
  unfold searchNow, performSearch.
  assert (Hblank : (String.length (trim q) =? 0)%nat = false)
    by (destruct (trim q); [congruence | reflexivity]).
  rewrite Hblank. cbn [set_timeout isSearching searchError issued suspended
                       debounceTimeoutRef controllers now searchResults searchQuery
                       searchStats searchAbortControllerRef executed].
  split; [reflexivity|]. split; [reflexivity|]. split; [reflexivity|].
  unfold elapse. cbn [debounceTimeoutRef set_now suspended isSearching searchError issued
                      controllers now searchResults searchQuery searchStats
                      searchAbortControllerRef executed].
  rewrite Hsus. cbn [app nth_error remove_nth].
  unfold resume, current_aborted.
  cbn [searchAbortControllerRef controllers now searchResults searchQuery searchError
       searchStats a_query a_startTime a_params].
  rewrite app_nth2 by lia. rewrite Nat.sub_diag. cbn [nth].
  replace (now h + ms - now h)%nat with ms by lia.
  destruct (success res); cbn;
    (split; [reflexivity|]); (split; [reflexivity|]); (split; [reflexivity|]);
    split; try discriminate; intros _; repeat split.
Qed.

(** X25 from the initial state. *)
Lemma single_search_lifecycle_witness :
  let ended := run default_config initial
                 [SubmitNow "a" no_options; Elapse 120; Resolve 0 (answer "a" "AI is..." 1)] in
  searchQuery ended = "a"%string /\ st_duration (searchStats ended) = 120%nat /\
  isSearching ended = false.
Proof.
  assert (Hq : trim "a"%string <> EmptyString) by discriminate.
  destruct (single_search_lifecycle default_config initial "a"%string no_options 120%nat
              (answer "a" "AI is..." 1) eq_refl eq_refl Hq)
    as (_ & _ & _ & Hoff & _ & _ & Hok & _).
  destruct (Hok eq_refl) as (_ & Hquery & _ & Hstats).
  split; [exact Hquery|]. split; [now rewrite Hstats | exact Hoff].
Defined.

(** ** The auto-save hook *)

Module AutoSaveFacts.
Import AutoSave.

Lemma ready_scope (p : props) :
  ready p = true -> exists d, scope_of (as_documentId p) = Some d.
Proof.
  unfold ready. destruct (as_editor p); [|discriminate].
  destruct (scope_of (as_documentId p)) as [d|]; [eauto | discriminate].
Qed.

Lemma last_shift {A} (l : list A) (a b : A) : last (a :: l) b = last l a.
Proof.
  revert a b. induction l as [|x l IH]; intros a b; [reflexivity|].
  change (last (a :: x :: l) b) with (last (x :: l) b). now rewrite !IH.
Qed.

(** A pending debounce that is not yet due survives the passing of time,
    and nothing is sent. *)
Lemma elapse_keeps_debounce (p : props) (s : saver) (t : timer) (c : node) (ms : nat) :
  debounceTimeoutRef s = Some (t, c) -> (clock s + ms < due t)%nat ->
  debounceTimeoutRef (elapse p ms s) = Some (t, c) /\
  sent (elapse p ms s) = sent s /\ in_flight (elapse p ms s) = in_flight s /\
  listening (elapse p ms s) = listening s /\ clock (elapse p ms s) = (clock s + ms)%nat.
Proof.
  intros Ht Hlt. unfold elapse. rewrite Ht.
  assert (Hd : falls_due (clock s + ms) t = false)
    by (unfold falls_due; apply Nat.leb_gt; lia).
  rewrite Hd.
  destruct (statusTimeoutRef s) as [u|]; [destruct (falls_due (clock s + ms) u)|];
    cbn; now rewrite ?Ht.
Qed.

(** Through a burst the timeout of the last update is the pending one, and
    nothing has been sent. *)
Lemma updates_pending (p : props) (rest : list (nat * node)) : forall s c,
  listening s = true ->
  Forall (fun u => (fst u < 2000)%nat) rest ->
  let s' := run p (handleUpdate c s)
              (flat_map (fun u => [Elapse (fst u); Update (snd u)]) rest) in
  (exists k, debounceTimeoutRef s'
             = Some ({| due := clock s' + 2000; seq := k |}, last_content c rest)) /\
  sent s' = sent s /\ in_flight s' = in_flight s /\ listening s' = true.
Proof.
  induction rest as [|[gap c'] rest IH]; intros s c Hl Hgaps.
  - cbn. unfold handleUpdate. rewrite Hl. cbn. split; [eauto|]. repeat split. exact Hl.
  - inversion Hgaps as [|? ? Hgap Hrest]; subst. cbn [fst] in Hgap.
    cbn [flat_map app run fold_left step fst snd].
    assert (Hpend : debounceTimeoutRef (handleUpdate c s)
                    = Some ({| due := clock s + 2000; seq := timers_set s |}, c))
      by (unfold handleUpdate; rewrite Hl; reflexivity).
    assert (Hclock : clock (handleUpdate c s) = clock s)
      by (unfold handleUpdate; rewrite Hl; reflexivity).
    destruct (elapse_keeps_debounce p (handleUpdate c s) _ c gap Hpend)
      as (_ & Hsent & Hfly & Hlis & _).
    { rewrite Hclock. cbn. lia. }
    assert (Hl' : listening (elapse p gap (handleUpdate c s)) = true).
    { rewrite Hlis. unfold handleUpdate. rewrite Hl. exact Hl. }
    specialize (IH (elapse p gap (handleUpdate c s)) c' Hl' Hrest).
    cbv zeta in IH. unfold run in IH. destruct IH as (Hk & Hs & Hf & Hli).
    cbv zeta. unfold run.
    assert (Hlast : last_content c ((gap, c') :: rest) = last_content c' rest)
      by (unfold last_content; cbn [List.map snd]; apply last_shift).
    assert (Hsent0 : sent (handleUpdate c s) = sent s)
      by (unfold handleUpdate; rewrite Hl; reflexivity).
    assert (Hfly0 : in_flight (handleUpdate c s) = in_flight s)
      by (unfold handleUpdate; rewrite Hl; reflexivity).
    rewrite Hlast. split; [exact Hk|].
    split; [now rewrite Hs, Hsent, Hsent0|].
    split; [now rewrite Hf, Hfly, Hfly0 | exact Hli].
Qed.

Lemma saveToSupabase_listening (p : props) (c : node) (s : saver) :
  listening (saveToSupabase p c s) = listening s.
Proof. unfold saveToSupabase. now destruct (scope_of (as_documentId p)). Qed.

Lemma fire_debounce_listening (p : props) (s : saver) :
  listening (fire_debounce p s) = listening s.
Proof.
  unfold fire_debounce. destruct (debounceTimeoutRef s) as [[t c]|]; [|reflexivity].
  now rewrite saveToSupabase_listening.
Qed.

Lemma elapse_listening (p : props) (ms : nat) (s : saver) :
  listening (elapse p ms s) = listening s.
Proof.
  unfold elapse. cbn [listening set_clock].
  destruct (debounceTimeoutRef s) as [[d c]|], (statusTimeoutRef s) as [t|];
    repeat match goal with
           | |- context [if ?b then _ else _] => destruct b
           end;
    cbn [fire_status listening]; rewrite ?fire_debounce_listening; reflexivity.
Qed.

(** The listener is attached only when there are an editor and a
    document. *)
Lemma listening_ready (p : props) (evs : list event) :
  forall s, (listening s = true -> ready p = true) ->
  listening (run p s evs) = true -> ready p = true.
Proof.
  unfold run. induction evs as [|ev evs IH]; intros s Hs; cbn [fold_left]; [exact Hs|].
  apply IH. destruct ev as [c | c | ms | i ok |]; cbn [step].
  - unfold handleUpdate. destruct (listening s) eqn:E; [cbn; intros _; now apply Hs | now rewrite E].
  - unfold saveNow. destruct (ready p); [reflexivity|exact Hs].
  - now rewrite elapse_listening.
  - destruct (nth_error (in_flight s) i); [cbn; exact Hs | exact Hs].
  - cbn. discriminate.
Qed.

Lemma remove_last {A} (l : list A) (x : A) :
  nth_error (l ++ [x]) (List.length l) = Some x /\
  Hook.remove_nth (List.length l) (l ++ [x]) = l.
Proof.
  induction l as [|y l [IH1 IH2]]; cbn; [now split|].
  split; [exact IH1 | now rewrite IH2].
Qed.

End AutoSaveFacts.

Import AutoSaveFacts.

(** X26. Auto-save coalesces updates. In any state of the hook reached
    from its mount in which the editor listener is attached, a burst of
    one or more editor updates, each arriving less than 2 seconds after
    the previous one, followed by 2 quiet seconds or more, sends exactly
    one save to the store, with the editor content of the last update; it
    is then awaiting the store's reply, and no debounce timeout stays
    pending. *)
Theorem autosave_coalesces (p : AutoSave.props) (evs : list AutoSave.event)
    (first : node) (rest : list (nat * node)) (wait : nat) :
  let s := AutoSave.run p (AutoSave.initial p) evs in
  AutoSave.listening s = true ->
  Forall (fun u => (fst u < 2000)%nat) rest ->
  (2000 <= wait)%nat ->
  let final := AutoSave.run p s (AutoSave.burst first rest ++ [AutoSave.Elapse wait]) in
  AutoSave.sent final = AutoSave.sent s ++ [AutoSave.last_content first rest] /\
  AutoSave.in_flight final
  = AutoSave.in_flight s ++ [AutoSave.last_content first rest] /\
  AutoSave.debounceTimeoutRef final = None.
Proof.
  cbv zeta. intros Hl Hgaps Hwait.
  assert (Hready : AutoSave.ready p = true).
  { apply (listening_ready p evs (AutoSave.initial p)); [intro H; exact H | exact Hl]. }
  destruct (ready_scope p Hready) as [d Hd].
  set (s := AutoSave.run p (AutoSave.initial p) evs) in *.
  unfold AutoSave.run, AutoSave.burst. rewrite fold_left_app.
  cbn [fold_left AutoSave.step].
  destruct (updates_pending p rest s first Hl Hgaps) as ([k Hk] & Hs & Hf & _).
  unfold AutoSave.run in Hk, Hs, Hf.
  set (s' := fold_left (AutoSave.step p)
               (flat_map (fun u => [AutoSave.Elapse (fst u); AutoSave.Update (snd u)]) rest)
               (AutoSave.handleUpdate first s)) in *.
  unfold AutoSave.elapse. rewrite Hk.
  assert (Hdue : AutoSave.falls_due (AutoSave.clock s' + wait)
                   {| AutoSave.due := AutoSave.clock s' + 2000; AutoSave.seq := k |} = true)
    by (unfold AutoSave.falls_due; apply Nat.leb_le; cbn; lia).
  rewrite Hdue.
  unfold AutoSave.fire_debounce, AutoSave.saveToSupabase. rewrite Hd.
  destruct (AutoSave.statusTimeoutRef s') as [t|];
    [destruct (AutoSave.falls_due (AutoSave.clock s' + wait) t);
     [destruct (AutoSave.before _ t)|]|];
    cbn; rewrite ?Hk; cbn; rewrite Hs, Hf; repeat split.
Qed.

(** X26 on three updates 500 ms and 1500 ms apart, then 2 s of quiet. *)
Lemma autosave_coalesces_witness :
  let p := {| AutoSave.as_editor := true; AutoSave.as_documentId := Some (IdStr "d1") |} in
  AutoSave.sent
    (AutoSave.run p (AutoSave.initial p)
       [AutoSave.Update (AutoSave.draft "H"); AutoSave.Elapse 500;
        AutoSave.Update (AutoSave.draft "He"); AutoSave.Elapse 1500;
        AutoSave.Update (AutoSave.draft "Hey"); AutoSave.Elapse 2000])
  = [AutoSave.draft "Hey"].
Proof.
  intro p.
  assert (Hgaps : Forall (fun u : nat * node => (fst u < 2000)%nat)
                    [(500%nat, AutoSave.draft "He"); (1500%nat, AutoSave.draft "Hey")])
    by (repeat constructor; cbn; lia).
  destruct (autosave_coalesces p [] (AutoSave.draft "H")
              [(500%nat, AutoSave.draft "He"); (1500%nat, AutoSave.draft "Hey")]
              2000%nat eq_refl Hgaps ltac:(lia)) as (H & _).
  exact H.
Defined.

(** X27. No document, no save. When the hook has no editor or no document
    (the id is absent or falsy), nothing is ever sent to the store,
    whatever the editor emits, however often [saveNow] is called and
    however much time passes: the status stays [idle] and no timeout is
    ever set. *)
Theorem autosave_needs_document (p : AutoSave.props) (evs : list AutoSave.event) :
  AutoSave.ready p = false ->
  let s := AutoSave.run p (AutoSave.initial p) evs in
  AutoSave.sent s = [] /\ AutoSave.in_flight s = [] /\
  AutoSave.saveStatus s = AutoSave.StatusIdle /\
  AutoSave.debounceTimeoutRef s = None /\ AutoSave.statusTimeoutRef s = None /\
  AutoSave.timers_set s = 0%nat.
Proof.
  intro Hready. cbv zeta.
  assert (Hinv : forall s,
    (AutoSave.sent s = [] /\ AutoSave.in_flight s = [] /\
     AutoSave.saveStatus s = AutoSave.StatusIdle /\
     AutoSave.debounceTimeoutRef s = None /\ AutoSave.statusTimeoutRef s = None /\
     AutoSave.timers_set s = 0%nat /\ AutoSave.listening s = false) ->
    let s' := AutoSave.run p s evs in
    AutoSave.sent s' = [] /\ AutoSave.in_flight s' = [] /\
    AutoSave.saveStatus s' = AutoSave.StatusIdle /\
    AutoSave.debounceTimeoutRef s' = None /\ AutoSave.statusTimeoutRef s' = None /\
    AutoSave.timers_set s' = 0%nat /\ AutoSave.listening s' = false).
  { unfold AutoSave.run. induction evs as [|ev evs IH]; intros s Hs; cbn [fold_left];
      [exact Hs|].
    apply IH. destruct Hs as (H1 & H2 & H3 & H4 & H5 & H6 & H7).
    destruct ev as [c | c | ms | i ok |]; cbn [AutoSave.step].
    - unfold AutoSave.handleUpdate. rewrite H7. now repeat split.
    - unfold AutoSave.saveNow. rewrite Hready. now repeat split.
    - unfold AutoSave.elapse. rewrite H4, H5. cbn. now repeat split.
    - rewrite H2. destruct i; cbn; now repeat split.
    - cbn. now repeat split. }
  specialize (Hinv (AutoSave.initial p)). cbv zeta in Hinv.
  destruct Hinv as (H1 & H2 & H3 & H4 & H5 & H6 & _).
  - unfold AutoSave.initial; cbn. now repeat split.
  - now repeat split.
Qed.

(** X27 for a hook without document. *)
Lemma autosave_needs_document_witness :
  let p := {| AutoSave.as_editor := true; AutoSave.as_documentId := None |} in
  AutoSave.sent
    (AutoSave.run p (AutoSave.initial p)
       [AutoSave.Update (AutoSave.draft "H"); AutoSave.Elapse 5000;
        AutoSave.SaveNow (AutoSave.draft "H")]) = [].
Proof.
  intro p.
  destruct (autosave_needs_document p
              [AutoSave.Update (AutoSave.draft "H"); AutoSave.Elapse 5000;
               AutoSave.SaveNow (AutoSave.draft "H")] eq_refl) as (H & _).
  exact H.
Defined.

(** X28. The status of one save. With an editor and a document, from any
    state of the hook, [saveNow] drops the pending debounce, sets the
    status to [saving] and sends the editor content. When the store
    replies the status becomes [saved], or [error] if the store reported
    one; it stays so for the next 2 seconds and is [idle] again once 2
    seconds have passed, if nothing else happens in between. *)
Theorem autosave_status_cycle (p : AutoSave.props) (s : AutoSave.saver)
    (c : node) (ok : bool) (t1 t2 : nat) :
  AutoSave.ready p = true ->
  let saving := AutoSave.run p s [AutoSave.SaveNow c] in
  let replied :=
    AutoSave.run p s [AutoSave.SaveNow c; AutoSave.Elapse t1;
                      AutoSave.Reply (List.length (AutoSave.in_flight s)) ok] in
  AutoSave.saveStatus saving = AutoSave.StatusSaving /\
  AutoSave.debounceTimeoutRef saving = None /\
  AutoSave.sent saving = AutoSave.sent s ++ [c] /\
  AutoSave.sent replied = AutoSave.sent s ++ [c] /\
  AutoSave.in_flight replied = AutoSave.in_flight s /\
  AutoSave.saveStatus replied
  = (if ok then AutoSave.StatusSaved else AutoSave.StatusError) /\
  ((t2 < 2000)%nat ->
   AutoSave.saveStatus (AutoSave.run p replied [AutoSave.Elapse t2])
   = AutoSave.saveStatus replied) /\
  ((2000 <= t2)%nat ->
   AutoSave.saveStatus (AutoSave.run p replied [AutoSave.Elapse t2])
   = AutoSave.StatusIdle).
Proof.
  intro Hready. cbv zeta. destruct (ready_scope p Hready) as [d Hd].
  unfold AutoSave.run. cbn [fold_left AutoSave.step].
  unfold AutoSave.saveNow, AutoSave.saveToSupabase. rewrite Hready, Hd.
  cbn [AutoSave.set_debounce AutoSave.saveStatus AutoSave.debounceTimeoutRef
       AutoSave.sent AutoSave.in_flight AutoSave.statusTimeoutRef AutoSave.timers_set
       AutoSave.clock AutoSave.listening].
  split; [reflexivity|]. split; [reflexivity|]. split; [reflexivity|].
  destruct (remove_last (AutoSave.in_flight s) c) as [Hnth Hrem].
  assert (Hel : forall st,
    AutoSave.debounceTimeoutRef st = None ->
    AutoSave.in_flight (AutoSave.elapse p t1 st) = AutoSave.in_flight st /\
    AutoSave.sent (AutoSave.elapse p t1 st) = AutoSave.sent st /\
    AutoSave.debounceTimeoutRef (AutoSave.elapse p t1 st) = None).
  { intros st Hst. unfold AutoSave.elapse. rewrite Hst.
    destruct (AutoSave.statusTimeoutRef st) as [t|];
      [destruct (AutoSave.falls_due _ t)|]; cbn; now rewrite ?Hst. }
  match goal with
  | |- context [AutoSave.elapse p t1 ?st] =>
      destruct (Hel st eq_refl) as (Hfly & Hsent & Hdeb);
      set (waited := AutoSave.elapse p t1 st) in *
  end.
  cbn [AutoSave.in_flight AutoSave.sent] in Hfly, Hsent.
  rewrite Hfly, Hnth, Hrem.
  unfold AutoSave.settle.
  cbn [AutoSave.saveStatus AutoSave.debounceTimeoutRef AutoSave.sent AutoSave.in_flight
       AutoSave.statusTimeoutRef AutoSave.timers_set AutoSave.clock AutoSave.listening].
  split; [exact Hsent|]. split; [reflexivity|]. split; [reflexivity|].
  unfold AutoSave.elapse.
  cbn [AutoSave.saveStatus AutoSave.debounceTimeoutRef AutoSave.sent AutoSave.in_flight
       AutoSave.statusTimeoutRef AutoSave.timers_set AutoSave.clock AutoSave.listening].
  rewrite Hdeb. unfold AutoSave.falls_due. cbn [AutoSave.due].
  split; intro Ht.
  - assert (E : (AutoSave.clock waited + 2000 <=? AutoSave.clock waited + t2)%nat = false)
      by (apply Nat.leb_gt; lia).
    rewrite E. reflexivity.
  - assert (E : (AutoSave.clock waited + 2000 <=? AutoSave.clock waited + t2)%nat = true)
      by (apply Nat.leb_le; lia).
    rewrite E. reflexivity.
Qed.

(** X28 for a save the store rejects. *)
Lemma autosave_status_cycle_witness :
  let p := {| AutoSave.as_editor := true; AutoSave.as_documentId := Some (IdStr "d1") |} in
  AutoSave.saveStatus
    (AutoSave.run p (AutoSave.initial p)
       [AutoSave.SaveNow (AutoSave.draft "H"); AutoSave.Elapse 40;
        AutoSave.Reply 0 false]) = AutoSave.StatusError.
Proof.
  intro p.
  destruct (autosave_status_cycle p (AutoSave.initial p) (AutoSave.draft "H") false
              40%nat 0%nat eq_refl) as (_ & _ & _ & _ & _ & H & _).
  exact H.
Defined.

(** ** The presets of the API-backed library *)

Module PresetFacts.

Lemma preset_sum_positive :
  ltb 0 (Q2Qc (8 # 10) + Q2Qc (2 # 10)) = true /\
  ltb 0 (Q2Qc (2 # 10) + Q2Qc (8 # 10)) = true.
Proof. split; reflexivity. Qed.

Lemma preset_quotients :
  Q2Qc (8 # 10) / (Q2Qc (8 # 10) + Q2Qc (2 # 10)) = Q2Qc (8 # 10) /\
  Q2Qc (2 # 10) / (Q2Qc (8 # 10) + Q2Qc (2 # 10)) = Q2Qc (2 # 10) /\
  Q2Qc (2 # 10) / (Q2Qc (2 # 10) + Q2Qc (8 # 10)) = Q2Qc (2 # 10) /\
  Q2Qc (8 # 10) / (Q2Qc (2 # 10) + Q2Qc (8 # 10)) = Q2Qc (8 # 10).
Proof. repeat split; apply Qc_is_canon; reflexivity. Qed.

#[warnings="-inexact-float"]
Lemma preset_binary64 :
  PrimFloat.ltb 0 (0.8 + 0.2) = true /\
  PrimFloat.ltb 0 (0.2 + 0.8) = true /\
  (0.8 / (0.8 + 0.2) = 0.8)%float /\
  (0.2 / (0.8 + 0.2) = 0.2)%float /\
  (0.2 / (0.2 + 0.8) = 0.2)%float /\
  (0.8 / (0.2 + 0.8) = 0.8)%float.
Proof. repeat split; vm_compute; reflexivity. Qed.

(** Over the route, unless the SQL function is turned off, the weights
    play no part. *)
Lemma route_weights (s : Api.services) (q : string) (o : options) (a b : num) :
  or_default (useSupabaseFunction o) true = true ->
  Lib.hybridSearch (Api.fetch_route s) q (with_weights o a b)
  = Lib.hybridSearch (Api.fetch_route s) q o.
Proof.
  intro Hsql. unfold Lib.hybridSearch, Api.fetch_route. rewrite !handler_run. cbv zeta.
  unfold request_of, Api.post.
  cbn [with_weights documentId limit ftsWeight vectorWeight useSupabaseFunction
       Api.req_method Api.req_body Api.req_query Api.req_documentId
       Api.req_limit Api.req_ftsWeight Api.req_vectorWeight Api.req_useSupabaseFunction
       b_query b_documentId b_limit b_ftsWeight b_vectorWeight b_useSupabaseFunction].
  rewrite Hsql. cbn [or_default]. reflexivity.
Qed.

End PresetFacts.

Import PresetFacts.

(** X29. The presets of the API-backed library. [keywordSearch] is
    [hybridSearch] with the weights 0.8 and 0.2, [semanticSearch] with 0.2
    and 0.8, in place of the caller's: the normalisation of
    [weightedSearch] leaves these weights as they are, in exact arithmetic
    and on binary64 alike. Run against the route, the two presets give the
    outcome of a plain [hybridSearch] unless the caller passes
    [useSupabaseFunction: false], since the SQL branch of the route does
    not use the weights. *)
#[warnings="-inexact-float"]
Theorem library_presets (server : api) (q : string) (o : options) :
  Lib.keywordSearch server q o
  = Lib.hybridSearch server q (with_weights o (Q2Qc (8 # 10)) (Q2Qc (2 # 10))) /\
  Lib.semanticSearch server q o
  = Lib.hybridSearch server q (with_weights o (Q2Qc (2 # 10)) (Q2Qc (8 # 10))) /\
  (forall o64 : options_of float,
     weightedSearch_call_binary64 q 0.8 0.2 o64 = (q, with_weights o64 0.8%float 0.2%float) /\
     weightedSearch_call_binary64 q 0.2 0.8 o64 = (q, with_weights o64 0.2%float 0.8%float)) /\
  (forall s : Api.services,
     or_default (useSupabaseFunction o) true = true ->
     Lib.keywordSearch (Api.fetch_route s) q o = Lib.hybridSearch (Api.fetch_route s) q o /\
     Lib.semanticSearch (Api.fetch_route s) q o = Lib.hybridSearch (Api.fetch_route s) q o).
Proof.
  destruct preset_sum_positive as [Pk Ps].
  destruct preset_quotients as (Q1 & Q2 & Q3 & Q4).
  assert (Hk : Lib.keywordSearch server q o
               = Lib.hybridSearch server q (with_weights o (Q2Qc (8 # 10)) (Q2Qc (2 # 10)))).
  { unfold Lib.keywordSearch, weightedSearch, weightedSearch_call, weightedSearch_call_in.
    rewrite Pk, Q1, Q2. reflexivity. }
  assert (Hs : Lib.semanticSearch server q o
               = Lib.hybridSearch server q (with_weights o (Q2Qc (2 # 10)) (Q2Qc (8 # 10)))).
  { unfold Lib.semanticSearch, weightedSearch, weightedSearch_call, weightedSearch_call_in.
    rewrite Ps, Q3, Q4. reflexivity. }
  split; [exact Hk|]. split; [exact Hs|]. split.
  - intro o64. unfold weightedSearch_call_binary64, weightedSearch_call_in.
    destruct preset_binary64 as (B1 & B2 & F1 & F2 & F3 & F4).
    split.
    + rewrite B1, F1, F2. reflexivity.
    + rewrite B2, F3, F4. reflexivity.
  - intros s Hsql. split.
    + unfold Lib.keywordSearch, weightedSearch, weightedSearch_call, weightedSearch_call_in.
      rewrite Pk, Q1, Q2. now apply route_weights.
    + unfold Lib.semanticSearch, weightedSearch, weightedSearch_call, weightedSearch_call_in.
      rewrite Ps, Q3, Q4. now apply route_weights.
Qed.

(** X30. The route and the Vite library agree when merging. For an
    unscoped search with the SQL function turned off, when the query is
    embedded to the same vector and the two stores answer both
    implementations alike, the lexical search finding at least one row,
    the route's handler and the Vite library's [hybridSearch] return the
    same results, the same total and the method [javascript_merge]. (When
    the lexical search finds nothing the library alone goes on to the
    document search.) *)
Theorem route_agrees_with_library (e : env) (s : Api.services) (query : string)
    (v : embedding_value) (log : list call) (lim : nat) (wl wv : num) :
  trim query <> EmptyString ->
  (String.length query <= 1000)%nat ->
  generateQueryEmbedding e query [] = (Returned v, log) ->
  Api.embeddings_create s (trim query) = Returned v ->
  embeddings_table e query None (lim * 2)%nat = Api.textSearch s query (lim * 2)%nat ->
  rows_of (Api.textSearch s query (lim * 2)%nat) <> [] ->
  match_chunks e v None (lim * 2)%nat = Api.rpc_match_chunks s v (lim * 2)%nat ->
  let o := {| documentId := None; limit := Some lim; ftsWeight := Some wl;
              vectorWeight := Some wv; useSupabaseFunction := Some false;
              fallbackToFTSOnly := None |} in
  let req := {| Api.req_method := "POST";
                Api.req_body := Api.Parsed {| Api.req_query := Some query;
                                   Api.req_documentId := None;
                                   Api.req_limit := Some lim;
                                   Api.req_ftsWeight := Some wl;
                                   Api.req_vectorWeight := Some wv;
                                   Api.req_useSupabaseFunction := Some false |} |} in
  let out := fst (hybridSearch e query o) in
  success out = true /\ method out = Some "javascript_merge"%string /\
  fst (Api.handler s req)
  = {| Api.status := 200;
       Api.json := Api.SearchBody query (results out) (total out) "javascript_merge" |}.
Proof.
  intros Hne Hlen Hgen Hemb Hlex Hrows Hvec. cbv zeta.
  rewrite handler_run. cbv zeta.
  cbn [Api.req_method Api.req_body Api.req_query Api.req_documentId Api.req_limit
       Api.req_ftsWeight Api.req_vectorWeight Api.req_useSupabaseFunction or_default].
  replace (String.eqb "POST" "POST") with true by reflexivity. cbn [negb].
  assert (Hblank : (String.length (trim query) =? 0)%nat = false)
    by (destruct (trim query); [congruence | reflexivity]).
  assert (Hlong : (1000 <? String.length query)%nat = false) by now apply Nat.ltb_ge.
  rewrite Hblank, Hlong, Hemb.
  rewrite hybridSearch_cascade. unfold cascade.
  rewrite Hblank, Hgen.
  cbn [or_default useSupabaseFunction limit ftsWeight vectorWeight documentId].
  unfold lexical_rows, vector_rows, Api.of_document.
  cbn [documentId scope_of]. rewrite Hlex, Hvec.
  rewrite (nonempty_length _ Hrows).
  cbn [fst found_outcome success method results total]. repeat split.
Qed.

(** X30 on Scenario A's lists. *)
Lemma route_agrees_with_library_witness :
  let e := world (Some "sk"%string) embedded (Data scenarioA_lexical) NoData
             (Data scenarioA_vector) NoData in
  let s := ApiSpec.backend (Returned (Some [Q2Qc (1 # 10); Q2Qc (2 # 10)]))
             (Data scenarioA_lexical) (Data scenarioA_vector) NoData in
  Api.status (fst (Api.handler s
    {| Api.req_method := "POST";
       Api.req_body := Api.Parsed {| Api.req_query := Some "ai"%string;
                          Api.req_documentId := None;
                          Api.req_limit := Some 10%nat;
                          Api.req_ftsWeight := Some (Q2Qc (1 # 2));
                          Api.req_vectorWeight := Some (Q2Qc (1 # 2));
                          Api.req_useSupabaseFunction := Some false |} |})) = 200%nat.
Proof.
  intros e s.
  assert (Hne : trim "ai"%string <> EmptyString) by discriminate.
  assert (Hlen : (String.length "ai" <= 1000)%nat) by (cbn; lia).
  assert (Hrows : rows_of (Api.textSearch s "ai" (10 * 2)%nat) <> []) by discriminate.
  destruct (route_agrees_with_library e s "ai"%string (Some [Q2Qc (1 # 10); Q2Qc (2 # 10)])
              [CallEmbedding "ai"] 10%nat (Q2Qc (1 # 2)) (Q2Qc (1 # 2))
              Hne Hlen eq_refl eq_refl eq_refl Hrows eq_refl) as (_ & _ & H).
  now rewrite H.
Defined.
